(** * froggered/todo: the task store, its lifecycle operations and the sync merge

    A shallow embedding of the [TaskTODOPlanner] class.  Two revisions of the
    class are in the repository: the one with the Pool tab and the
    download/upload buttons (all lifecycle operations below follow it), and
    the earlier [script.js], whose [handleSync] calls [mergeTaskData] and
    whose lifecycle methods are the date-keyed branches of the later ones.

    JavaScript objects used as dictionaries are finite maps of their own
    properties, arrays are lists, a method that mutates [this.tasks] is a
    function from the state before the call to the outcome of the call.
    An outcome records whether the call returned or threw, and the state the
    object is left in either way, because some methods mutate before the
    statement that throws.

    After the lifecycle methods come what [renderTasks] and the drag-and-drop
    handlers make of them, the calendar, and the [GitHubSync] class with the
    handlers that use it; the server it talks to is a parameter. *)

From Stdlib Require Import ZArith Lia Ascii String.
From Stdlib Require Import DecimalString.
From stdpp Require Import base numbers option list strings gmap fin_maps.

Local Open Scope Z_scope.

(** ** The host's [Date] object

    The source relies on [Date.prototype.toISOString], [getDate] and
    [setDate].  They are host functions (ECMAScript, section "Date Objects");
    the definitions here follow the standard: a date is a time value, the
    number of milliseconds since 1970-01-01T00:00:00Z, and local time is the
    time value shifted by the zone's offset. *)
Module JSDate.

Definition msPerDay : Z := 86400000.

Definition Day (t : Z) : Z := t / msPerDay.
Definition TimeWithinDay (t : Z) : Z := t mod msPerDay.
Definition MakeDate (day time : Z) : Z := day * msPerDay + time.

(** Proleptic Gregorian date (year, month 1..12, day of month 1..31) of a
    day number, by the usual era/day-of-era computation. *)
Definition civilFromDays (n : Z) : Z * Z * Z :=
  let z := n + 719468 in
  let era := z / 146097 in
  let doe := z - era * 146097 in
  let yoe := (doe - doe / 1460 + doe / 36524 - doe / 146096) / 365 in
  let doy := doe - (365 * yoe + yoe / 4 - yoe / 100) in
  let mp := (5 * doy + 2) / 153 in
  let d := doy - (153 * mp + 2) / 5 + 1 in
  let m := if mp <? 10 then mp + 3 else mp - 9 in
  let y := yoe + era * 400 + (if m <=? 2 then 1 else 0) in
  (y, m, d).

(** The calendar spelled out, to check [civilFromDays] against: the day
    after a date. *)
Definition isLeapYear (y : Z) : bool :=
  (y mod 4 =? 0) && (negb (y mod 100 =? 0) || (y mod 400 =? 0)).

Definition daysInMonth (y m : Z) : Z :=
  if m =? 2 then (if isLeapYear y then 29 else 28)
  else if (m =? 4) || (m =? 6) || (m =? 9) || (m =? 11) then 30
  else 31.

Definition nextDay (date : Z * Z * Z) : Z * Z * Z :=
  let '(y, m, d) := date in
  if d <? daysInMonth y m then (y, m, d + 1)
  else if m <? 12 then (y, m + 1, 1)
  else (y + 1, 1, 1).

(** [civilFromDays] agrees with [nextDay] on the [2^k] days from [a]. *)
Fixpoint followsCalendarOn (k : nat) (a : Z) : bool :=
  match k with
  | O => bool_decide (civilFromDays (a + 1) = nextDay (civilFromDays a))
  | S k' => followsCalendarOn k' a && followsCalendarOn k' (a + 2 ^ Z.of_nat k')
  end.

(** The standard's [DateFromTime]: the day of the month. *)
Definition DateFromTime (t : Z) : Z := (civilFromDays (Day t)).2.

(** A time zone: the offset of local time from UTC, in milliseconds, at a
    time value that is read as UTC ([true]) or as local time ([false]). *)
Record TimeZone := { LocalTZA : Z → bool → Z }.

Definition LocalTime (tz : TimeZone) (t : Z) : Z := t + LocalTZA tz t true.
Definition UTC (tz : TimeZone) (t : Z) : Z := t - LocalTZA tz t false.

Definition fixedOffset (offset : Z) : TimeZone :=
  {| LocalTZA := λ _ _, offset |}.

(** Offset 0 until 2024-03-31T01:00:00Z and +1h from then on: the rule of
    Europe/London around the start of summer time in 2024. *)
Definition londonSpring2024 : TimeZone :=
  {| LocalTZA := λ t isUTC,
       if isUTC then (if 1711846800000 <=? t then 3600000 else 0)
       else (if 1711846800000 + 3600000 <=? t then 3600000 else 0) |}.

(** [date.getDate()]: day of the month in local time. *)
Definition getDate (tz : TimeZone) (t : Z) : Z := DateFromTime (LocalTime tz t).

(** [date.setDate(dt)]: in local time, keep year, month and time of day
    and make the day of the month [dt]; values outside the month carry
    over.  The standard's [MakeDay(year, month, dt)] is the day number of
    the first of that month plus [dt - 1]; the first of the current local
    month is [DateFromTime - 1] days before the current local day. *)
Definition setDate (tz : TimeZone) (t dt : Z) : Z :=
  let lt := LocalTime tz t in
  let firstOfMonth := Day lt - (DateFromTime lt - 1) in
  UTC tz (MakeDate (firstOfMonth + (dt - 1)) (TimeWithinDay lt)).

Definition digitChar (d : Z) : Ascii.ascii :=
  Ascii.ascii_of_N (48 + Z.to_N d).

(** [n] decimal digits of [z], zero-padded on the left. *)
Fixpoint padDigits (n : nat) (z : Z) : string :=
  match n with
  | O => EmptyString
  | S k => padDigits k (z / 10) +:+ String (digitChar (z mod 10)) EmptyString
  end.

(** The year of the ISO format: four digits for 0..9999, otherwise a sign
    and six digits. *)
Definition isoYear (y : Z) : string :=
  if (0 <=? y) && (y <=? 9999) then padDigits 4 y
  else (if 0 <=? y then "+" else "-") +:+ padDigits 6 (Z.abs y).

(** [date.toISOString().split('T')[0]]: the UTC calendar date. *)
Definition isoDateOfDay (n : Z) : string :=
  let '(y, m, d) := civilFromDays n in
  isoYear y +:+ "-" +:+ padDigits 2 m +:+ "-" +:+ padDigits 2 d.

Definition toISODate (t : Z) : string := isoDateOfDay (Day t).

(** The calendar date the user sees ([toLocaleDateString], [getDate],
    [getMonth], [getFullYear]), printed in the same YYYY-MM-DD shape. *)
Definition localCalendarDate (tz : TimeZone) (t : Z) : string :=
  isoDateOfDay (Day (LocalTime tz t)).

End JSDate.


(** ** Tasks and the task collection *)

Inductive Status := Pending | InProgress | Completed.

Global Instance Status_eq_dec : EqDecision Status.
Proof. solve_decision. Defined.

(** A task object.  [id] is the number [Date.now()] returned when the object
    was created; the date fields are date keys or [null]. *)
Record Task := mkTask {
  id : Z;
  text : string;
  status : Status;
  completed : bool;
  completedDate : option string;
  moved : bool;
  originalDate : option string
}.

Global Instance Task_eq_dec : EqDecision Task.
Proof. solve_decision. Defined.

(** The two date-keyed categories, and the categories a tab can show.  The
    methods that test [category === 'pool'] take a [Category]; the others
    index [this.tasks[category]] by a date key, and their call sites pass
    ['personal'] or ['work'] only. *)
Inductive DatedCategory := Personal | Work.
Inductive Category := Dated (c : DatedCategory) | Pool.

Global Instance DatedCategory_eq_dec : EqDecision DatedCategory.
Proof. solve_decision. Defined.

(** [this.tasks]: [{ personal: {...}, work: {...}, pool: [...] }].  It is
    whatever [JSON.parse] returned in [loadTasks] or [handleDownload], so any
    of the three properties can be missing (data saved by the revision
    without the Pool has no [pool]); the methods test for that in places. *)
Record TaskCollection := mkTasks {
  personal : option (gmap string (list Task));
  work : option (gmap string (list Task));
  pool : option (list Task)
}.

(** The fields of the planner object that the lifecycle methods read or
    write: the viewed date (a [Date], as its time value) and the tasks. *)
Record State := mkState {
  currentDate : Z;
  tasks : TaskCollection
}.

(** What a method call did: it returned, or it threw (every exception below
    is the [TypeError] of reading a property of [undefined]); [s] is the state
    of the object at that point. *)
Inductive Outcome := Returned (s : State) | Threw (s : State).

Definition finalState (o : Outcome) : State :=
  match o with Returned s | Threw s => s end.

Definition returned (o : Outcome) : bool :=
  match o with Returned _ => true | Threw _ => false end.

(** [loadTasks()] when nothing is stored. *)
Definition emptyTasks : TaskCollection :=
  {| personal := Some ∅; work := Some ∅; pool := Some [] |}.

(** ** Array and string helpers of the host *)

(** [tasks.findIndex(t => t.id === taskId)], with [None] for [-1];
    [tasks.find] is the element at that index.  The index is in range
    ([findIndex_Some] below), so where a method goes on to read
    [tasks[taskIndex]] the [None] branch of that lookup is never taken. *)
Fixpoint findIndex (taskId : Z) (l : list Task) : option nat :=
  match l with
  | [] => None
  | t :: rest =>
      if id t =? taskId then Some O else S <$> findIndex taskId rest
  end.

(** [tasks.some(t => t.id === taskId)]. *)
Definition someId (taskId : Z) (l : list Task) : bool :=
  existsb (λ t, id t =? taskId) l.

(** [tasks.splice(i, 1)]. *)
Definition spliceOut (i : nat) (l : list Task) : list Task := delete i l.

(** [tasks.splice(i, 0, t)]; an index past the end is clamped to the end. *)
Definition spliceIn (i : nat) (t : Task) (l : list Task) : list Task :=
  take i l ++ t :: drop i l.

Definition isWhiteSpace (c : ascii) : bool :=
  let n := nat_of_ascii c in
  (n =? 32)%nat || ((9 <=? n)%nat && (n <=? 13)%nat).

Fixpoint trimStart (s : string) : string :=
  match s with
  | String c rest => if isWhiteSpace c then trimStart rest else s
  | EmptyString => EmptyString
  end.

Fixpoint trimEnd (s : string) : string :=
  match s with
  | String c rest =>
      match trimEnd rest with
      | EmptyString => if isWhiteSpace c then EmptyString else String c EmptyString
      | rest' => String c rest'
      end
  | EmptyString => EmptyString
  end.

(** [s.trim()], for the white space of the ASCII range. *)
Definition trim (s : string) : string := trimEnd (trimStart s).

(** A string is falsy exactly when it is empty. *)
Definition truthy (s : string) : bool :=
  match s with EmptyString => false | _ => true end.

(** ** Reading and writing [this.tasks] *)

Definition formatDateKey (date : Z) : string := JSDate.toISODate date.

Definition getDateKey (s : State) : string := formatDateKey (currentDate s).

(** [this.tasks[category]]. *)
Definition getCategory (cat : DatedCategory) (c : TaskCollection)
  : option (gmap string (list Task)) :=
  match cat with Personal => personal c | Work => work c end.

(** [this.tasks[category] = m]. *)
Definition setCategory (cat : DatedCategory) (m : gmap string (list Task))
    (c : TaskCollection) : TaskCollection :=
  match cat with
  | Personal => {| personal := Some m; work := work c; pool := pool c |}
  | Work => {| personal := personal c; work := Some m; pool := pool c |}
  end.

Definition setPool (l : list Task) (c : TaskCollection) : TaskCollection :=
  {| personal := personal c; work := work c; pool := Some l |}.

Definition withTasks (c : TaskCollection) (s : State) : State :=
  {| currentDate := currentDate s; tasks := c |}.

(** [const tasks = this.tasks[category][dateKey]] followed by a method call
    on [tasks]: the map and the array when both exist.  When the category is
    missing the indexing throws, when the date has no array the method call
    on [undefined] throws; nothing has been written in either case. *)
Definition viewedBucket (cat : DatedCategory) (s : State)
  : option (gmap string (list Task) * list Task) :=
  m ← getCategory cat (tasks s);
  l ← m !! getDateKey s;
  Some (m, l).

(** [if (!this.tasks[category]) this.tasks[category] = {};
     if (!this.tasks[category][dateKey]) this.tasks[category][dateKey] = [];
     this.tasks[category][dateKey].push(task)]. *)
Definition pushCreating (cat : DatedCategory) (dateKey : string) (t : Task)
    (c : TaskCollection) : TaskCollection :=
  let m := default ∅ (getCategory cat c) in
  setCategory cat (<[dateKey := default [] (m !! dateKey) ++ [t]]> m) c.

(** ** The lifecycle methods

    [saveTasks] serialises [this.tasks] into [localStorage] and
    [renderTasks] rebuilds the list from it; neither changes [this.tasks],
    and both run only after the mutations shown here. [now] is the value
    [Date.now()] returns during the call. *)

(** The object literals of the methods.  [newTask] is the literal of
    [addTask] and [addPoolTask]; the others spread an existing task and
    override the fields listed. *)
Definition newTask (now : Z) (text0 : string) (originalDate0 : option string) : Task :=
  {| id := now; text := text0; status := Pending; completed := false;
     completedDate := None; moved := false; originalDate := originalDate0 |}.

(** [{ ...task, id: Date.now(), moved: false }], the literal of
    [moveTaskBetweenCategories]; [moveTaskToDate] adds
    [originalDate: task.originalDate], which changes nothing. *)
Definition relocated (now : Z) (task : Task) : Task :=
  {| id := now; text := text task; status := status task;
     completed := completed task; completedDate := completedDate task;
     moved := false; originalDate := originalDate task |}.

(** [{ ...task, id: Date.now(), originalDate: dateKey, moved: false }]. *)
Definition scheduled (now : Z) (dateKey : string) (task : Task) : Task :=
  {| id := now; text := text task; status := status task;
     completed := completed task; completedDate := completedDate task;
     moved := false; originalDate := Some dateKey |}.

(** [{ ...task, id: Date.now(), originalDate: null, moved: false,
       completed: false,
       status: task.status === 'completed' ? 'pending' : task.status,
       completedDate: null }]. *)
Definition pooled (now : Z) (task : Task) : Task :=
  {| id := now; text := text task;
     status := match status task with Completed => Pending | st => st end;
     completed := false; completedDate := None; moved := false;
     originalDate := None |}.

(** [{ ...task, completed: true, status: 'completed', completedDate: dateKey,
       originalDate: dateKey, moved: false }]. *)
Definition completedFromPool (dateKey : string) (task : Task) : Task :=
  {| id := id task; text := text task; status := Completed; completed := true;
     completedDate := Some dateKey; moved := false;
     originalDate := Some dateKey |}.

(** [addTask(category)]; [inputValue] is the content of the input box. *)
Definition addTask (now : Z) (category : DatedCategory) (inputValue : string)
    (s : State) : Outcome :=
  let text0 := trim inputValue in
  if negb (truthy text0) then Returned s
  else
    let dateKey := getDateKey s in
    let task := newTask now text0 (Some dateKey) in
    Returned (withTasks (pushCreating category dateKey task (tasks s)) s).

(** [addPoolTask()]. *)
Definition addPoolTask (now : Z) (inputValue : string) (s : State) : Outcome :=
  let text0 := trim inputValue in
  if negb (truthy text0) then Returned s
  else
    let task := newTask now text0 None in
    Returned (withTasks (setPool (default [] (pool (tasks s)) ++ [task]) (tasks s)) s).

(** [completePoolTask(taskId)].  The task is spliced out of the pool before
    [this.tasks.personal[dateKey]] is read. *)
Definition completePoolTask (taskId : Z) (s : State) : Outcome :=
  match pool (tasks s) with
  | None => Threw s
  | Some poolTasks =>
      match findIndex taskId poolTasks with
      | None => Returned s
      | Some taskIndex =>
          match poolTasks !! taskIndex with
          | None => Returned s
          | Some task =>
              let c1 := setPool (spliceOut taskIndex poolTasks) (tasks s) in
              let dateKey := getDateKey s in
              let completedTask := completedFromPool dateKey task in
              match personal c1 with
              | None => Threw (withTasks c1 s)
              | Some m =>
                  Returned (withTasks
                    (setCategory Personal
                       (<[dateKey := default [] (m !! dateKey) ++ [completedTask]]> m) c1) s)
              end
          end
      end
  end.

(** The shape shared by the methods that look a task up with [find] and
    assign to its fields: [mutate] is applied to the first task with the id,
    where it sits; a missing array throws at [tasks.find]. *)
Definition mutateTask (category : Category) (taskId : Z) (mutate : Task → Task)
    (s : State) : Outcome :=
  match category with
  | Pool =>
      match pool (tasks s) with
      | None => Threw s
      | Some poolTasks =>
          match findIndex taskId poolTasks with
          | None => Returned s
          | Some i => Returned (withTasks (setPool (alter mutate i poolTasks) (tasks s)) s)
          end
      end
  | Dated cat =>
      match viewedBucket cat s with
      | None => Threw s
      | Some (m, l) =>
          match findIndex taskId l with
          | None => Returned s
          | Some i =>
              Returned (withTasks
                (setCategory cat (<[getDateKey s := alter mutate i l]> m) (tasks s)) s)
          end
      end
  end.

(** [task.completed = true; task.status = 'completed';
     task.completedDate = this.getDateKey()]. *)
Definition markCompleted (dateKey : string) (t : Task) : Task :=
  {| id := id t; text := text t; status := Completed; completed := true;
     completedDate := Some dateKey; moved := moved t;
     originalDate := originalDate t |}.

(** [task.completed = false; task.status = 'pending';
     task.completedDate = null]. *)
Definition markPending (t : Task) : Task :=
  {| id := id t; text := text t; status := Pending; completed := false;
     completedDate := None; moved := moved t; originalDate := originalDate t |}.

(** The body of [toggleTaskInProgress]: the two-way [if] on the status, then
    [task.completed = false] whatever the status was. *)
Definition toggleProgress (t : Task) : Task :=
  let status' :=
    match status t with
    | InProgress => Pending
    | Pending => InProgress
    | Completed => Completed
    end in
  {| id := id t; text := text t; status := status'; completed := false;
     completedDate := completedDate t; moved := moved t;
     originalDate := originalDate t |}.

Definition setText (newText : string) (t : Task) : Task :=
  {| id := id t; text := newText; status := status t; completed := completed t;
     completedDate := completedDate t; moved := moved t;
     originalDate := originalDate t |}.

Definition markMoved (t : Task) : Task :=
  {| id := id t; text := text t; status := status t; completed := completed t;
     completedDate := completedDate t; moved := true;
     originalDate := originalDate t |}.

Definition completeTask (category : Category) (taskId : Z) (s : State) : Outcome :=
  match category with
  | Pool => completePoolTask taskId s
  | Dated _ => mutateTask category taskId (markCompleted (getDateKey s)) s
  end.

Definition uncompleteTask (category : Category) (taskId : Z) (s : State) : Outcome :=
  mutateTask category taskId markPending s.

Definition toggleTaskInProgress (category : Category) (taskId : Z) (s : State)
  : Outcome :=
  mutateTask category taskId toggleProgress s.

(** [editTask]: [if (task && newText.trim()) task.text = newText.trim()];
    the array is read, and [find] called, before the text is looked at. *)
Definition editTask (category : Category) (taskId : Z) (newText : string)
    (s : State) : Outcome :=
  mutateTask category taskId
    (λ t, if truthy (trim newText) then setText (trim newText) t else t) s.

(** [moveTaskToDate(category, taskId, daysOffset)].  [task.moved = true] is
    written on the object in the viewed array; [targetDay] is a copy of
    [this.currentDate] moved with [setDate(getDate() + daysOffset)]; the new
    object spreads the task, which is marked by then, and overrides [moved]
    again, so it is [relocated] of the task as it was. *)
Definition moveTaskToDate (tz : JSDate.TimeZone) (now : Z)
    (category : DatedCategory) (taskId : Z) (daysOffset : Z) (s : State)
  : Outcome :=
  match viewedBucket category s with
  | None => Threw s
  | Some (m, l) =>
      match findIndex taskId l with
      | None => Returned s
      | Some taskIndex =>
          match l !! taskIndex with
          | None => Returned s
          | Some task =>
              let m1 := <[getDateKey s := alter markMoved taskIndex l]> m in
              let targetDay :=
                JSDate.setDate tz (currentDate s)
                  (JSDate.getDate tz (currentDate s) + daysOffset) in
              let targetDateKey := formatDateKey targetDay in
              let copy := relocated now task in
              Returned (withTasks
                (setCategory category
                   (<[targetDateKey := default [] (m1 !! targetDateKey) ++ [copy]]> m1)
                   (tasks s)) s)
          end
      end
  end.

(** [moveTaskBetweenCategories(fromCategory, toCategory, taskId)]. *)
Definition moveTaskBetweenCategories (now : Z) (fromCategory toCategory : DatedCategory)
    (taskId : Z) (s : State) : Outcome :=
  match viewedBucket fromCategory s with
  | None => Threw s
  | Some (m, fromTasks) =>
      match findIndex taskId fromTasks with
      | None => Returned s
      | Some taskIndex =>
          match fromTasks !! taskIndex with
          | None => Returned s
          | Some task =>
              let dateKey := getDateKey s in
              let c1 := setCategory fromCategory
                          (<[dateKey := spliceOut taskIndex fromTasks]> m) (tasks s) in
              let copy := relocated now task in
              Returned (withTasks (pushCreating toCategory dateKey copy c1) s)
          end
      end
  end.

(** [movePoolTaskToDate(targetCategory, taskId)]: a pool task dropped on the
    Personal or the Work tab goes to the viewed date. *)
Definition movePoolTaskToDate (now : Z) (targetCategory : DatedCategory)
    (taskId : Z) (s : State) : Outcome :=
  match pool (tasks s) with
  | None => Threw s
  | Some poolTasks =>
      match findIndex taskId poolTasks with
      | None => Returned s
      | Some taskIndex =>
          match poolTasks !! taskIndex with
          | None => Returned s
          | Some task =>
              let c1 := setPool (spliceOut taskIndex poolTasks) (tasks s) in
              let dateKey := getDateKey s in
              let copy := scheduled now dateKey task in
              Returned (withTasks (pushCreating targetCategory dateKey copy c1) s)
          end
      end
  end.

(** [movePoolTaskToSpecificDate(taskId, targetDate)]: a pool task dropped on
    the previous-day or next-day button.  [this.tasks.personal] is indexed
    without the test the sibling methods make. *)
Definition movePoolTaskToSpecificDate (now : Z) (taskId : Z) (targetDate : Z)
    (s : State) : Outcome :=
  match pool (tasks s) with
  | None => Threw s
  | Some poolTasks =>
      match findIndex taskId poolTasks with
      | None => Returned s
      | Some taskIndex =>
          match poolTasks !! taskIndex with
          | None => Returned s
          | Some task =>
              let c1 := setPool (spliceOut taskIndex poolTasks) (tasks s) in
              let targetDateKey := formatDateKey targetDate in
              let copy := scheduled now targetDateKey task in
              match personal c1 with
              | None => Threw (withTasks c1 s)
              | Some m =>
                  Returned (withTasks
                    (setCategory Personal
                       (<[targetDateKey := default [] (m !! targetDateKey) ++ [copy]]> m)
                       c1) s)
              end
          end
      end
  end.

(** The drop handler of the previous-day and next-day buttons for a task
    dragged out of the pool: it computes [targetDate] as [moveTaskToDate]
    does and calls [movePoolTaskToSpecificDate]. *)
Definition dropPoolTaskOnDayButton (tz : JSDate.TimeZone) (now : Z) (taskId : Z)
    (daysOffset : Z) (s : State) : Outcome :=
  movePoolTaskToSpecificDate now taskId
    (JSDate.setDate tz (currentDate s) (JSDate.getDate tz (currentDate s) + daysOffset)) s.

(** [moveTaskToPool(fromCategory, taskId)]. *)
Definition moveTaskToPool (now : Z) (fromCategory : DatedCategory) (taskId : Z)
    (s : State) : Outcome :=
  match viewedBucket fromCategory s with
  | None => Threw s
  | Some (m, fromTasks) =>
      match findIndex taskId fromTasks with
      | None => Returned s
      | Some taskIndex =>
          match fromTasks !! taskIndex with
          | None => Returned s
          | Some task =>
              let c1 := setCategory fromCategory
                          (<[getDateKey s := spliceOut taskIndex fromTasks]> m) (tasks s) in
              let copy := pooled now task in
              Returned (withTasks (setPool (default [] (pool c1) ++ [copy]) c1) s)
          end
      end
  end.

(** [deleteTask(category, taskId)]. *)
Definition deleteTask (category : Category) (taskId : Z) (s : State) : Outcome :=
  match category with
  | Pool =>
      match pool (tasks s) with
      | None => Threw s
      | Some poolTasks =>
          match findIndex taskId poolTasks with
          | None => Returned s
          | Some taskIndex =>
              Returned (withTasks (setPool (spliceOut taskIndex poolTasks) (tasks s)) s)
          end
      end
  | Dated cat =>
      match viewedBucket cat s with
      | None => Threw s
      | Some (m, l) =>
          match findIndex taskId l with
          | None => Returned s
          | Some taskIndex =>
              Returned (withTasks
                (setCategory cat (<[getDateKey s := spliceOut taskIndex l]> m) (tasks s)) s)
          end
      end
  end.

(** The array part of [reorderTasks]. *)
Definition reorderList (draggedTaskId targetTaskId : Z) (insertBefore : bool)
    (l : list Task) : option (list Task) :=
  match findIndex draggedTaskId l, findIndex targetTaskId l with
  | Some draggedIndex, Some targetIndex =>
      if bool_decide (draggedIndex = targetIndex) then None
      else
        match l !! draggedIndex with
        | None => None
        | Some draggedTask =>
            let l1 := spliceOut draggedIndex l in
            let newTargetIndex :=
              if (draggedIndex <? targetIndex)%nat then pred targetIndex
              else targetIndex in
            let insertIndex :=
              if insertBefore then newTargetIndex else S newTargetIndex in
            Some (spliceIn insertIndex draggedTask l1)
        end
  | _, _ => None
  end.

(** [reorderTasks(category, draggedTaskId, targetTaskId, insertBefore)];
    [reorderList] answers [None] when the [if] is not entered. *)
Definition reorderTasks (category : Category) (draggedTaskId targetTaskId : Z)
    (insertBefore : bool) (s : State) : Outcome :=
  match category with
  | Pool =>
      match pool (tasks s) with
      | None => Threw s
      | Some poolTasks =>
          match reorderList draggedTaskId targetTaskId insertBefore poolTasks with
          | None => Returned s
          | Some l' => Returned (withTasks (setPool l' (tasks s)) s)
          end
      end
  | Dated cat =>
      match viewedBucket cat s with
      | None => Threw s
      | Some (m, l) =>
          match reorderList draggedTaskId targetTaskId insertBefore l with
          | None => Returned s
          | Some l' =>
              Returned (withTasks (setCategory cat (<[getDateKey s := l']> m) (tasks s)) s)
          end
      end
  end.

(** [changeDate(days)] and [selectDate(date)] move the viewed date. *)
Definition changeDate (tz : JSDate.TimeZone) (days : Z) (s : State) : Outcome :=
  Returned {| currentDate :=
                JSDate.setDate tz (currentDate s) (JSDate.getDate tz (currentDate s) + days);
              tasks := tasks s |}.

Definition selectDate (date : Z) (s : State) : Outcome :=
  Returned {| currentDate := date; tasks := tasks s |}.

(** [handleDownload()]: [download] is the object [downloadFromGist]
    resolved to, or [None] when there is no token or the download failed
    (the [catch] only notifies).  The parsed object replaces [this.tasks]
    as it is. *)
Definition handleDownload (download : option TaskCollection) (s : State) : Outcome :=
  match download with
  | Some cloudData => Returned (withTasks cloudData s)
  | None => Returned s
  end.

(** The calls the user interface makes on the planner. *)
Inductive Op :=
  | OpAddTask (category : DatedCategory) (inputValue : string)
  | OpAddPoolTask (inputValue : string)
  | OpCompleteTask (category : Category) (taskId : Z)
  | OpUncompleteTask (category : Category) (taskId : Z)
  | OpToggleTaskInProgress (category : Category) (taskId : Z)
  | OpEditTask (category : Category) (taskId : Z) (newText : string)
  | OpMoveTaskToDate (category : DatedCategory) (taskId : Z) (daysOffset : Z)
  | OpMoveTaskBetweenCategories (fromCategory toCategory : DatedCategory) (taskId : Z)
  | OpMovePoolTaskToDate (targetCategory : DatedCategory) (taskId : Z)
  | OpMovePoolTaskToSpecificDate (taskId : Z) (targetDate : Z)
  | OpMoveTaskToPool (fromCategory : DatedCategory) (taskId : Z)
  | OpDeleteTask (category : Category) (taskId : Z)
  | OpReorderTasks (category : Category) (draggedTaskId targetTaskId : Z)
      (insertBefore : bool)
  | OpChangeDate (days : Z)
  | OpSelectDate (date : Z)
  | OpHandleDownload (download : option TaskCollection).

(** One call, in time zone [tz], with [Date.now()] returning [now]. *)
Definition run (tz : JSDate.TimeZone) (now : Z) (op : Op) (s : State) : Outcome :=
  match op with
  | OpAddTask category inputValue => addTask now category inputValue s
  | OpAddPoolTask inputValue => addPoolTask now inputValue s
  | OpCompleteTask category taskId => completeTask category taskId s
  | OpUncompleteTask category taskId => uncompleteTask category taskId s
  | OpToggleTaskInProgress category taskId => toggleTaskInProgress category taskId s
  | OpEditTask category taskId newText => editTask category taskId newText s
  | OpMoveTaskToDate category taskId daysOffset =>
      moveTaskToDate tz now category taskId daysOffset s
  | OpMoveTaskBetweenCategories fromCategory toCategory taskId =>
      moveTaskBetweenCategories now fromCategory toCategory taskId s
  | OpMovePoolTaskToDate targetCategory taskId =>
      movePoolTaskToDate now targetCategory taskId s
  | OpMovePoolTaskToSpecificDate taskId targetDate =>
      movePoolTaskToSpecificDate now taskId targetDate s
  | OpMoveTaskToPool fromCategory taskId => moveTaskToPool now fromCategory taskId s
  | OpDeleteTask category taskId => deleteTask category taskId s
  | OpReorderTasks category draggedTaskId targetTaskId insertBefore =>
      reorderTasks category draggedTaskId targetTaskId insertBefore s
  | OpChangeDate days => changeDate tz days s
  | OpSelectDate date => selectDate date s
  | OpHandleDownload download => handleDownload download s
  end.

(** ** The sync merge of [script.js]

    In that revision [this.tasks] is [{ personal: {...}, work: {...} }] and
    [mergeTaskData] walks whatever categories and dates the downloaded
    object has, so both are maps from category name to date key to array.
    The downloaded object is a fresh [JSON.parse] result: no array in it is
    shared, and adopting one of its arrays cannot alias a local one. *)

(** The [forEach] of the inner [else]: each cloud task is pushed unless a
    task with its id is in the local array as it is at that moment. *)
Definition pushMissing (localTasks cloudTasks : list Task) : list Task :=
  foldl (λ acc cloudTask,
           if someId (id cloudTask) acc then acc else acc ++ [cloudTask])
        localTasks cloudTasks.

(** The body of [for (const date in cloudData[category])], on the local
    map of the category. *)
Definition mergeDate (date : string) (cloudTasks : list Task)
    (localDates : gmap string (list Task)) : gmap string (list Task) :=
  match localDates !! date with
  | None => <[date := cloudTasks]> localDates
  | Some localTasks => <[date := pushMissing localTasks cloudTasks]> localDates
  end.

(** The body of [for (const category in cloudData)]. *)
Definition mergeCategory (category : string) (cloudDates : gmap string (list Task))
    (local : gmap string (gmap string (list Task)))
  : gmap string (gmap string (list Task)) :=
  let localDates := default ∅ (local !! category) in
  <[category := map_fold mergeDate localDates cloudDates]> local.

(** [mergeTaskData(cloudData)] on [this.tasks]. *)
Definition mergeTaskData (cloudData local : gmap string (gmap string (list Task)))
  : gmap string (gmap string (list Task)) :=
  map_fold mergeCategory local cloudData.

(** ** The properties the specification states *)

(** [completed == (status == "completed")]. *)
Definition inSync (t : Task) : bool :=
  bool_decide (completed t = bool_decide (status t = Completed)).

(** Every task of a date-keyed category, and of the whole collection. *)
Definition categoryTasks (m : gmap string (list Task)) : list Task :=
  mjoin (map_to_list m).*2.

Definition allTasks (c : TaskCollection) : list Task :=
  categoryTasks (default ∅ (personal c))
  ++ categoryTasks (default ∅ (work c))
  ++ default [] (pool c).

Definition totalCount (c : TaskCollection) : nat := length (allTasks c).

Definition allIds (c : TaskCollection) : list Z := id <$> allTasks c.

(** No two tasks of the collection have the same id. *)
Definition uniqueIds (c : TaskCollection) : Prop := NoDup (allIds c).

(** [originalDate == null] and [status != "completed"]. *)
Definition poolTaskOk (t : Task) : bool :=
  bool_decide (originalDate t = None) && negb (bool_decide (status t = Completed)).

Definition poolInvariant (c : TaskCollection) : Prop :=
  Forall (λ t, poolTaskOk t = true) (default [] (pool c)).

(** The methods in which [Date.now()] becomes the id of a new task. *)
Definition mintsId (op : Op) : bool :=
  match op with
  | OpAddTask _ _ | OpAddPoolTask _ | OpMoveTaskToDate _ _ _
  | OpMoveTaskBetweenCategories _ _ _ | OpMovePoolTaskToDate _ _
  | OpMovePoolTaskToSpecificDate _ _ | OpMoveTaskToPool _ _ => true
  | _ => false
  end.

(** The array at [(category, date)] of a [script.js] store. *)
Definition bucketOf (st : gmap string (gmap string (list Task)))
    (category date : string) : option (list Task) :=
  st !! category ≫= (.!! date).

(** No two tasks of a [script.js] store have the same id: none within an
    array, and none across two arrays. *)
Definition uniqueStore (st : gmap string (gmap string (list Task))) : Prop :=
  (∀ category date l, bucketOf st category date = Some l → NoDup (id <$> l))
  ∧ (∀ category1 date1 l1 category2 date2 l2 t1 t2,
       bucketOf st category1 date1 = Some l1 →
       bucketOf st category2 date2 = Some l2 →
       t1 ∈ l1 → t2 ∈ l2 → id t1 = id t2 →
       (category1, date1) = (category2, date2)).

(** An id that the local store and the downloaded one both hold sits in the
    same array of both. *)
Definition sharedIdsAligned (cloud local : gmap string (gmap string (list Task)))
  : Prop :=
  ∀ category1 date1 l1 category2 date2 l2 t1 t2,
    bucketOf local category1 date1 = Some l1 →
    bucketOf cloud category2 date2 = Some l2 →
    t1 ∈ l1 → t2 ∈ l2 → id t1 = id t2 →
    (category1, date1) = (category2, date2).

(** What the merge leaves at a date, from the local and the cloud array. *)
Definition mergeBucket (localTasks cloudTasks : option (list Task))
  : option (list Task) :=
  match cloudTasks with
  | None => localTasks
  | Some r => Some (match localTasks with None => r | Some l => pushMissing l r end)
  end.

(** The task [tasks.find(t => t.id === taskId)] returns. *)
Definition findTask (taskId : Z) (l : list Task) : option Task :=
  i ← findIndex taskId l; l !! i.

(** How a call changed the tasks of the collection, order aside: the tasks
    of [removed] are gone (or were rewritten) and those of [added] are new
    (or the rewritten ones). *)
Definition changes (removed added : list Task) (c c' : TaskCollection) : Prop :=
  ∃ rest, allTasks c ≡ₚ removed ++ rest ∧ allTasks c' ≡ₚ added ++ rest.

(** The shapes a single call gives to [changes], when [Date.now()] returns
    [now]. *)
Inductive Kind := Unchanged | Rewritten | Removed | Added | Replaced | Copied.

Inductive Delta (now : Z) : Kind → list Task → list Task → Prop :=
  | delta_none : Delta now Unchanged [] []
  | delta_rewrite t t' : id t' = id t → Delta now Rewritten [t] [t']
  | delta_remove t : Delta now Removed [t] []
  | delta_add t' : id t' = now → Delta now Added [] [t']
  | delta_replace t t' : id t' = now → Delta now Replaced [t] [t']
  | delta_copy t t' : id t' = now → Delta now Copied [t] [t'; markMoved t].

(** Which shape a method can give, by whether the call returned.  Two
    methods throw after the splice: the task is then removed and nothing
    is added. *)
Definition mayProduce (op : Op) (didReturn : bool) (k : Kind) : bool :=
  match k, op with
  | Unchanged, _ => true
  | Added, (OpAddTask _ _ | OpAddPoolTask _) => didReturn
  | Rewritten, (OpCompleteTask _ _ | OpUncompleteTask _ _
               | OpToggleTaskInProgress _ _ | OpEditTask _ _ _) => didReturn
  | Removed, OpDeleteTask _ _ => didReturn
  | Removed, (OpCompleteTask Pool _ | OpMovePoolTaskToSpecificDate _ _) =>
      negb didReturn
  | Replaced, (OpMoveTaskBetweenCategories _ _ _ | OpMovePoolTaskToDate _ _
              | OpMovePoolTaskToSpecificDate _ _ | OpMoveTaskToPool _ _) => didReturn
  | Copied, OpMoveTaskToDate _ _ _ => didReturn
  | _, _ => false
  end.

(** The in-progress toggle is the one method that writes [completed]
    without looking at the status it leaves. *)
Definition toggles (op : Op) : bool :=
  match op with OpToggleTaskInProgress _ _ => true | _ => false end.

(** A call of [op] from tasks [c] had outcome [o]: one of the shapes the
    method can give accounts for the difference, and what was added has
    [completed] and [status] in step if what was removed had, the toggle
    needing in addition that its task was not completed. *)
Definition summarised (now : Z) (op : Op) (c : TaskCollection) (o : Outcome) : Prop :=
  ∃ k removed added,
    mayProduce op (returned o) k = true
    ∧ Delta now k removed added
    ∧ changes removed added c (tasks (finalState o))
    ∧ (Forall (λ t, inSync t = true) removed →
       (toggles op = true → Forall (λ t, status t ≠ Completed) removed) →
       Forall (λ t, inSync t = true) added).

(** The methods after which the number of tasks can differ. *)
Definition changesCount (op : Op) : bool :=
  match op with
  | OpAddTask _ _ | OpAddPoolTask _ | OpDeleteTask _ _
  | OpMoveTaskToDate _ _ _ | OpHandleDownload _ => true
  | _ => false
  end.

(** [this.tasks[category][dateKey]], read without calling anything on it. *)
Definition bucketAt (c : TaskCollection) (cat : DatedCategory) (dateKey : string)
  : option (list Task) :=
  getCategory cat c ≫= (.!! dateKey).

(** ** Sample data *)

Definition sampleTask (i : Z) (txt : string) (st : Status) (day : string) : Task :=
  {| id := i; text := txt; status := st;
     completed := bool_decide (st = Completed);
     completedDate := if bool_decide (st = Completed) then Some day else None;
     moved := false; originalDate := Some day |}.

(** 2024-03-05T12:00:00Z. *)
Definition noon_2024_03_05 : Z := 1709640000000.

(** 2024-03-31T00:00:00Z, which is midnight of 31 March in London. *)
Definition midnight_2024_03_31 : Z := 1711843200000.

(** 2024-03-05T22:00:00Z, which is midnight of 6 March two hours east of
    Greenwich: the [Date] the calendar builds for a click on that day's
    cell, [new Date(2024, 2, 6)]. *)
Definition localMidnight_2024_03_06_utc2 : Z := 1709676000000.

(** Viewing 5 March 2024 at noon UTC with nothing stored. *)
Definition emptyState : State :=
  {| currentDate := noon_2024_03_05; tasks := emptyTasks |}.

Definition milk : Task := sampleTask 1000 "Buy milk" Pending "2024-03-05".
Definition milkDone : Task := sampleTask 1000 "Buy milk" Completed "2024-03-05".

(** One pending, respectively completed, task on the viewed day. *)
Definition milkState : State :=
  {| currentDate := noon_2024_03_05;
     tasks := {| personal := Some {[ "2024-03-05" := [milk] ]};
                 work := Some ∅; pool := Some [] |} |}.

Definition milkDoneState : State :=
  {| currentDate := noon_2024_03_05;
     tasks := {| personal := Some {[ "2024-03-05" := [milkDone] ]};
                 work := Some ∅; pool := Some [] |} |}.

(** The task of 5 March while the user views 6 March, whose list holds
    another task. *)
Definition nextDayState : State :=
  {| currentDate := noon_2024_03_05 + JSDate.msPerDay;
     tasks := {| personal :=
                   Some {[ "2024-03-05" := [milk];
                           "2024-03-06" :=
                             [sampleTask 2000 "Call Bob" Pending "2024-03-06"] ]};
                 work := Some ∅; pool := Some [] |} |}.

(** A task on 31 March 2024, viewed in London after a click on that day's
    cell of the calendar. *)
Definition londonState : State :=
  {| currentDate := midnight_2024_03_31;
     tasks := {| personal :=
                   Some {[ "2024-03-31" :=
                             [sampleTask 1000 "Buy milk" Pending "2024-03-31"] ]};
                 work := Some ∅; pool := Some [] |} |}.

(** A downloaded collection whose pool holds a completed, dated task. *)
Definition staleSnapshot : TaskCollection :=
  {| personal := Some ∅; work := Some ∅; pool := Some [milkDone] |}.

(** The merge scenario of the specification. *)
Definition taskA : Task := sampleTask 1 "A" Pending "2024-01-01".
Definition taskAChanged : Task := sampleTask 1 "A-changed" Pending "2024-01-01".
Definition taskB : Task := sampleTask 2 "B" Pending "2024-01-01".

Definition scenarioLocal : gmap string (gmap string (list Task)) :=
  {[ "personal" := {[ "2024-01-01" := [taskA] ]} ]}.

Definition scenarioCloud : gmap string (gmap string (list Task)) :=
  {[ "personal" := {[ "2024-01-01" := [taskAChanged; taskB] ]} ]}.

(** A downloaded store that holds the id of [taskA] under another date. *)
Definition otherDayCloud : gmap string (gmap string (list Task)) :=
  {[ "personal" := {[ "2024-01-02" := [sampleTask 1 "A" Pending "2024-01-02"] ]} ]}.

(** ** What [renderTasks] draws

    [renderTasks] lists the tasks of the tab, gives the text of each a CSS
    class and puts buttons next to it; a click on a button calls one
    lifecycle method with [this.currentTab] and the id of the task. *)

(** [tasks = this.tasks.pool || []] on the Pool tab,
    [tasks = this.tasks[this.currentTab]?.[dateKey] || []] on the others. *)
Definition renderedTasks (tab : Category) (s : State) : list Task :=
  match tab with
  | Pool => default [] (pool (tasks s))
  | Dated cat => default [] (bucketAt (tasks s) cat (getDateKey s))
  end.

(** The array a lifecycle method looks in when it is given [category]:
    [this.tasks.pool], or [this.tasks[category][this.getDateKey()]]. *)
Definition addressedArray (category : Category) (s : State) : option (list Task) :=
  match category with
  | Pool => pool (tasks s)
  | Dated cat => bucketAt (tasks s) cat (getDateKey s)
  end.

Inductive Button := EditBtn | UncompleteBtn | ProgressBtn | CompleteBtn | DeleteBtn.

(** The buttons of one list item, in the order they are appended: edit
    always; uncomplete for a completed task; otherwise, unless the task is a
    moved stub, progress and complete; delete always.  (The test
    [status === 'pending' || status === 'in-progress'] around the progress
    button holds for every status that is not completed.) *)
Definition buttons (task : Task) : list Button :=
  [EditBtn]
  ++ match status task with
     | Completed => [UncompleteBtn]
     | _ => if moved task then [] else [ProgressBtn; CompleteBtn]
     end
  ++ [DeleteBtn].

(** The call a click leads to.  For the edit button [typed] is what the
    user left in the input box: [finishEdit] trims it and calls [editTask]
    only if the result is not empty and differs from the text shown. *)
Definition click (tab : Category) (task : Task) (b : Button) (typed : string)
  : option Op :=
  match b with
  | EditBtn =>
      let newText := trim typed in
      if truthy newText && negb (bool_decide (newText = text task))
      then Some (OpEditTask tab (id task) newText)
      else None
  | UncompleteBtn => Some (OpUncompleteTask tab (id task))
  | ProgressBtn => Some (OpToggleTaskInProgress tab (id task))
  | CompleteBtn => Some (OpCompleteTask tab (id task))
  | DeleteBtn => Some (OpDeleteTask tab (id task))
  end.

(** ** Invariants of a single task *)


(** [completedDate] is set exactly on the tasks of status completed. *)
Definition completedDateOk (t : Task) : bool :=
  bool_decide (is_Some (completedDate t) ↔ status t = Completed).

(** What one call takes away and what it puts there, by the object
    literals and the field assignments of the methods: [Made now removed
    added] lists the shapes there are, [now] being the value of
    [Date.now()]. *)
Inductive Made (now : Z) : list Task → list Task → Prop :=
  | made_nothing : Made now [] []
  | made_new inputValue originalDate0 :
      truthy (trim inputValue) = true →
      Made now [] [newTask now (trim inputValue) originalDate0]
  | made_completed dateKey t : Made now [t] [markCompleted dateKey t]
  | made_pending t : Made now [t] [markPending t]
  | made_toggled t : Made now [t] [toggleProgress t]
  | made_edited newText t :
      truthy (trim newText) = true → Made now [t] [setText (trim newText) t]
  | made_removed t : Made now [t] []
  | made_copied t : Made now [t] [relocated now t; markMoved t]
  | made_relocated t : Made now [t] [relocated now t]
  | made_scheduled dateKey t : Made now [t] [scheduled now dateKey t]
  | made_pooled t : Made now [t] [pooled now t]
  | made_completedFromPool dateKey t :
      Made now [t] [completedFromPool dateKey t].

(** A property of tasks that every object literal and every field
    assignment of the lifecycle methods keeps. *)
Record KeptByMethods (P : Task → Prop) : Prop := {
  kept_newTask now inputValue originalDate0 :
    truthy (trim inputValue) = true →
    P (newTask now (trim inputValue) originalDate0);
  kept_setText newText t :
    truthy (trim newText) = true → P t → P (setText (trim newText) t);
  kept_markCompleted dateKey t : P t → P (markCompleted dateKey t);
  kept_markPending t : P t → P (markPending t);
  kept_toggleProgress t : P t → P (toggleProgress t);
  kept_markMoved t : P t → P (markMoved t);
  kept_relocated now t : P t → P (relocated now t);
  kept_scheduled now dateKey t : P t → P (scheduled now dateKey t);
  kept_pooled now t : P t → P (pooled now t);
  kept_completedFromPool dateKey t : P t → P (completedFromPool dateKey t)
}.

(** What a method that works on one array leaves as it was: the viewed
    date, the pool unless the pool is that array, and every array of the
    date-keyed categories but that one. *)
Definition elsewhereSame (category : Category) (s s' : State) : Prop :=
  currentDate s' = currentDate s
  ∧ (category ≠ Pool → pool (tasks s') = pool (tasks s))
  ∧ ∀ cat k, (category = Dated cat → k ≠ getDateKey s) →
      bucketAt (tasks s') cat k = bucketAt (tasks s) cat k.

(** ** Drag and drop

    [dragstart] on a list item stores the id of its task and
    [this.currentTab]; the [drop] handlers of the other list items, of the
    previous-day and next-day buttons and of the tab buttons test
    [this.draggedTaskId] (an id of [0] is falsy) and call one method. *)
Inductive Gesture :=
  | Click (b : Button) (typed : string)
  | DropOnTask (targetTaskId : Z) (insertBefore : bool)
  | DropOnDayButton (prevDay : bool)
  | DropOnTab (targetCategory : Category).

Global Instance Button_eq_dec : EqDecision Button.
Proof. solve_decision. Defined.

Global Instance Category_eq_dec : EqDecision Category.
Proof. solve_decision. Defined.

(** The call a gesture on the list item of [task] leads to, on tab [tab]
    in state [s]; [None] when the handler calls nothing. *)
Definition gesture (tz : JSDate.TimeZone) (tab : Category) (task : Task)
    (g : Gesture) (s : State) : option Op :=
  match g with
  | Click b typed =>
      if bool_decide (b ∈ buttons task) then click tab task b typed else None
  | DropOnTask targetTaskId insertBefore =>
      if (id task =? 0) || (id task =? targetTaskId) then None
      else Some (OpReorderTasks tab (id task) targetTaskId insertBefore)
  | DropOnDayButton prevDay =>
      if id task =? 0 then None
      else
        let daysOffset := if prevDay then -1 else 1 in
        match tab with
        | Pool =>
            Some (OpMovePoolTaskToSpecificDate (id task)
                    (JSDate.setDate tz (currentDate s)
                       (JSDate.getDate tz (currentDate s) + daysOffset)))
        | Dated cat => Some (OpMoveTaskToDate cat (id task) daysOffset)
        end
  | DropOnTab targetCategory =>
      if id task =? 0 then None
      else if bool_decide (targetCategory = tab) then None
      else
        match tab, targetCategory with
        | Pool, Dated target => Some (OpMovePoolTaskToDate target (id task))
        | Dated from, Pool => Some (OpMoveTaskToPool from (id task))
        | Dated from, Dated target =>
            Some (OpMoveTaskBetweenCategories from target (id task))
        | Pool, Pool => None
        end
  end.

(** ** More sample data *)

Definition callBob : Task := sampleTask 2000 "Call Bob" InProgress "2024-03-05".
Definition report : Task := sampleTask 3000 "Write report" Pending "2024-03-05".

Definition idea : Task :=
  {| id := 4000; text := "Learn Rocq"; status := Pending; completed := false;
     completedDate := None; moved := false; originalDate := None |}.

(** Three tasks on the viewed day and one in the pool. *)
Definition busyState : State :=
  {| currentDate := noon_2024_03_05;
     tasks := {| personal := Some {[ "2024-03-05" := [milk; callBob; report] ]};
                 work := Some ∅; pool := Some [idea] |} |}.

(** A stored object without [personal], a task in its pool. *)
Definition poolOnlyState : State :=
  {| currentDate := noon_2024_03_05;
     tasks := {| personal := None; work := None; pool := Some [idea] |} |}.



(** ** The class [renderTasks] gives to the text of a task

    The class of a completed task comes from [completedDate === originalDate],
    [completedDate > originalDate] and [completedDate < originalDate].  Two
    strings are compared code unit by code unit; [null] against a string is
    compared as numbers, [null] being [+0] and the string what the host's
    [ToNumber] makes of it, which this development leaves to
    [compareZeroWith]: how [+0] compares with that number, [None] when it is
    [NaN]. *)
Inductive TextClass :=
  | ClsInProgress | ClsCompletedToday | ClsCompletedFuture | ClsCompletedEarly
  | ClsMoved.

Section RenderText.
Variable compareZeroWith : string → option comparison.

(** [a < b] on values that are a string or [null]. *)
Definition jsLess (a b : option string) : bool :=
  match a, b with
  | Some x, Some y => bool_decide (String.compare x y = Lt)
  | None, None => false
  | None, Some y => bool_decide (compareZeroWith y = Some Lt)
  | Some x, None => bool_decide (compareZeroWith x = Some Gt)
  end.

(** [a > b]. *)
Definition jsGreater (a b : option string) : bool := jsLess b a.

Definition textClass (task : Task) : option TextClass :=
  if bool_decide (status task = InProgress) then Some ClsInProgress
  else if completed task || bool_decide (status task = Completed) then
    if bool_decide (completedDate task = originalDate task)
    then Some ClsCompletedToday
    else if jsGreater (completedDate task) (originalDate task)
    then Some ClsCompletedFuture
    else if jsLess (completedDate task) (originalDate task)
    then Some ClsCompletedEarly
    else None
  else if moved task then Some ClsMoved
  else None.
End RenderText.

(** The keys of the [2^k] days from day [a] go up from each day to the
    next, in the order of strings. *)
Fixpoint keysGoUpOn (k : nat) (a : Z) : bool :=
  match k with
  | O => bool_decide (String.compare (JSDate.isoDateOfDay a)
                        (JSDate.isoDateOfDay (a + 1)) = Lt)
  | S k' => keysGoUpOn k' a && keysGoUpOn k' (a + 2 ^ Z.of_nat k')
  end.

(** ** The calendar

    [showCalendar] copies [this.currentDate] into [this.calendarDate];
    [renderCalendar] makes, for each day of the month of
    [this.calendarDate], the cell's
    [new Date(calendarDate.getFullYear(), calendarDate.getMonth(), day)],
    which a click passes to [selectDate]. *)

(** The day number of a date of the proleptic Gregorian calendar, the
    inverse of [JSDate.civilFromDays]. *)
Definition daysFromCivil (y m d : Z) : Z :=
  let y' := if m <=? 2 then y - 1 else y in
  let era := y' / 400 in
  let yoe := y' - era * 400 in
  let mp := if 2 <? m then m - 3 else m + 9 in
  let doy := (153 * mp + 2) / 5 + d - 1 in
  let doe := yoe * 365 + yoe / 4 - yoe / 100 + doy in
  era * 146097 + doe - 719468.

(** [new Date(year, month, day)] for a month of 0..11 (what [getMonth]
    returns): a year of 0..99 stands for 1900..1999; the standard's
    [MakeDay] is the day number of the first of the month plus [day - 1];
    the time within the day is 0 and the result is taken from local time
    to UTC. *)
Definition newDate (tz : JSDate.TimeZone) (year month day : Z) : Z :=
  let yr := if (0 <=? year) && (year <=? 99) then 1900 + year else year in
  JSDate.UTC tz (JSDate.MakeDate (daysFromCivil yr (month + 1) 1 + (day - 1)) 0).

Definition getFullYear (tz : JSDate.TimeZone) (t : Z) : Z :=
  (JSDate.civilFromDays (JSDate.Day (JSDate.LocalTime tz t))).1.1.

(** [getMonth()], 0 for January. *)
Definition getMonth (tz : JSDate.TimeZone) (t : Z) : Z :=
  (JSDate.civilFromDays (JSDate.Day (JSDate.LocalTime tz t))).1.2 - 1.

(** The [dayDate] of the cell of [day]. *)
Definition calendarCellDate (tz : JSDate.TimeZone) (calendarDate day : Z) : Z :=
  newDate tz (getFullYear tz calendarDate) (getMonth tz calendarDate) day.

(** The local day number the cell stands for. *)
Definition calendarCellDay (tz : JSDate.TimeZone) (calendarDate day : Z) : Z :=
  JSDate.Day (JSDate.LocalTime tz (calendarCellDate tz calendarDate day)).

(** A click on the cell of [day] while the calendar shows the month of the
    viewed date. *)
Definition clickCalendarDay (tz : JSDate.TimeZone) (day : Z) (s : State) : Outcome :=
  selectDate (calendarCellDate tz (currentDate s) day) s.

(** On the [2^k] days from day [a], [daysFromCivil] leads from the first
    of the month of a day back to the day. *)
Fixpoint monthStartsOn (k : nat) (a : Z) : bool :=
  match k with
  | O => let '(y, m, d) := JSDate.civilFromDays a in
         bool_decide (daysFromCivil y m 1 + (d - 1) = a) && (100 <=? y)
  | S k' => monthStartsOn k' a && monthStartsOn k' (a + 2 ^ Z.of_nat k')
  end.

(** ** The gist behind the planner: [class GitHubSync]

    The class keeps a token and the id of a gist, both mirrored in
    [localStorage], and talks to the GitHub API with [fetch].  What the
    server answers is not the program's to decide: the server is a state of
    some type with one answering function per request the class sends.  A
    response is taken to have a body of the shape the API documents (an
    array of gists, a gist, or an error object), or no JSON at all.
    [JSON.stringify] and [JSON.parse] on the planner's data are the
    parameters [stringify] and [parse]. *)
Module GitHub.

(** A value, or the message of the [Error] thrown instead. *)
Inductive Result (A : Type) := Ok (a : A) | Err (message : string).
Arguments Ok {A} a.
Arguments Err {A} message.

(** A gist as the API returns it.  [files] maps a file name to the
    [content] of the file object, when it has one. *)
Record Gist := mkGist {
  id : string;
  description : option string;
  files : gmap string (option string)
}.

(** What [await fetch(...)] and then [await response.json()] give: the
    promise of [fetch] rejects; or there is a response with [ok] false and
    a status, whose body is an error object with or without a [message], if
    it is JSON; or a response with [ok] true and its body, if it is JSON. *)
Inductive Reply (A : Type) :=
  | FetchRejected (message : string)
  | HttpFailure (status : Z) (errorData : Result (option string))
  | HttpSuccess (body : Result A).
Arguments FetchRejected {A} message.
Arguments HttpFailure {A} status errorData.
Arguments HttpSuccess {A} body.

(** The requests of the class: the token goes into the [Authorization]
    header, [content] is the text of the file [todo-data.json] in the
    body. *)
Inductive Request :=
  | ListGists (token : string)
  | GetGist (gistId token : string)
  | PatchGist (gistId token content : string)
  | PostGist (token content : string).

Record Api (Server : Type) := mkApi {
  listGists : string → Server → Reply (list Gist) * Server;
  getGist : string → string → Server → Reply Gist * Server;
  patchGist : string → string → string → Server → Reply Gist * Server;
  postGist : string → string → Server → Reply Gist * Server
}.
Arguments listGists {Server} _ _ _.
Arguments getGist {Server} _ _ _ _.
Arguments patchGist {Server} _ _ _ _ _.
Arguments postGist {Server} _ _ _ _.

(** The fields of a [GitHubSync] object. *)
Record Sync := mkSync {
  gistId : option string;
  token : option string
}.

(** [!!x] for a string or [null]. *)
Definition truthyOpt (x : option string) : bool :=
  match x with Some s => truthy s | None => false end.

(** [`HTTP ${response.status}`]. *)
Definition httpStatusMessage (status : Z) : string :=
  "HTTP " +:+ NilZero.string_of_int (Z.to_int status).

Definition isTodoGist (gist : Gist) : bool :=
  bool_decide (description gist = Some "Todo App Data Backup")
  && bool_decide (is_Some (files gist !! "todo-data.json")).

Section Methods.
Context {Server Data : Type}.
Variable api : Api Server.
Variable stringify : Data → string.
Variable parse : string → Result Data.

(** What the methods read and write besides their arguments: the object,
    [localStorage], the server, and, for the theorems, the requests sent so
    far. *)
Record World := mkWorld {
  sync : Sync;
  localStorage : gmap string string;
  server : Server;
  sent : list Request
}.

(** An [async] method body: from a world to a value or a thrown error, and
    the world then. *)
Definition M (A : Type) : Type := World → Result A * World.

Definition ret {A} (a : A) : M A := λ w, (Ok a, w).

Definition throw {A} (message : string) : M A := λ w, (Err message, w).

Definition bind {A B} (m : M A) (f : A → M B) : M B :=
  λ w, match m w with
       | (Ok a, w') => f a w'
       | (Err message, w') => (Err message, w')
       end.

(** [try { m } catch (error) { handler(error.message) }]. *)
Definition tryCatch {A} (m : M A) (handler : string → M A) : M A :=
  λ w, match m w with
       | (Err message, w') => handler message w'
       | r => r
       end.

Notation "'let*' x ':=' m 'in' f" := (bind m (λ x, f))
  (at level 10, x name, m at level 100, f at level 200).

Definition readSync : M Sync := λ w, (Ok (sync w), w).

(** [await fetch(...)], answered by [endpoint]. *)
Definition fetch {A} (request : Request)
    (endpoint : Server → Reply A * Server) : M (Reply A) :=
  λ w, let '(reply, server') := endpoint (server w) in
       (Ok reply,
        {| sync := sync w; localStorage := localStorage w;
           server := server'; sent := sent w ++ [request] |}).

(** [this.gistId = gistId; localStorage.setItem('todoGistId', this.gistId)]. *)
Definition storeGistId (gistId0 : string) : M unit :=
  λ w, (Ok tt,
        {| sync := {| gistId := Some gistId0; token := token (sync w) |};
           localStorage := <["todoGistId" := gistId0]> (localStorage w);
           server := server w; sent := sent w |}).

(** [new GitHubSync()]. *)
Definition constructor (storage : gmap string string) : Sync :=
  {| gistId := storage !! "todoGistId"; token := storage !! "githubToken" |}.

Definition setToken (token0 : string) (w : World) : World :=
  {| sync := {| gistId := gistId (sync w); token := Some token0 |};
     localStorage := <["githubToken" := token0]> (localStorage w);
     server := server w; sent := sent w |}.

Definition clearToken (w : World) : World :=
  {| sync := {| gistId := None; token := None |};
     localStorage := delete "todoGistId" (delete "githubToken" (localStorage w));
     server := server w; sent := sent w |}.

Definition hasToken (w : World) : bool := truthyOpt (token (sync w)).

(** [if (!this.token) throw new Error('GitHub token not set')]; the token
    is what the requests that follow carry. *)
Definition requireToken : M string :=
  λ w, match token (sync w) with
       | Some token0 =>
           if truthy token0 then (Ok token0, w)
           else (Err "GitHub token not set", w)
       | None => (Err "GitHub token not set", w)
       end.

(** [errorData.message || `HTTP ${response.status}`], after
    [await response.json()]. *)
Definition failureMessage (status : Z) (errorData : Result (option string))
  : string :=
  match errorData with
  | Err message => message
  | Ok (Some message) => if truthy message then message else httpStatusMessage status
  | Ok None => httpStatusMessage status
  end.

Definition findExistingGist : M (option string) :=
  let* token0 := requireToken in
  tryCatch
    (let* response := fetch (ListGists token0) (listGists api token0) in
     match response with
     | FetchRejected message => throw message
     | HttpFailure status _ => throw (httpStatusMessage status)
     | HttpSuccess (Err message) => throw message
     | HttpSuccess (Ok gists) =>
         match List.find isTodoGist gists with
         | Some todoGist =>
             let* u := storeGistId (id todoGist) in
             ret (Some (id todoGist))
         | None => ret None
         end
     end)
    (λ _, ret None).

(** [if (!this.gistId) await this.findExistingGist()]. *)
Definition findUnlessKnown : M unit :=
  let* this := readSync in
  if truthyOpt (gistId this) then ret tt
  else let* found := findExistingGist in ret tt.

Definition createOrUpdateGist (data : Data) : M Gist :=
  let* token0 := requireToken in
  let* u := findUnlessKnown in
  let content := stringify data in
  let* this := readSync in
  let* response :=
    match gistId this with
    | Some gistId0 =>
        if truthy gistId0
        then fetch (PatchGist gistId0 token0 content)
               (patchGist api gistId0 token0 content)
        else fetch (PostGist token0 content) (postGist api token0 content)
    | None => fetch (PostGist token0 content) (postGist api token0 content)
    end in
  match response with
  | FetchRejected message => throw message
  | HttpFailure status errorData => throw (failureMessage status errorData)
  | HttpSuccess (Err message) => throw message
  | HttpSuccess (Ok result) =>
      let* this := readSync in
      if truthyOpt (gistId this) then ret result
      else let* u := storeGistId (id result) in ret result
  end.

Definition downloadFromGist : M Data :=
  let* token0 := requireToken in
  let* u := findUnlessKnown in
  let* this := readSync in
  match gistId this with
  | Some gistId0 =>
      if truthy gistId0 then
        let* response := fetch (GetGist gistId0 token0) (getGist api gistId0 token0) in
        match response with
        | FetchRejected message => throw message
        | HttpFailure status errorData => throw (failureMessage status errorData)
        | HttpSuccess (Err message) => throw message
        | HttpSuccess (Ok gist) =>
            match files gist !! "todo-data.json" with
            | Some (Some fileContent) =>
                if truthy fileContent then
                  match parse fileContent with
                  | Ok cloudData => ret cloudData
                  | Err message => throw message
                  end
                else throw "Todo data file not found in gist"
            | _ => throw "Todo data file not found in gist"
            end
        end
      else throw "No todo gist found"
  | None => throw "No todo gist found"
  end.

(** *** The handlers of the planner

    A handler ends with one [showNotification(message, type)]. *)
Inductive NotificationType := Success | Warning | Error | Info.

Definition Notification : Type := string * NotificationType.

(** [message.includes(needle)]. *)
Definition includes (needle message : string) : bool :=
  bool_decide (is_Some (String.index 0 needle message)).

(** [handleUpload()] of the planner with the Pool: [this.tasks] is
    uploaded as it is and stays as it is. *)
Definition handleUpload (tasks0 : Data) : World → Notification * World :=
  λ w,
    if negb (hasToken w) then (("Please set your GitHub token first", Warning), w)
    else
      match createOrUpdateGist tasks0 w with
      | (Ok _, w') => (("Tasks backed up to cloud!", Success), w')
      | (Err message, w') => (("Upload failed: " +:+ message, Error), w')
      end.

(** The download of [handleDownload()], with its notification; [None]
    where [this.tasks] is not assigned. *)
Definition handleDownloadFetch : World → (option Data * Notification) * World :=
  λ w,
    if negb (hasToken w)
    then ((None, ("Please set your GitHub token first", Warning)), w)
    else
      match downloadFromGist w with
      | (Ok cloudData, w') =>
          ((Some cloudData, ("Tasks downloaded from cloud!", Success)), w')
      | (Err message, w') =>
          ((None,
            if includes "No todo gist found" message
            then ("No backup found in cloud", Warning)
            else ("Download failed: " +:+ message, Error)), w')
      end.

(** [s] between double quotes. *)
Definition quoted (s : string) : string :=
  String (Ascii.ascii_of_nat 34) (s +:+ String (Ascii.ascii_of_nat 34) EmptyString).

(** [saveGitHubToken()]; [inputValue] is the content of the input box. *)
Definition saveGitHubToken (inputValue : string) : World → Notification * World :=
  λ w,
    let token0 := trim inputValue in
    if negb (truthy token0)
    then (("Please enter a valid GitHub token", Warning), w)
    else if negb (String.prefix "ghp_" token0)
            && negb (String.prefix "github_pat_" token0)
    then (("Token should start with " +:+ quoted "ghp_" +:+ " or "
           +:+ quoted "github_pat_", Warning), w)
    else (("GitHub token saved successfully", Success), setToken token0 w).

Definition clearGitHubToken : World → Notification * World :=
  λ w, (("GitHub token cleared", Info), clearToken w).
End Methods.

Arguments World : clear implicits.
Arguments M : clear implicits.

(** The object agrees with [localStorage], so that a reload of the page
    ([new GitHubSync()]) gives the object there was. *)
Definition mirrored {Server : Type} (w : World Server) : Prop :=
  sync w = constructor (localStorage w).

(** What a call has done by the time it returns or throws: the token is
    the one there was, the object still agrees with [localStorage] if it
    did, and the requests it sent, in order, are [new]. *)
Definition ranWith {Server : Type} (w w' : World Server) (new : list Request)
  : Prop :=
  token (sync w') = token (sync w)
  ∧ (mirrored w → mirrored w')
  ∧ sent w' = sent w ++ new.

(** The token a request carries, and the content it uploads. *)
Definition requestToken (request : Request) : string :=
  match request with
  | ListGists token0 | GetGist _ token0 | PatchGist _ token0 _
  | PostGist token0 _ => token0
  end.

Definition uploadedContent (request : Request) : option string :=
  match request with
  | PatchGist _ _ content | PostGist _ content => Some content
  | _ => None
  end.

(** *** A server for the examples: the gists of one account, the token
    [ghp_good], a new gist getting the id [g] followed by the number of
    gists there are. *)
Definition sampleToken : string := "ghp_good".

Definition sampleApi : Api (list Gist) :=
  let unauthorized {A} : Reply A := HttpFailure 401 (Ok (Some "Bad credentials")) in
  let notFound {A} : Reply A := HttpFailure 404 (Ok (Some "Not Found")) in
  let todoGist gistId0 content :=
    {| id := gistId0; description := Some "Todo App Data Backup";
       files := {[ "todo-data.json" := Some content ]} |} in
  {| listGists token0 gists :=
       if bool_decide (token0 = sampleToken)
       then (HttpSuccess (Ok gists), gists) else (unauthorized, gists);
     getGist gistId0 token0 gists :=
       if bool_decide (token0 = sampleToken)
       then match List.find (λ gist, bool_decide (id gist = gistId0)) gists with
            | Some gist => (HttpSuccess (Ok gist), gists)
            | None => (notFound, gists)
            end
       else (unauthorized, gists);
     patchGist gistId0 token0 content gists :=
       if bool_decide (token0 = sampleToken)
       then match List.find (λ gist, bool_decide (id gist = gistId0)) gists with
            | Some gist =>
                (HttpSuccess (Ok (todoGist gistId0 content)),
                 (λ gist, if bool_decide (id gist = gistId0)
                          then todoGist gistId0 content else gist) <$> gists)
            | None => (notFound, gists)
            end
       else (unauthorized, gists);
     postGist token0 content gists :=
       if bool_decide (token0 = sampleToken)
       then let gistId0 := "g" +:+ NilZero.string_of_int (Z.to_int (Z.of_nat (length gists))) in
            (HttpSuccess (Ok (todoGist gistId0 content)),
             gists ++ [todoGist gistId0 content])
       else (unauthorized, gists) |}.

(** A browser that has stored the token and nothing else, and an account
    without gists. *)
Definition sampleWorld : World (list Gist) :=
  {| sync := {| gistId := None; token := Some sampleToken |};
     localStorage := {[ "githubToken" := sampleToken ]};
     server := []; sent := [] |}.

(** The same browser with a token GitHub does not accept. *)
Definition badTokenWorld : World (list Gist) :=
  {| sync := {| gistId := None; token := Some "ghp_bad" |};
     localStorage := {[ "githubToken" := "ghp_bad" ]};
     server := []; sent := [] |}.

(** The browser after an upload made the gist [g0], which has since been
    deleted on GitHub. *)
Definition staleWorld : World (list Gist) :=
  {| sync := {| gistId := Some "g0"; token := Some sampleToken |};
     localStorage := {[ "githubToken" := sampleToken; "todoGistId" := "g0" ]};
     server := []; sent := [] |}.
End GitHub.

(** [handleSync()] of [script.js]: the download and the merge are tried,
    and whatever the download throws is dropped; then [this.tasks] is
    uploaded.  The result is [this.tasks] afterwards and the
    notification. *)
Definition handleSync {Server : Type} (api : GitHub.Api Server)
    (stringify : gmap string (gmap string (list Task)) → string)
    (parse : string → GitHub.Result (gmap string (gmap string (list Task))))
    (local : gmap string (gmap string (list Task)))
  : GitHub.World Server
    → (gmap string (gmap string (list Task)) * GitHub.Notification)
      * GitHub.World Server :=
  λ w,
    if negb (GitHub.hasToken w)
    then ((local, ("Please set your GitHub token first", GitHub.Warning)), w)
    else
      let '(merged, w1) :=
        match GitHub.downloadFromGist api parse w with
        | (GitHub.Ok cloudData, w1) => (mergeTaskData cloudData local, w1)
        | (GitHub.Err _, w1) => (local, w1)
        end in
      match GitHub.createOrUpdateGist api stringify merged w1 with
      | (GitHub.Ok _, w2) =>
          ((merged, ("Tasks synced successfully!", GitHub.Success)), w2)
      | (GitHub.Err message, w2) =>
          ((merged, ("Sync failed: " +:+ message, GitHub.Error)), w2)
      end.


(** * The calendar of the host *)

(** A check of every day of [a .. a + 2^k - 1] by halving. *)
Lemma followsCalendarOn_spec k a :
  JSDate.followsCalendarOn k a = true →
  ∀ n, a ≤ n < a + 2 ^ Z.of_nat k →
    JSDate.civilFromDays (n + 1) = JSDate.nextDay (JSDate.civilFromDays n).
Proof.
  revert a. induction k as [|k IH]; intros a; simpl JSDate.followsCalendarOn.
  - intros H n Hn. apply bool_decide_eq_true in H.
    replace n with a by (change (2 ^ Z.of_nat 0) with 1 in Hn; lia). done.
  - intros [H1 H2]%andb_true_iff n Hn.
    rewrite Nat2Z.inj_succ, Z.pow_succ_r in Hn by lia.
    destruct (decide (n < a + 2 ^ Z.of_nat k)).
    + apply (IH a H1). lia.
    + apply (IH _ H2). lia.
Qed.

(** From 1970-01-01 on, for 65536 days (into the year 2149),
    [civilFromDays] steps through the Gregorian calendar day by day. *)
Lemma civilFromDays_follows_calendar :
  JSDate.civilFromDays 0 = (1970, 1, 1)
  ∧ ∀ n, 0 ≤ n < 65536 →
      JSDate.civilFromDays (n + 1) = JSDate.nextDay (JSDate.civilFromDays n).
Proof.
  split; [reflexivity|]. intros n Hn.
  apply (followsCalendarOn_spec 16 0); [vm_compute; reflexivity|].
  change (2 ^ Z.of_nat 16) with 65536. lia.
Qed.

Example isoDateOfDay_leap_day : JSDate.isoDateOfDay 19782 = "2024-02-29".
Proof. reflexivity. Qed.

Example toISODate_before_epoch : JSDate.toISODate (-1) = "1969-12-31".
Proof. reflexivity. Qed.

(** * Facts about the array helpers *)

Section ArrayFacts.
Implicit Types (l : list Task) (t : Task) (taskId : Z) (i : nat).

Lemma findIndex_Some taskId l i :
  findIndex taskId l = Some i →
  ∃ t, l !! i = Some t ∧ id t = taskId.
Proof.
  revert i. induction l as [|a l IH]; intros i; simpl; [done|].
  destruct (Z.eqb_spec (id a) taskId) as [Heq|Hne].
  - intros [= <-]. by exists a.
  - destruct (findIndex taskId l) as [j|] eqn:Hj; simpl; [|done].
    intros [= <-]. by apply IH.
Qed.

Lemma findIndex_None taskId l :
  findIndex taskId l = None ↔ taskId ∉ id <$> l.
Proof.
  induction l as [|a l IH]; simpl.
  - split; [intros _; apply not_elem_of_nil | done].
  - rewrite not_elem_of_cons.
    destruct (Z.eqb_spec (id a) taskId) as [Heq|Hne].
    + split; [done | intros [? _]; congruence].
    + destruct (findIndex taskId l) as [j|]; simpl.
      * split; [done | intros [_ H]; by apply IH in H].
      * split; [intros _; split; [congruence | by apply IH] | done].
Qed.

Lemma findIndex_is_Some taskId l :
  taskId ∈ id <$> l → is_Some (findIndex taskId l).
Proof.
  intros Hin. destruct (findIndex taskId l) eqn:H; [by eexists|].
  by apply findIndex_None in H.
Qed.

Lemma someId_true taskId l : someId taskId l = true ↔ taskId ∈ id <$> l.
Proof.
  unfold someId. induction l as [|a l IH]; simpl.
  - split; [done | by intros ?%elem_of_nil].
  - rewrite orb_true_iff, elem_of_cons, IH, Z.eqb_eq.
    split; (intros [?|?]; [by left | by right]).
Qed.

Lemma someId_false taskId l : someId taskId l = false ↔ taskId ∉ id <$> l.
Proof. rewrite <-someId_true. by destruct (someId taskId l). Qed.

Lemma alter_ids (f : Task → Task) i l :
  (∀ t, id (f t) = id t) → id <$> alter f i l = id <$> l.
Proof.
  intros Hf. revert i.
  induction l as [|a l IH]; intros [|i]; simpl; [done..| |].
  - by rewrite Hf.
  - f_equal. apply IH.
Qed.

Lemma alter_Permutation (f : Task → Task) i l t :
  l !! i = Some t → alter f i l ≡ₚ f t :: delete i l.
Proof.
  revert i. induction l as [|a l IH]; intros [|i]; simpl; try done.
  - by intros [= ->].
  - intros H. rewrite (IH _ H). apply perm_swap.
Qed.

Lemma spliceIn_Permutation i t l : spliceIn i t l ≡ₚ t :: l.
Proof.
  unfold spliceIn. rewrite <-Permutation_middle. by rewrite take_drop.
Qed.

Lemma reorderList_Permutation a b before l l' :
  reorderList a b before l = Some l' → l' ≡ₚ l.
Proof.
  unfold reorderList.
  destruct (findIndex a l) as [i|]; [|done].
  destruct (findIndex b l) as [j|]; [|done].
  case_bool_decide; [done|].
  destruct (l !! i) as [t|] eqn:Hi; [|done].
  intros [= <-]. rewrite spliceIn_Permutation.
  symmetry. by apply delete_Permutation.
Qed.
End ArrayFacts.

(** * The in-progress toggle *)

(** Whatever the other fields, the toggle leaves a completed task with
    [status = completed] and [completed = false]. *)
Lemma toggleProgress_completed t :
  status t = Completed → inSync (toggleProgress t) = false.
Proof. intros H. unfold inSync, toggleProgress. simpl. by rewrite H. Qed.

Lemma toggleProgress_not_completed t :
  status t ≠ Completed → inSync (toggleProgress t) = true.
Proof. intros H. unfold inSync, toggleProgress. simpl. by destruct (status t). Qed.



(** * Facts about the collection *)

Section CollectionFacts.
Implicit Types (m : gmap string (list Task)) (l : list Task) (t : Task).
Implicit Types (c : TaskCollection) (cat : DatedCategory) (k : string).

Lemma categoryTasks_empty : categoryTasks ∅ = [].
Proof. unfold categoryTasks. by rewrite map_to_list_empty. Qed.

Lemma categoryTasks_insert_fresh m k l :
  m !! k = None → categoryTasks (<[k:=l]> m) ≡ₚ l ++ categoryTasks m.
Proof.
  intros H. unfold categoryTasks. by rewrite (map_to_list_insert m k l H).
Qed.

Lemma categoryTasks_lookup m k l :
  m !! k = Some l → categoryTasks m ≡ₚ l ++ categoryTasks (delete k m).
Proof.
  intros H. unfold categoryTasks.
  by rewrite <-(map_to_list_delete m k l H).
Qed.

Lemma categoryTasks_insert m k l :
  categoryTasks (<[k:=l]> m) ≡ₚ l ++ categoryTasks (delete k m).
Proof.
  rewrite <-insert_delete_eq.
  apply categoryTasks_insert_fresh, lookup_delete_eq.
Qed.

(** Replacing the array of a date: what the old and the new array share
    is untouched. *)
Lemma categoryTasks_replace m k l l' removed added restl :
  m !! k = Some l →
  l ≡ₚ removed ++ restl → l' ≡ₚ added ++ restl →
  ∃ rest, categoryTasks m ≡ₚ removed ++ rest
          ∧ categoryTasks (<[k:=l']> m) ≡ₚ added ++ rest.
Proof.
  intros Hk Hl Hl'. exists (restl ++ categoryTasks (delete k m)). split.
  - by rewrite (categoryTasks_lookup _ _ _ Hk), Hl, (assoc_L (++)).
  - by rewrite categoryTasks_insert, Hl', (assoc_L (++)).
Qed.

Lemma categoryTasks_push m k t :
  categoryTasks (<[k := default [] (m !! k) ++ [t]]> m) ≡ₚ t :: categoryTasks m.
Proof.
  destruct (m !! k) as [l|] eqn:Hk; simpl.
  - rewrite categoryTasks_insert, (categoryTasks_lookup _ _ _ Hk).
    rewrite <-(assoc_L (++)). simpl. symmetry. apply Permutation_middle.
  - by rewrite categoryTasks_insert_fresh.
Qed.

Lemma changes_refl c : changes [] [] c c.
Proof. by exists (allTasks c). Qed.

Lemma changes_Permutation c c' : allTasks c' ≡ₚ allTasks c → changes [] [] c c'.
Proof. intros H. by exists (allTasks c). Qed.

Lemma changes_then_add removed added t c c1 c2 :
  changes removed added c c1 → changes [] [t] c1 c2 →
  changes removed (t :: added) c c2.
Proof.
  intros (rest & H1 & H2) (rest' & H3 & H4). exists rest. split; [done|].
  simpl in *. by rewrite H4, <-H3, H2.
Qed.

Lemma changes_setCategory cat m' c removed added :
  (∃ rest, categoryTasks (default ∅ (getCategory cat c)) ≡ₚ removed ++ rest
           ∧ categoryTasks m' ≡ₚ added ++ rest) →
  changes removed added c (setCategory cat m' c).
Proof.
  intros (rest & H1 & H2). unfold changes, allTasks.
  destruct cat; simpl in *.
  - exists (rest ++ categoryTasks (default ∅ (work c)) ++ default [] (pool c)).
    by rewrite H1, H2, !(assoc_L (++)).
  - exists (categoryTasks (default ∅ (personal c)) ++ rest ++ default [] (pool c)).
    rewrite H1, H2. split; solve_Permutation.
Qed.

Lemma changes_setPool l' c removed added :
  (∃ rest, default [] (pool c) ≡ₚ removed ++ rest ∧ l' ≡ₚ added ++ rest) →
  changes removed added c (setPool l' c).
Proof.
  intros (rest & H1 & H2). unfold changes, allTasks. simpl.
  exists (categoryTasks (default ∅ (personal c))
          ++ categoryTasks (default ∅ (work c)) ++ rest).
  rewrite H1, H2. split; solve_Permutation.
Qed.

Lemma changes_setBucket cat c m k l l' removed added restl :
  getCategory cat c = Some m → m !! k = Some l →
  l ≡ₚ removed ++ restl → l' ≡ₚ added ++ restl →
  changes removed added c (setCategory cat (<[k:=l']> m) c).
Proof.
  intros Hm Hk Hl Hl'.
  destruct (categoryTasks_replace m k l l' removed added restl Hk Hl Hl')
    as (rest & ? & ?).
  apply changes_setCategory. exists rest. by rewrite Hm.
Qed.

Lemma changes_pushCreating cat k t c :
  changes [] [t] c (pushCreating cat k t c).
Proof.
  unfold pushCreating. apply changes_setCategory.
  exists (categoryTasks (default ∅ (getCategory cat c))). split; [done|].
  apply categoryTasks_push.
Qed.

Lemma changes_count removed added c c' :
  changes removed added c c' →
  (totalCount c' + length removed = totalCount c + length added)%nat.
Proof.
  intros (rest & H1 & H2). unfold totalCount.
  rewrite H1, H2, !length_app. lia.
Qed.

Lemma changes_uniqueIds removed added c c' :
  changes removed added c c' →
  uniqueIds c →
  NoDup (id <$> added) →
  (∀ t, t ∈ added → id t ∈ id <$> removed ∨ id t ∉ allIds c) →
  uniqueIds c'.
Proof.
  intros (rest & H1 & H2) Hc Hadded Hfresh. unfold uniqueIds, allIds in *.
  rewrite H2, fmap_app. rewrite H1, fmap_app in Hc.
  apply NoDup_app in Hc as (Hrem & Hdisj & Hrest).
  apply NoDup_app. split; [done|]. split; [|done].
  intros x (t & -> & Ht)%list_elem_of_fmap Hx.
  destruct (Hfresh t Ht) as [Hin|Hnew].
  - by apply (Hdisj _ Hin).
  - apply Hnew. rewrite H1, fmap_app. apply elem_of_app. by right.
Qed.
End CollectionFacts.


(** * What each method does to the collection *)

Section MethodEffects.
Implicit Types (m : gmap string (list Task)) (l : list Task) (t : Task).
Implicit Types (c : TaskCollection) (cat : DatedCategory) (s : State).

Lemma viewedBucket_Some cat s m l :
  viewedBucket cat s = Some (m, l) ↔
  getCategory cat (tasks s) = Some m ∧ m !! getDateKey s = Some l.
Proof.
  unfold viewedBucket.
  destruct (getCategory cat (tasks s)) as [m'|]; simpl.
  - destruct (m' !! getDateKey s) as [l'|] eqn:Hl; simpl.
    + split; [by intros [= -> ->] | intros [[= ->] Hl']; congruence].
    + split; [done | intros [[= ->] Hl']; congruence].
  - split; [done | by intros [? _]].
Qed.

Lemma findTask_Some taskId l t :
  findTask taskId l = Some t ↔
  ∃ i, findIndex taskId l = Some i ∧ l !! i = Some t.
Proof.
  unfold findTask. destruct (findIndex taskId l) as [i|]; simpl.
  - split; [by exists i | by intros (j & [= <-] & ?)].
  - split; [done | by intros (j & ? & _)].
Qed.

Lemma findTask_id taskId l t : findTask taskId l = Some t → id t = taskId.
Proof.
  intros (i & Hi & Ht)%findTask_Some.
  apply findIndex_Some in Hi as (t' & Ht' & <-). congruence.
Qed.

Lemma setCategory_twice cat m m' c :
  setCategory cat m' (setCategory cat m c) = setCategory cat m' c.
Proof. by destruct cat. Qed.

Lemma getCategory_setCategory cat m c :
  getCategory cat (setCategory cat m c) = Some m.
Proof. by destruct cat. Qed.

(** Writing one array of the viewed category, then pushing onto an array
    of the same category, as [moveTaskToDate] does. *)
Lemma pushCreating_after_set cat m1 k t c :
  setCategory cat (<[k := default [] (m1 !! k) ++ [t]]> m1) c
  = pushCreating cat k t (setCategory cat m1 c).
Proof.
  unfold pushCreating.
  by rewrite getCategory_setCategory, setCategory_twice.
Qed.

Lemma pushCreating_existing cat m k t c :
  getCategory cat c = Some m →
  setCategory cat (<[k := default [] (m !! k) ++ [t]]> m) c
  = pushCreating cat k t c.
Proof. intros H. unfold pushCreating. by rewrite H. Qed.

Lemma changes_bucket_alter cat c m k l i t (f : Task → Task) :
  getCategory cat c = Some m → m !! k = Some l → l !! i = Some t →
  changes [t] [f t] c (setCategory cat (<[k := alter f i l]> m) c).
Proof.
  intros Hm Hk Hi. eapply (changes_setBucket _ _ _ _ _ _ _ _ (delete i l)); eauto.
  - by apply delete_Permutation.
  - by apply alter_Permutation.
Qed.

Lemma changes_bucket_delete cat c m k l i t :
  getCategory cat c = Some m → m !! k = Some l → l !! i = Some t →
  changes [t] [] c (setCategory cat (<[k := spliceOut i l]> m) c).
Proof.
  intros Hm Hk Hi. eapply (changes_setBucket _ _ _ _ _ _ _ _ (delete i l)); eauto.
  by apply delete_Permutation.
Qed.

Lemma changes_pool_alter c l i t (f : Task → Task) :
  pool c = Some l → l !! i = Some t →
  changes [t] [f t] c (setPool (alter f i l) c).
Proof.
  intros Hp Hi. apply changes_setPool. exists (delete i l). rewrite Hp. split.
  - by apply delete_Permutation.
  - by apply alter_Permutation.
Qed.

Lemma changes_pool_delete c l i t :
  pool c = Some l → l !! i = Some t →
  changes [t] [] c (setPool (spliceOut i l) c).
Proof.
  intros Hp Hi. apply changes_setPool. exists (delete i l). rewrite Hp. split.
  - by apply delete_Permutation.
  - done.
Qed.

Lemma changes_pool_push c t :
  changes [] [t] c (setPool (default [] (pool c) ++ [t]) c).
Proof.
  apply changes_setPool. exists (default [] (pool c)). split; [done|].
  symmetry. apply Permutation_cons_append.
Qed.

(** *** The methods that move a task, when the task is there *)

Lemma moveTaskToDate_found tz now cat taskId daysOffset s m l t :
  viewedBucket cat s = Some (m, l) → findTask taskId l = Some t →
  ∃ s',
    moveTaskToDate tz now cat taskId daysOffset s = Returned s'
    ∧ changes [t] [relocated now t; markMoved t] (tasks s) (tasks s').
Proof.
  intros Hv (i & Hi & Ht)%findTask_Some. unfold moveTaskToDate.
  rewrite Hv, Hi, Ht. apply viewedBucket_Some in Hv as [Hm Hl].
  eexists. split; [done|]. cbn [tasks withTasks].
  rewrite pushCreating_after_set.
  eapply changes_then_add; [|apply changes_pushCreating].
  by apply changes_bucket_alter.
Qed.

Lemma moveTaskBetweenCategories_found now fromCategory toCategory taskId s m l t :
  viewedBucket fromCategory s = Some (m, l) → findTask taskId l = Some t →
  ∃ s',
    moveTaskBetweenCategories now fromCategory toCategory taskId s = Returned s'
    ∧ changes [t] [relocated now t] (tasks s) (tasks s').
Proof.
  intros Hv (i & Hi & Ht)%findTask_Some. unfold moveTaskBetweenCategories.
  rewrite Hv, Hi, Ht. apply viewedBucket_Some in Hv as [Hm Hl].
  eexists. split; [done|]. cbn [tasks withTasks].
  eapply changes_then_add; [|apply changes_pushCreating].
  by apply changes_bucket_delete.
Qed.

Lemma moveTaskToPool_found now fromCategory taskId s m l t :
  viewedBucket fromCategory s = Some (m, l) → findTask taskId l = Some t →
  ∃ s',
    moveTaskToPool now fromCategory taskId s = Returned s'
    ∧ changes [t] [pooled now t] (tasks s) (tasks s').
Proof.
  intros Hv (i & Hi & Ht)%findTask_Some. unfold moveTaskToPool.
  rewrite Hv, Hi, Ht. apply viewedBucket_Some in Hv as [Hm Hl].
  eexists. split; [done|]. cbn [tasks withTasks].
  eapply changes_then_add; [|apply changes_pool_push].
  by apply changes_bucket_delete.
Qed.

Lemma movePoolTaskToDate_found now targetCategory taskId s l t :
  pool (tasks s) = Some l → findTask taskId l = Some t →
  ∃ s',
    movePoolTaskToDate now targetCategory taskId s = Returned s'
    ∧ changes [t] [scheduled now (getDateKey s) t] (tasks s) (tasks s').
Proof.
  intros Hp (i & Hi & Ht)%findTask_Some. unfold movePoolTaskToDate.
  rewrite Hp, Hi, Ht.
  eexists. split; [done|]. cbn [tasks withTasks].
  eapply changes_then_add; [|apply changes_pushCreating].
  by apply changes_pool_delete.
Qed.

Lemma movePoolTaskToSpecificDate_found now taskId targetDate s l t :
  pool (tasks s) = Some l → findTask taskId l = Some t →
  is_Some (personal (tasks s)) →
  ∃ s',
    movePoolTaskToSpecificDate now taskId targetDate s = Returned s'
    ∧ changes [t] [scheduled now (formatDateKey targetDate) t]
        (tasks s) (tasks s').
Proof.
  intros Hp (i & Hi & Ht)%findTask_Some [m Hm].
  unfold movePoolTaskToSpecificDate. rewrite Hp, Hi, Ht.
  cbn [personal setPool]. rewrite Hm.
  eexists. split; [done|]. cbn [tasks withTasks].
  rewrite (pushCreating_existing Personal); [|done].
  eapply changes_then_add; [|apply changes_pushCreating].
  by apply changes_pool_delete.
Qed.

(** The pool task is gone even when the write to [personal] threw. *)
Lemma movePoolTaskToSpecificDate_threw now taskId targetDate s l t :
  pool (tasks s) = Some l → findTask taskId l = Some t →
  personal (tasks s) = None →
  ∃ s',
    movePoolTaskToSpecificDate now taskId targetDate s = Threw s'
    ∧ changes [t] [] (tasks s) (tasks s').
Proof.
  intros Hp (i & Hi & Ht)%findTask_Some Hm.
  unfold movePoolTaskToSpecificDate. rewrite Hp, Hi, Ht. simpl. rewrite Hm.
  eexists. split; [done|]. simpl. by apply changes_pool_delete.
Qed.
(** *** An edit to nothing

    [editTask] with a text that trims to the empty string writes nothing. *)

Lemma setCategory_same cat m c :
  getCategory cat c = Some m → setCategory cat m c = c.
Proof. destruct cat, c; simpl; by intros ->. Qed.

Lemma editTask_empty_text category taskId newText s :
  truthy (trim newText) = false →
  returned (editTask category taskId newText s) = true →
  editTask category taskId newText s = Returned s.
Proof.
  intros Hempty. unfold editTask, mutateTask. rewrite Hempty.
  destruct category as [cat|].
  - destruct (viewedBucket cat s) as [[m l]|] eqn:Hv; [|done].
    destruct (findIndex taskId l) as [i|]; [|done]. intros _.
    apply viewedBucket_Some in Hv as [Hm Hl].
    rewrite list_alter_id by done. rewrite insert_id by done.
    rewrite setCategory_same by done. by destruct s.
  - destruct (pool (tasks s)) as [l|] eqn:Hp; [|done].
    destruct (findIndex taskId l) as [i|]; [|done]. intros _.
    rewrite list_alter_id by done.
    destruct s as [d [p w q]]. simpl in *. by subst q.
Qed.

(** *** Reading one array after a write *)

Lemma getCategory_setCategory_ne cat cat' m c :
  cat' ≠ cat → getCategory cat' (setCategory cat m c) = getCategory cat' c.
Proof. by destruct cat, cat'. Qed.

Lemma bucketAt_insert cat m k l c cat' k' :
  getCategory cat c = Some m →
  bucketAt (setCategory cat (<[k:=l]> m) c) cat' k'
  = if decide (cat' = cat ∧ k' = k) then Some l else bucketAt c cat' k'.
Proof.
  intros Hm. unfold bucketAt. destruct (decide (cat' = cat)) as [->|Hne].
  - rewrite getCategory_setCategory, Hm. simpl.
    destruct (decide (k' = k)) as [->|Hk].
    + rewrite lookup_insert_eq. by rewrite decide_True.
    + rewrite lookup_insert_ne by done. rewrite decide_False; [done|].
      by intros [_ ?].
  - rewrite getCategory_setCategory_ne by done. rewrite decide_False; [done|].
    by intros [? _].
Qed.

Lemma getDateKey_changeDate tz days s :
  getDateKey (finalState (changeDate tz days s))
  = formatDateKey (JSDate.setDate tz (currentDate s)
                     (JSDate.getDate tz (currentDate s) + days)).
Proof. done. Qed.
End MethodEffects.


(** * Every call, summarised *)

Section RunDelta.
Implicit Types (s : State) (now : Z) (op : Op).

Lemma inSync_markCompleted dateKey t : inSync (markCompleted dateKey t) = true.
Proof. done. Qed.

Lemma inSync_markPending t : inSync (markPending t) = true.
Proof. done. Qed.

Lemma inSync_newTask now text0 originalDate0 :
  inSync (newTask now text0 originalDate0) = true.
Proof. done. Qed.

Lemma inSync_completedFromPool dateKey t : inSync (completedFromPool dateKey t) = true.
Proof. done. Qed.

Lemma inSync_pooled now t : inSync (pooled now t) = true.
Proof. unfold inSync, pooled. simpl. by destruct (status t). Qed.

Lemma inSync_markMoved t : inSync (markMoved t) = inSync t.
Proof. done. Qed.

Lemma inSync_relocated now t : inSync (relocated now t) = inSync t.
Proof. done. Qed.

Lemma inSync_scheduled now dateKey t : inSync (scheduled now dateKey t) = inSync t.
Proof. done. Qed.

Lemma inSync_setText newText t : inSync (setText newText t) = inSync t.
Proof. done. Qed.

Lemma summarised_unchanged now op c o :
  tasks (finalState o) = c → summarised now op c o.
Proof.
  intros <-. exists Unchanged, [], [].
  split; [done|]. split; [constructor|]. split; [apply changes_refl|].
  by intros _ _.
Qed.

Local Ltac nothing_changed := by apply summarised_unchanged.

Lemma mutateTask_summarised now op category taskId (f : Task → Task) s :
  mayProduce op true Rewritten = true →
  (∀ t, id (f t) = id t) →
  (∀ t, inSync t = true → (toggles op = true → status t ≠ Completed) →
        inSync (f t) = true) →
  summarised now op (tasks s) (mutateTask category taskId f s).
Proof.
  intros Hop Hf Hsync.
  assert (∀ t,
    Forall (λ t, inSync t = true) [t] →
    (toggles op = true → Forall (λ t, status t ≠ Completed) [t]) →
    Forall (λ t, inSync t = true) [f t]) as Hconj.
  { intros t [Ht _]%Forall_cons Htog. constructor; [|constructor].
    apply Hsync; [done|]. intros Hop'.
    by apply Htog, Forall_cons in Hop' as [? _]. }
  unfold mutateTask. destruct category as [cat|].
  - destruct (viewedBucket cat s) as [[m l]|] eqn:Hv; [|nothing_changed].
    destruct (findIndex taskId l) as [i|] eqn:Hi; [|nothing_changed].
    apply viewedBucket_Some in Hv as [Hm Hl].
    destruct (findIndex_Some _ _ _ Hi) as (t & Ht & _).
    exists Rewritten, [t], [f t]. split; [done|].
    split; [by constructor|]. split; [by apply changes_bucket_alter|].
    apply Hconj.
  - destruct (pool (tasks s)) as [l|] eqn:Hp; [|nothing_changed].
    destruct (findIndex taskId l) as [i|] eqn:Hi; [|nothing_changed].
    destruct (findIndex_Some _ _ _ Hi) as (t & Ht & _).
    exists Rewritten, [t], [f t]. split; [done|].
    split; [by constructor|]. split; [by apply changes_pool_alter|].
    apply Hconj.
Qed.

Lemma completePoolTask_summarised now taskId s :
  summarised now (OpCompleteTask Pool taskId) (tasks s) (completePoolTask taskId s).
Proof.
  unfold completePoolTask.
  destruct (pool (tasks s)) as [l|] eqn:Hp; [|nothing_changed].
  destruct (findIndex taskId l) as [i|] eqn:Hi; [|nothing_changed].
  destruct (l !! i) as [t|] eqn:Ht; [|nothing_changed].
  cbn [personal setPool].
  destruct (personal (tasks s)) as [m|] eqn:Hm.
  - exists Rewritten, [t], [completedFromPool (getDateKey s) t]. split; [done|].
    split; [by constructor|]. split; [|by repeat constructor].
    cbn [finalState tasks withTasks].
    rewrite (pushCreating_existing Personal); [|done].
    eapply changes_then_add; [|apply changes_pushCreating].
    by apply changes_pool_delete.
  - exists Removed, [t], []. split; [done|]. split; [constructor|].
    split; [by apply changes_pool_delete | by intros _ _].
Qed.

Lemma deleteTask_summarised now category taskId s :
  summarised now (OpDeleteTask category taskId) (tasks s)
    (deleteTask category taskId s).
Proof.
  unfold deleteTask. destruct category as [cat|].
  - destruct (viewedBucket cat s) as [[m l]|] eqn:Hv; [|nothing_changed].
    destruct (findIndex taskId l) as [i|] eqn:Hi; [|nothing_changed].
    apply viewedBucket_Some in Hv as [Hm Hl].
    destruct (findIndex_Some _ _ _ Hi) as (t & Ht & _).
    exists Removed, [t], []. split; [done|]. split; [constructor|].
    split; [by apply changes_bucket_delete | by intros _ _].
  - destruct (pool (tasks s)) as [l|] eqn:Hp; [|nothing_changed].
    destruct (findIndex taskId l) as [i|] eqn:Hi; [|nothing_changed].
    destruct (findIndex_Some _ _ _ Hi) as (t & Ht & _).
    exists Removed, [t], []. split; [done|]. split; [constructor|].
    split; [by apply changes_pool_delete | by intros _ _].
Qed.

Lemma reorderTasks_summarised now op category draggedTaskId targetTaskId
    insertBefore s :
  summarised now op (tasks s)
    (reorderTasks category draggedTaskId targetTaskId insertBefore s).
Proof.
  unfold reorderTasks. destruct category as [cat|].
  - destruct (viewedBucket cat s) as [[m l]|] eqn:Hv; [|nothing_changed].
    destruct (reorderList _ _ _ l) as [l'|] eqn:Hr; [|nothing_changed].
    apply viewedBucket_Some in Hv as [Hm Hl].
    apply reorderList_Permutation in Hr.
    exists Unchanged, [], []. split; [done|]. split; [constructor|].
    split; [|by intros _ _].
    by apply (changes_setBucket _ _ _ _ l l' [] [] l).
  - destruct (pool (tasks s)) as [l|] eqn:Hp; [|nothing_changed].
    destruct (reorderList _ _ _ l) as [l'|] eqn:Hr; [|nothing_changed].
    apply reorderList_Permutation in Hr.
    exists Unchanged, [], []. split; [done|]. split; [constructor|].
    split; [|by intros _ _].
    apply changes_setPool. exists l. by rewrite Hp.
Qed.

(** The methods that start from the viewed array of a category. *)
Lemma found_or_not cat taskId s :
  (∃ m l t, viewedBucket cat s = Some (m, l) ∧ findTask taskId l = Some t)
  ∨ viewedBucket cat s = None
  ∨ (∃ m l, viewedBucket cat s = Some (m, l) ∧ findIndex taskId l = None).
Proof.
  destruct (viewedBucket cat s) as [[m l]|] eqn:Hv; [|by right; left].
  destruct (findIndex taskId l) as [i|] eqn:Hi; [|right; right; eauto].
  left. destruct (findIndex_Some _ _ _ Hi) as (t & Ht & _).
  exists m, l, t. split; [done|]. apply findTask_Some. eauto.
Qed.

Lemma pool_found_or_not taskId s :
  (∃ l t, pool (tasks s) = Some l ∧ findTask taskId l = Some t)
  ∨ pool (tasks s) = None
  ∨ (∃ l, pool (tasks s) = Some l ∧ findIndex taskId l = None).
Proof.
  destruct (pool (tasks s)) as [l|] eqn:Hp; [|by right; left].
  destruct (findIndex taskId l) as [i|] eqn:Hi; [|right; right; eauto].
  left. destruct (findIndex_Some _ _ _ Hi) as (t & Ht & _).
  exists l, t. split; [done|]. apply findTask_Some. eauto.
Qed.

Lemma download_or_not op :
  (∃ cloudData, op = OpHandleDownload (Some cloudData))
  ∨ (∀ cloudData, op ≠ OpHandleDownload (Some cloudData)).
Proof.
  destruct op as [| | | | | | | | | | | | | | |[cloudData|]];
    try (by right); by left; exists cloudData.
Qed.

Lemma run_summarised tz now op s :
  (∀ cloudData, op ≠ OpHandleDownload (Some cloudData)) →
  summarised now op (tasks s) (run tz now op s).
Proof.
  intros Hop. destruct op; cbn [run].
  - unfold addTask. destruct (negb _); [nothing_changed|].
    eexists Added, [], [newTask now _ _]. split; [done|].
    split; [by constructor|]. split; [apply changes_pushCreating|].
    by repeat constructor.
  - unfold addPoolTask. destruct (negb _); [nothing_changed|].
    eexists Added, [], [newTask now _ _]. split; [done|].
    split; [by constructor|]. split; [apply changes_pool_push|].
    by repeat constructor.
  - destruct category; [by apply mutateTask_summarised|].
    apply completePoolTask_summarised.
  - by apply mutateTask_summarised.
  - apply mutateTask_summarised; [done..|].
    intros t _ Hst. apply toggleProgress_not_completed. by apply Hst.
  - apply mutateTask_summarised; [done| |].
    + intros t. by destruct (truthy _).
    + intros t Ht _. by destruct (truthy _).
  - destruct (found_or_not category taskId s)
      as [(m & l & t & Hv & Ht)|[Hv|(m & l & Hv & Hi)]].
    + destruct (moveTaskToDate_found tz now _ _ daysOffset _ _ _ _ Hv Ht)
        as (s' & -> & Hch).
      exists Copied, [t], [relocated now t; markMoved t]. split; [done|].
      split; [by constructor|]. split; [done|].
      intros [Hsync _]%Forall_cons _. by repeat constructor.
    + unfold moveTaskToDate. rewrite Hv. nothing_changed.
    + unfold moveTaskToDate. rewrite Hv, Hi. nothing_changed.
  - destruct (found_or_not fromCategory taskId s)
      as [(m & l & t & Hv & Ht)|[Hv|(m & l & Hv & Hi)]].
    + destruct (moveTaskBetweenCategories_found now _ toCategory _ _ _ _ _ Hv Ht)
        as (s' & -> & Hch).
      exists Replaced, [t], [relocated now t]. split; [done|].
      split; [by constructor|]. split; [done|].
      intros [Hsync _]%Forall_cons _. by repeat constructor.
    + unfold moveTaskBetweenCategories. rewrite Hv. nothing_changed.
    + unfold moveTaskBetweenCategories. rewrite Hv, Hi. nothing_changed.
  - destruct (pool_found_or_not taskId s)
      as [(l & t & Hp & Ht)|[Hp|(l & Hp & Hi)]].
    + destruct (movePoolTaskToDate_found now targetCategory _ _ _ _ Hp Ht)
        as (s' & -> & Hch).
      exists Replaced, [t], [scheduled now (getDateKey s) t]. split; [done|].
      split; [by constructor|]. split; [done|].
      intros [Hsync _]%Forall_cons _. by repeat constructor.
    + unfold movePoolTaskToDate. rewrite Hp. nothing_changed.
    + unfold movePoolTaskToDate. rewrite Hp, Hi. nothing_changed.
  - destruct (pool_found_or_not taskId s)
      as [(l & t & Hp & Ht)|[Hp|(l & Hp & Hi)]].
    + destruct (personal (tasks s)) as [m|] eqn:Hm.
      * destruct (movePoolTaskToSpecificDate_found now _ targetDate _ _ _ Hp Ht)
          as (s' & -> & Hch); [by rewrite Hm|].
        exists Replaced, [t], [scheduled now (formatDateKey targetDate) t].
        split; [done|]. split; [by constructor|]. split; [done|].
        intros [Hsync _]%Forall_cons _. by repeat constructor.
      * destruct (movePoolTaskToSpecificDate_threw now _ targetDate _ _ _ Hp Ht Hm)
          as (s' & -> & Hch).
        exists Removed, [t], []. split; [done|]. split; [constructor|].
        split; [done | by intros _ _].
    + unfold movePoolTaskToSpecificDate. rewrite Hp. nothing_changed.
    + unfold movePoolTaskToSpecificDate. rewrite Hp, Hi. nothing_changed.
  - destruct (found_or_not fromCategory taskId s)
      as [(m & l & t & Hv & Ht)|[Hv|(m & l & Hv & Hi)]].
    + destruct (moveTaskToPool_found now _ _ _ _ _ _ Hv Ht)
        as (s' & -> & Hch).
      exists Replaced, [t], [pooled now t]. split; [done|].
      split; [by constructor|]. split; [done|].
      intros _ _. constructor; [apply inSync_pooled | constructor].
    + unfold moveTaskToPool. rewrite Hv. nothing_changed.
    + unfold moveTaskToPool. rewrite Hv, Hi. nothing_changed.
  - apply deleteTask_summarised.
  - apply reorderTasks_summarised.
  - nothing_changed.
  - nothing_changed.
  - destruct download as [cloudData|]; [by destruct (Hop cloudData)|].
    nothing_changed.
Qed.

Lemma mayProduce_mints op didReturn k :
  mayProduce op didReturn k = true →
  k = Added ∨ k = Replaced ∨ k = Copied → mintsId op = true.
Proof. intros H [->|[->| ->]]; by destruct op. Qed.

Lemma mayProduce_same_count op k :
  mayProduce op true k = true → changesCount op = false →
  k = Unchanged ∨ k = Rewritten ∨ k = Replaced.
Proof.
  destruct k; [by left | by right; left | | | by right; right |];
    by destruct op as [| |[]| | | | | | | | | | | | |].
Qed.

Lemma Delta_uniqueIds now k removed added c c' :
  Delta now k removed added → changes removed added c c' →
  uniqueIds c → (k = Added ∨ k = Replaced ∨ k = Copied → now ∉ allIds c) →
  uniqueIds c'.
Proof.
  intros HD Hch Hc Hnow.
  assert (∀ t, t ∈ removed → id t ∈ allIds c) as Hsub.
  { destruct Hch as (rest & H1 & _). intros t Ht. unfold allIds.
    rewrite H1, fmap_app. apply elem_of_app. left.
    by apply list_elem_of_fmap_2. }
  eapply changes_uniqueIds; [done..| |].
  - destruct HD; simpl; try apply NoDup_nil_2; try apply NoDup_singleton.
    apply NoDup_cons. split; [|apply NoDup_singleton].
    rewrite list_elem_of_singleton. intros Heq.
    apply Hnow; [eauto|]. subst now. rewrite Heq. apply Hsub. by left.
  - intros x Hx. destruct HD; simpl in *.
    + by apply elem_of_nil in Hx.
    + apply list_elem_of_singleton in Hx as ->. left. rewrite H. by left.
    + by apply elem_of_nil in Hx.
    + apply list_elem_of_singleton in Hx as ->. right. subst now.
      apply Hnow. eauto.
    + apply list_elem_of_singleton in Hx as ->. right. subst now.
      apply Hnow. eauto.
    + apply elem_of_cons in Hx as [->|Hx].
      * right. subst now. apply Hnow. eauto.
      * apply list_elem_of_singleton in Hx as ->. left. by left.
Qed.

Lemma Delta_count now k removed added c c' :
  Delta now k removed added → changes removed added c c' →
  totalCount c' =
    match k with
    | Unchanged | Rewritten | Replaced => totalCount c
    | Added | Copied => S (totalCount c)
    | Removed => pred (totalCount c)
    end.
Proof.
  intros HD Hch%changes_count. destruct HD; simpl in *; lia.
Qed.
(** Apart from the toggle of a completed task, and from a pull, no call
    puts [completed] and [status] out of step. *)
Lemma run_inSync tz now op s :
  (∀ cloudData, op ≠ OpHandleDownload (Some cloudData)) →
  Forall (λ t, inSync t = true) (allTasks (tasks s)) →
  (toggles op = true → Forall (λ t, status t ≠ Completed) (allTasks (tasks s))) →
  Forall (λ t, inSync t = true) (allTasks (tasks (finalState (run tz now op s)))).
Proof.
  intros Hop Hall Htog.
  destruct (run_summarised tz now op s Hop)
    as (k & removed & added & _ & _ & (rest & H1 & H2) & Hsync).
  rewrite H2. rewrite H1 in Hall. apply Forall_app in Hall as [Hrem Hrest].
  apply Forall_app. split; [|done]. apply Hsync; [done|].
  intros Hop'. specialize (Htog Hop'). rewrite H1 in Htog.
  by apply Forall_app in Htog as [? _].
Qed.
End RunDelta.


(** * The merge *)

Section MergeFacts.
Implicit Types (l r : list Task) (t : Task).
Implicit Types (cloud local : gmap string (gmap string (list Task))).

Lemma pushMissing_cons l cloudTask r :
  pushMissing l (cloudTask :: r)
  = pushMissing (if someId (id cloudTask) l then l else l ++ [cloudTask]) r.
Proof. done. Qed.

(** The local array is a prefix of the merged one; what follows it are
    cloud tasks whose ids the local array lacks, each id once. *)
Lemma pushMissing_prefix l r :
  ∃ extra,
    pushMissing l r = l ++ extra
    ∧ (∀ t, t ∈ extra → t ∈ r ∧ id t ∉ id <$> l)
    ∧ NoDup (id <$> extra).
Proof.
  revert l. induction r as [|c r IH]; intros l.
  - exists []. split; [by rewrite (right_id_L [] (++))|].
    split; [by intros t ?%elem_of_nil | constructor].
  - rewrite pushMissing_cons. destruct (someId (id c) l) eqn:Hc.
    + destruct (IH l) as (extra & Heq & Hin & Hnd). exists extra.
      split; [done|]. split; [|done].
      intros t Ht. destruct (Hin t Ht). split; [by right | done].
    + destruct (IH (l ++ [c])) as (extra & Heq & Hin & Hnd).
      exists (c :: extra). split; [by rewrite Heq, <-(assoc_L (++))|].
      apply someId_false in Hc. split.
      * intros t [->|Ht]%elem_of_cons; [split; [by left | done]|].
        destruct (Hin t Ht) as [? Hnot]. split; [by right|].
        intros Hl. apply Hnot. rewrite fmap_app. apply elem_of_app. by left.
      * simpl. constructor; [|done].
        intros (t & Hid & Ht)%list_elem_of_fmap.
        destruct (Hin t Ht) as [_ Hnot]. apply Hnot.
        rewrite fmap_app, <-Hid. apply elem_of_app. right. by left.
Qed.

Lemma pushMissing_covers l r t :
  t ∈ r → id t ∈ id <$> pushMissing l r.
Proof.
  revert l. induction r as [|c r IH]; intros l; [by intros ?%elem_of_nil|].
  rewrite pushMissing_cons. intros [->|Ht]%elem_of_cons; [|by apply IH].
  destruct (pushMissing_prefix (if someId (id c) l then l else l ++ [c]) r)
    as (extra & -> & _).
  rewrite fmap_app. apply elem_of_app. left.
  destruct (someId (id c) l) eqn:Hc; [by apply someId_true|].
  rewrite fmap_app. apply elem_of_app. right. by left.
Qed.

Lemma pushMissing_present l r :
  (∀ t, t ∈ r → id t ∈ id <$> l) → pushMissing l r = l.
Proof.
  induction r as [|c r IH]; intros Hall; [done|].
  rewrite pushMissing_cons.
  assert (someId (id c) l = true) as ->.
  { apply someId_true, Hall. by left. }
  apply IH. intros t Ht. apply Hall. by right.
Qed.

Lemma pushMissing_idem l r : pushMissing (pushMissing l r) r = pushMissing l r.
Proof. apply pushMissing_present. intros t. apply pushMissing_covers. Qed.

Lemma pushMissing_self r : pushMissing r r = r.
Proof. apply pushMissing_present. intros t. apply list_elem_of_fmap_2. Qed.

Lemma mergeBucket_idem lo co :
  mergeBucket (mergeBucket lo co) co = mergeBucket lo co.
Proof.
  destruct co as [r|]; [|done]. destruct lo as [l|]; simpl.
  - by rewrite pushMissing_idem.
  - by rewrite pushMissing_self.
Qed.

(** The loop over the dates of one category, date by date. *)
Lemma mergeDates_lookup (cloudDates localDates : gmap string (list Task)) date :
  map_fold mergeDate localDates cloudDates !! date
  = mergeBucket (localDates !! date) (cloudDates !! date).
Proof.
  revert date.
  apply (map_fold_weak_ind
    (λ acc (visited : gmap string (list Task)), ∀ date,
       acc !! date = mergeBucket (localDates !! date) (visited !! date))).
  - intros date. by rewrite lookup_empty.
  - intros d cloudTasks visited acc Hfresh IH date. unfold mergeDate.
    destruct (decide (d = date)) as [<-|Hne].
    + rewrite lookup_insert_eq. rewrite (IH d), Hfresh. simpl.
      destruct (localDates !! d); simpl; by rewrite lookup_insert_eq.
    + rewrite (lookup_insert_ne _ d date) by done.
      destruct (acc !! d); by rewrite lookup_insert_ne.
Qed.

(** The loop over the categories, category by category. *)
Lemma mergeTaskData_lookup cloud local category :
  mergeTaskData cloud local !! category
  = match cloud !! category with
    | None => local !! category
    | Some cloudDates =>
        Some (map_fold mergeDate (default ∅ (local !! category)) cloudDates)
    end.
Proof.
  revert category. unfold mergeTaskData.
  apply (map_fold_weak_ind
    (λ acc (visited : gmap string (gmap string (list Task))), ∀ category,
       acc !! category
       = match visited !! category with
         | None => local !! category
         | Some cloudDates =>
             Some (map_fold mergeDate (default ∅ (local !! category)) cloudDates)
         end)).
  - intros category. by rewrite lookup_empty.
  - intros k cloudDates visited acc Hfresh IH category. unfold mergeCategory.
    destruct (decide (k = category)) as [<-|Hne].
    + rewrite !lookup_insert_eq. by rewrite (IH k), Hfresh.
    + rewrite !lookup_insert_ne by done. apply IH.
Qed.

Lemma mergeTaskData_bucket cloud local category date :
  bucketOf (mergeTaskData cloud local) category date
  = mergeBucket (bucketOf local category date) (bucketOf cloud category date).
Proof.
  unfold bucketOf. rewrite mergeTaskData_lookup.
  destruct (cloud !! category) as [cloudDates|]; simpl; [|done].
  rewrite mergeDates_lookup. by destruct (local !! category).
Qed.

(** Where a task of a merged array comes from. *)
Lemma merged_task_origin cloud local category date x t :
  bucketOf (mergeTaskData cloud local) category date = Some x → t ∈ x →
  (∃ l, bucketOf local category date = Some l ∧ t ∈ l)
  ∨ (∃ r, bucketOf cloud category date = Some r ∧ t ∈ r).
Proof.
  rewrite mergeTaskData_bucket. unfold mergeBucket.
  destruct (bucketOf cloud category date) as [r|];
    destruct (bucketOf local category date) as [l|]; intros [= <-] Ht; eauto.
  destruct (pushMissing_prefix l r) as (extra & Heq & Hin & _).
  rewrite Heq in Ht. apply elem_of_app in Ht as [Ht|Ht]; [eauto|].
  right. exists r. split; [done|]. by apply Hin.
Qed.

Lemma mergeTaskData_uniqueStore cloud local :
  uniqueStore local → uniqueStore cloud → sharedIdsAligned cloud local →
  uniqueStore (mergeTaskData cloud local).
Proof.
  intros [Hl1 Hl2] [Hc1 Hc2] Hshared. split.
  - intros category date x. rewrite mergeTaskData_bucket. unfold mergeBucket.
    destruct (bucketOf cloud category date) as [r|] eqn:Hr;
      destruct (bucketOf local category date) as [l|] eqn:Hl;
      intros [= <-]; eauto.
    destruct (pushMissing_prefix l r) as (extra & -> & Hin & Hnd).
    rewrite fmap_app. apply NoDup_app. split; [eauto|]. split; [|done].
    intros i Hi (t & -> & Ht)%list_elem_of_fmap.
    by destruct (Hin t Ht) as [_ Hnot].
  - intros c1 d1 x1 c2 d2 x2 t1 t2 Hx1 Hx2 Ht1 Ht2 Hid.
    destruct (merged_task_origin _ _ _ _ _ _ Hx1 Ht1) as [(l1 & ? & ?)|(r1 & ? & ?)];
      destruct (merged_task_origin _ _ _ _ _ _ Hx2 Ht2) as [(l2 & ? & ?)|(r2 & ? & ?)].
    + eauto.
    + eauto.
    + symmetry. eapply Hshared; eauto.
    + eauto.
Qed.
Lemma mergeTaskData_inSync cloud local :
  (∀ category date l, bucketOf local category date = Some l →
                      Forall (λ t, inSync t = true) l) →
  (∀ category date r, bucketOf cloud category date = Some r →
                      Forall (λ t, inSync t = true) r) →
  ∀ category date x,
    bucketOf (mergeTaskData cloud local) category date = Some x →
    Forall (λ t, inSync t = true) x.
Proof.
  intros Hl Hc category date x Hx. apply Forall_forall. intros t Ht.
  destruct (merged_task_origin _ _ _ _ _ _ Hx Ht) as [(l & Hb & Hin)|(r & Hb & Hin)].
  - by apply (proj1 (Forall_forall _ _) (Hl _ _ _ Hb)).
  - by apply (proj1 (Forall_forall _ _) (Hc _ _ _ Hb)).
Qed.
End MergeFacts.


(** * The pool *)

Section PoolFacts.
Implicit Types (s : State) (c : TaskCollection) (l : list Task).

Lemma pool_setCategory cat m c : pool (setCategory cat m c) = pool c.
Proof. by destruct cat. Qed.

Lemma pool_pushCreating cat k t c : pool (pushCreating cat k t c) = pool c.
Proof. apply pool_setCategory. Qed.

Lemma poolInvariant_same c c' :
  pool c' = pool c → poolInvariant c → poolInvariant c'.
Proof. unfold poolInvariant. by intros ->. Qed.

Lemma poolInvariant_Some c l :
  pool c = Some l → poolInvariant c ↔ Forall (λ t, poolTaskOk t = true) l.
Proof. unfold poolInvariant. by intros ->. Qed.

Lemma poolTaskOk_markPending t : poolTaskOk t = true → poolTaskOk (markPending t) = true.
Proof.
  unfold poolTaskOk. simpl. rewrite !andb_true_iff. by intros [-> _].
Qed.

Lemma poolTaskOk_toggleProgress t :
  poolTaskOk t = true → poolTaskOk (toggleProgress t) = true.
Proof.
  unfold poolTaskOk. simpl. rewrite !andb_true_iff. intros [-> H].
  split; [done|]. by destruct (status t).
Qed.

Lemma poolTaskOk_edit newText t :
  poolTaskOk t = true →
  poolTaskOk (if truthy (trim newText) then setText (trim newText) t else t) = true.
Proof. by destruct (truthy _). Qed.

Lemma mutateTask_poolInvariant category taskId (f : Task → Task) s :
  (category = Pool → ∀ t, poolTaskOk t = true → poolTaskOk (f t) = true) →
  poolInvariant (tasks s) →
  poolInvariant (tasks (finalState (mutateTask category taskId f s))).
Proof.
  intros Hf Hinv. unfold mutateTask. destruct category as [cat|].
  - destruct (viewedBucket cat s) as [[m l]|]; [|done].
    destruct (findIndex taskId l); [|done].
    eapply poolInvariant_same; [|done]. apply pool_setCategory.
  - destruct (pool (tasks s)) as [l|] eqn:Hp; [|done].
    destruct (findIndex taskId l) as [i|]; [|done].
    apply (poolInvariant_Some _ _ Hp) in Hinv.
    unfold poolInvariant. simpl. apply Forall_alter; [done|].
    intros t _. by apply Hf.
Qed.

Lemma reorderTasks_poolInvariant category a b before s :
  poolInvariant (tasks s) →
  poolInvariant (tasks (finalState (reorderTasks category a b before s))).
Proof.
  intros Hinv. unfold reorderTasks. destruct category as [cat|].
  - destruct (viewedBucket cat s) as [[m l]|]; [|done].
    destruct (reorderList _ _ _ l); [|done].
    eapply poolInvariant_same; [|done]. apply pool_setCategory.
  - destruct (pool (tasks s)) as [l|] eqn:Hp; [|done].
    destruct (reorderList _ _ _ l) as [l'|] eqn:Hr; [|done].
    apply (poolInvariant_Some _ _ Hp) in Hinv.
    unfold poolInvariant. simpl.
    by rewrite (reorderList_Permutation _ _ _ _ _ Hr).
Qed.

(** A task leaves the pool: [movePoolTaskToDate], [completePoolTask],
    [movePoolTaskToSpecificDate], [deleteTask]. *)
Lemma poolInvariant_spliced c c' l i :
  pool c = Some l → pool c' = Some (spliceOut i l) →
  poolInvariant c → poolInvariant c'.
Proof.
  intros Hp Hp' Hinv. apply (poolInvariant_Some _ _ Hp) in Hinv.
  apply (poolInvariant_Some _ _ Hp'). by apply Forall_delete.
Qed.

Lemma run_poolInvariant tz now op s :
  (∀ cloudData, op ≠ OpHandleDownload (Some cloudData)) →
  poolInvariant (tasks s) →
  poolInvariant (tasks (finalState (run tz now op s))).
Proof.
  intros Hop Hinv. destruct op; cbn [run].
  - unfold addTask. destruct (negb _); [done|].
    eapply poolInvariant_same; [|done]. apply pool_pushCreating.
  - unfold addPoolTask. destruct (negb _); [done|].
    unfold poolInvariant in *. simpl. apply Forall_app. split; [done|].
    by repeat constructor.
  - destruct category as [cat|]; [by apply mutateTask_poolInvariant|].
    unfold completeTask, completePoolTask.
    destruct (pool (tasks s)) as [l|] eqn:Hp; [|done].
    destruct (findIndex taskId l) as [i|]; [|done].
    destruct (l !! i); [|done]. cbn [personal setPool].
    destruct (personal (tasks s));
      by eapply (poolInvariant_spliced _ _ _ _ Hp).
  - apply mutateTask_poolInvariant; [intros _; apply poolTaskOk_markPending | done].
  - apply mutateTask_poolInvariant; [intros _; apply poolTaskOk_toggleProgress | done].
  - apply mutateTask_poolInvariant; [intros _; apply poolTaskOk_edit | done].
  - unfold moveTaskToDate.
    destruct (viewedBucket category s) as [[m l]|]; [|done].
    destruct (findIndex taskId l) as [i|]; [|done].
    destruct (l !! i); [|done].
    eapply poolInvariant_same; [|done]. apply pool_setCategory.
  - unfold moveTaskBetweenCategories.
    destruct (viewedBucket fromCategory s) as [[m l]|]; [|done].
    destruct (findIndex taskId l) as [i|]; [|done].
    destruct (l !! i); [|done].
    eapply poolInvariant_same; [|done]. cbn [finalState tasks withTasks].
    by rewrite pool_pushCreating, pool_setCategory.
  - unfold movePoolTaskToDate.
    destruct (pool (tasks s)) as [l|] eqn:Hp; [|done].
    destruct (findIndex taskId l) as [i|]; [|done].
    destruct (l !! i); [|done].
    eapply (poolInvariant_spliced _ _ _ _ Hp); [|done].
    cbn [finalState tasks withTasks]. by rewrite pool_pushCreating.
  - unfold movePoolTaskToSpecificDate.
    destruct (pool (tasks s)) as [l|] eqn:Hp; [|done].
    destruct (findIndex taskId l) as [i|]; [|done].
    destruct (l !! i); [|done]. cbn [personal setPool].
    destruct (personal (tasks s));
      by eapply (poolInvariant_spliced _ _ _ _ Hp).
  - unfold moveTaskToPool.
    destruct (viewedBucket fromCategory s) as [[m l]|]; [|done].
    destruct (findIndex taskId l) as [i|]; [|done].
    destruct (l !! i) as [t|]; [|done].
    unfold poolInvariant in *. cbn [finalState tasks withTasks setPool pool].
    rewrite pool_setCategory. apply Forall_app. split; [done|].
    repeat constructor. unfold poolTaskOk. simpl. by destruct (status t).
  - unfold deleteTask. destruct category as [cat|].
    + destruct (viewedBucket cat s) as [[m l]|]; [|done].
      destruct (findIndex taskId l); [|done].
      eapply poolInvariant_same; [|done]. apply pool_setCategory.
    + destruct (pool (tasks s)) as [l|] eqn:Hp; [|done].
      destruct (findIndex taskId l) as [i|]; [|done].
      by eapply (poolInvariant_spliced _ _ _ _ Hp).
  - by apply reorderTasks_poolInvariant.
  - done.
  - done.
  - destruct download as [cloudData|]; [by destruct (Hop cloudData)|done].
Qed.
End PoolFacts.


(** * The claims *)

(** ** C1: [completed] and [status] after the in-progress toggle *)

(** C1. [toggleTaskInProgress] on a completed task that satisfies
    [completed == (status == "completed")] returns with the task still
    [status = completed] but [completed = false]: the equality the claim
    says every operation preserves is lost. *)
Theorem toggleTaskInProgress_breaks_sync :
  Forall (λ t, inSync t = true) (allTasks (tasks milkDoneState))
  ∧ ∃ s' t',
      toggleTaskInProgress (Dated Personal) 1000 milkDoneState = Returned s'
      ∧ allTasks (tasks s') = [t']
      ∧ status t' = Completed ∧ completed t' = false ∧ inSync t' = false.
Proof.
  split; [vm_compute; by repeat constructor|].
  eexists _, _. split; [vm_compute; reflexivity|]. by vm_compute.
Qed.

(** ** C2: an operation on a date that has no array *)

(** When the viewed array exists and lacks the id, each method returns
    without a change. *)
Lemma absent_id_is_noop cat s m l taskId :
  viewedBucket cat s = Some (m, l) → findIndex taskId l = None →
  completeTask (Dated cat) taskId s = Returned s
  ∧ uncompleteTask (Dated cat) taskId s = Returned s
  ∧ toggleTaskInProgress (Dated cat) taskId s = Returned s
  ∧ (∀ newText, editTask (Dated cat) taskId newText s = Returned s)
  ∧ (∀ tz now daysOffset, moveTaskToDate tz now cat taskId daysOffset s = Returned s)
  ∧ (∀ now toCategory,
       moveTaskBetweenCategories now cat toCategory taskId s = Returned s)
  ∧ (∀ now, moveTaskToPool now cat taskId s = Returned s)
  ∧ deleteTask (Dated cat) taskId s = Returned s
  ∧ (∀ targetTaskId insertBefore,
       reorderTasks (Dated cat) taskId targetTaskId insertBefore s = Returned s).
Proof.
  intros Hv Hi.
  unfold completeTask, uncompleteTask, toggleTaskInProgress, editTask, mutateTask,
    moveTaskToDate, moveTaskBetweenCategories, moveTaskToPool, deleteTask,
    reorderTasks, reorderList.
  rewrite Hv, Hi. by repeat split.
Qed.

(** C2. When the viewed date has no array in the category (or the category
    is missing), every lifecycle method that is given the category throws:
    the call is not the silent no-op the claim describes.  The state is as
    it was. *)
Theorem missing_bucket_throws cat s taskId :
  viewedBucket cat s = None →
  completeTask (Dated cat) taskId s = Threw s
  ∧ uncompleteTask (Dated cat) taskId s = Threw s
  ∧ toggleTaskInProgress (Dated cat) taskId s = Threw s
  ∧ (∀ newText, editTask (Dated cat) taskId newText s = Threw s)
  ∧ (∀ tz now daysOffset, moveTaskToDate tz now cat taskId daysOffset s = Threw s)
  ∧ (∀ now toCategory,
       moveTaskBetweenCategories now cat toCategory taskId s = Threw s)
  ∧ (∀ now, moveTaskToPool now cat taskId s = Threw s)
  ∧ deleteTask (Dated cat) taskId s = Threw s
  ∧ (∀ targetTaskId insertBefore,
       reorderTasks (Dated cat) taskId targetTaskId insertBefore s = Threw s).
Proof.
  intros Hv.
  unfold completeTask, uncompleteTask, toggleTaskInProgress, editTask, mutateTask,
    moveTaskToDate, moveTaskBetweenCategories, moveTaskToPool, deleteTask,
    reorderTasks.
  rewrite Hv. by repeat split.
Qed.

Lemma missing_bucket_throws_witness :
  viewedBucket Personal emptyState = None
  ∧ completeTask (Dated Personal) 1 emptyState = Threw emptyState
  ∧ deleteTask (Dated Personal) 1 emptyState = Threw emptyState.
Proof.
  assert (viewedBucket Personal emptyState = None) as Hv
    by (vm_compute; reflexivity).
  split; [exact Hv|].
  destruct (missing_bucket_throws Personal emptyState 1 Hv)
    as (Hc & _ & _ & _ & _ & _ & _ & Hd & _).
  split; [exact Hc | exact Hd].
Defined.

(** ** C3: ids stay unique *)

Lemma bucketOf_singleton category date (l : list Task) category' date' l' :
  bucketOf {[ category := {[ date := l ]} ]} category' date' = Some l' →
  category' = category ∧ date' = date ∧ l' = l.
Proof.
  unfold bucketOf. intros H.
  destruct (decide (category = category')) as [<-|Hne].
  - rewrite lookup_singleton_eq in H. simpl in H.
    destruct (decide (date = date')) as [<-|Hne'].
    + rewrite lookup_singleton_eq in H. by injection H.
    + by rewrite lookup_singleton_ne in H.
  - by rewrite lookup_singleton_ne in H.
Qed.

Lemma uniqueStore_singleton category date (l : list Task) :
  NoDup (id <$> l) → uniqueStore {[ category := {[ date := l ]} ]}.
Proof.
  intros Hl. split.
  - by intros c d l' (_ & _ & ->)%bucketOf_singleton.
  - intros c1 d1 l1 c2 d2 l2 t1 t2
      (-> & -> & _)%bucketOf_singleton (-> & -> & _)%bucketOf_singleton. done.
Qed.

Local Ltac by_decision := apply (bool_decide_unpack _); vm_compute; exact I.

(** C3, as stated, fails.  A task added while [Date.now()] still returns
    the id of a task of the collection gets that id; and the merge adopts a
    cloud array under a date the local store lacks although one of its ids
    is held locally under another date.  Ids were unique before both. *)
Lemma duplicate_ids_counterexample :
  (uniqueIds (tasks milkState)
   ∧ ¬ uniqueIds (tasks (finalState (addTask 1000 Personal "Call Bob" milkState))))
  ∧ (uniqueStore scenarioLocal ∧ uniqueStore otherDayCloud
     ∧ ¬ uniqueStore (mergeTaskData otherDayCloud scenarioLocal)).
Proof.
  split; [split|split; [|split]].
  - unfold uniqueIds. by_decision.
  - unfold uniqueIds. intros H.
    assert (allIds (tasks (finalState (addTask 1000 Personal "Call Bob" milkState)))
            = [1000; 1000]) as Hids by (vm_compute; reflexivity).
    rewrite Hids in H. apply NoDup_cons in H as [H _]. apply H. by left.
  - apply uniqueStore_singleton. by_decision.
  - apply uniqueStore_singleton. by_decision.
  - intros [_ H].
    assert (bucketOf (mergeTaskData otherDayCloud scenarioLocal) "personal" "2024-01-01"
            = Some [taskA]) as H1 by (vm_compute; reflexivity).
    assert (bucketOf (mergeTaskData otherDayCloud scenarioLocal) "personal" "2024-01-02"
            = Some [sampleTask 1 "A" Pending "2024-01-02"]) as H2
      by (vm_compute; reflexivity).
    specialize (H _ _ _ _ _ _ taskA (sampleTask 1 "A" Pending "2024-01-02") H1 H2).
    discriminate H; [by left | by left | done].
Qed.

(** C3, amended.  A call leaves the ids unique when the value [Date.now()]
    returns, if the method makes it the id of a new task, is not an id of
    the collection, and, for a pull, when the ids of the downloaded
    collection are unique; that holds whether the call returns or throws.
    The merge of a downloaded store with unique ids into a local store
    with unique ids leaves them unique when every id the two share is in
    the same array of both. *)
Theorem unique_ids_preserved :
  (∀ tz now op s,
     uniqueIds (tasks s) →
     (mintsId op = true → now ∉ allIds (tasks s)) →
     (∀ cloudData, op = OpHandleDownload (Some cloudData) → uniqueIds cloudData) →
     uniqueIds (tasks (finalState (run tz now op s))))
  ∧ (∀ cloud local,
       uniqueStore local → uniqueStore cloud → sharedIdsAligned cloud local →
       uniqueStore (mergeTaskData cloud local)).
Proof.
  split; [|apply mergeTaskData_uniqueStore].
  intros tz now op s Hs Hnow Hdl.
  destruct (download_or_not op) as [[cloudData ->]|Hno].
  - simpl. by apply Hdl.
  - destruct (run_summarised tz now op s Hno)
      as (k & removed & added & Hk & HD & Hch & _).
    eapply Delta_uniqueIds; [done..|].
    intros Hkind. apply Hnow. by eapply mayProduce_mints.
Qed.

Lemma unique_ids_preserved_witness :
  uniqueIds (tasks (finalState
    (run (JSDate.fixedOffset 0) 2000 (OpMoveTaskToDate Personal 1000 1) milkState)))
  ∧ uniqueStore (mergeTaskData scenarioCloud scenarioLocal).
Proof.
  split.
  - apply (proj1 unique_ids_preserved).
    + unfold uniqueIds. by_decision.
    + intros _. by_decision.
    + intros cloudData H. discriminate H.
  - apply (proj2 unique_ids_preserved).
    + apply uniqueStore_singleton. by_decision.
    + apply uniqueStore_singleton. by_decision.
    + intros c1 d1 l1 c2 d2 l2 t1 t2
        (-> & -> & _)%bucketOf_singleton (-> & -> & _)%bucketOf_singleton. done.
Defined.

(** ** C4: the merge keeps the local tasks *)

(** C4. Every local array is a prefix of the merged array at the same
    category and date: no local task is removed, reordered or rewritten, and
    what is appended has ids the local array lacks.  In the scenario of the
    specification the merged array is the local task "A" followed by the
    cloud task "B". *)
Theorem merge_keeps_local_tasks :
  (∀ (cloud local : gmap string (gmap string (list Task))) category date l,
     bucketOf local category date = Some l →
     ∃ extra,
       bucketOf (mergeTaskData cloud local) category date = Some (l ++ extra)
       ∧ ∀ t, t ∈ extra → id t ∉ id <$> l)
  ∧ bucketOf (mergeTaskData scenarioCloud scenarioLocal) "personal" "2024-01-01"
    = Some [taskA; taskB].
Proof.
  split; [|by vm_compute].
  intros cloud local category date l Hl.
  rewrite mergeTaskData_bucket, Hl. unfold mergeBucket.
  destruct (bucketOf cloud category date) as [r|].
  - destruct (pushMissing_prefix l r) as (extra & -> & Hin & _).
    exists extra. split; [done|]. intros t Ht. by destruct (Hin t Ht).
  - exists []. split; [by rewrite (right_id_L [] (++))|].
    by intros t ?%elem_of_nil.
Qed.

Lemma merge_keeps_local_tasks_witness :
  bucketOf scenarioLocal "personal" "2024-01-01" = Some [taskA]
  ∧ ∃ extra,
      bucketOf (mergeTaskData scenarioCloud scenarioLocal) "personal" "2024-01-01"
      = Some ([taskA] ++ extra).
Proof.
  assert (bucketOf scenarioLocal "personal" "2024-01-01" = Some [taskA]) as Hl
    by (vm_compute; reflexivity).
  split; [exact Hl|].
  destruct (proj1 merge_keeps_local_tasks scenarioCloud scenarioLocal
              "personal" "2024-01-01" [taskA] Hl) as (extra & Hm & _).
  by exists extra.
Defined.

(** ** C5: the number of tasks *)

(** C5, as stated, fails for the move to an adjacent date: the origin stays
    and a copy is added, so the collection has one task more. *)
Lemma date_move_adds_a_task :
  ∃ s',
    moveTaskToDate (JSDate.fixedOffset 0) 2000 Personal 1000 1 milkState = Returned s'
    ∧ totalCount (tasks milkState) = 1%nat
    ∧ totalCount (tasks s') = 2%nat.
Proof. eexists. split; [vm_compute; reflexivity|]. by vm_compute. Qed.

(** C5, amended.  When the task is in the array the method looks in, moving
    it between the categories, to the pool, or from the pool (onto a tab, or
    onto a day button while [this.tasks.personal] exists) returns and leaves
    the number of tasks as it was; moving it to an adjacent date returns
    and leaves one task more.  Of the calls that return, only adding,
    deleting, moving to an adjacent date and a pull can change the number. *)
Theorem relocation_counts :
  (∀ now fromCategory toCategory taskId s m l t,
     viewedBucket fromCategory s = Some (m, l) → findTask taskId l = Some t →
     ∃ s', moveTaskBetweenCategories now fromCategory toCategory taskId s = Returned s'
           ∧ totalCount (tasks s') = totalCount (tasks s))
  ∧ (∀ now fromCategory taskId s m l t,
       viewedBucket fromCategory s = Some (m, l) → findTask taskId l = Some t →
       ∃ s', moveTaskToPool now fromCategory taskId s = Returned s'
             ∧ totalCount (tasks s') = totalCount (tasks s))
  ∧ (∀ now targetCategory taskId s l t,
       pool (tasks s) = Some l → findTask taskId l = Some t →
       ∃ s', movePoolTaskToDate now targetCategory taskId s = Returned s'
             ∧ totalCount (tasks s') = totalCount (tasks s))
  ∧ (∀ now taskId targetDate s l t,
       pool (tasks s) = Some l → findTask taskId l = Some t →
       is_Some (personal (tasks s)) →
       ∃ s', movePoolTaskToSpecificDate now taskId targetDate s = Returned s'
             ∧ totalCount (tasks s') = totalCount (tasks s))
  ∧ (∀ tz now category taskId daysOffset s m l t,
       viewedBucket category s = Some (m, l) → findTask taskId l = Some t →
       ∃ s', moveTaskToDate tz now category taskId daysOffset s = Returned s'
             ∧ totalCount (tasks s') = S (totalCount (tasks s)))
  ∧ (∀ tz now op s s',
       changesCount op = false → run tz now op s = Returned s' →
       totalCount (tasks s') = totalCount (tasks s)).
Proof.
  repeat split.
  - intros now fromCategory toCategory taskId s m l t Hv Ht.
    destruct (moveTaskBetweenCategories_found now _ toCategory _ _ _ _ _ Hv Ht)
      as (s' & -> & Hch%changes_count).
    exists s'. split; [done|]. simpl in Hch. lia.
  - intros now fromCategory taskId s m l t Hv Ht.
    destruct (moveTaskToPool_found now _ _ _ _ _ _ Hv Ht)
      as (s' & -> & Hch%changes_count).
    exists s'. split; [done|]. simpl in Hch. lia.
  - intros now targetCategory taskId s l t Hp Ht.
    destruct (movePoolTaskToDate_found now targetCategory _ _ _ _ Hp Ht)
      as (s' & -> & Hch%changes_count).
    exists s'. split; [done|]. simpl in Hch. lia.
  - intros now taskId targetDate s l t Hp Ht Hm.
    destruct (movePoolTaskToSpecificDate_found now _ targetDate _ _ _ Hp Ht Hm)
      as (s' & -> & Hch%changes_count).
    exists s'. split; [done|]. simpl in Hch. lia.
  - intros tz now category taskId daysOffset s m l t Hv Ht.
    destruct (moveTaskToDate_found tz now _ _ daysOffset _ _ _ _ Hv Ht)
      as (s' & -> & Hch%changes_count).
    exists s'. split; [done|]. simpl in Hch. lia.
  - intros tz now op s s' Hop Hrun.
    destruct (run_summarised tz now op s)
      as (k & removed & added & Hk & HD & Hch & _).
    { intros cloudData ->. discriminate Hop. }
    rewrite Hrun in Hk, Hch. simpl in Hk, Hch.
    rewrite (Delta_count _ _ _ _ _ _ HD Hch).
    by destruct (mayProduce_same_count _ _ Hk Hop) as [->|[->| ->]].
Qed.

Lemma relocation_counts_witness :
  ∃ s',
    moveTaskToPool 2000 Personal 1000 milkState = Returned s'
    ∧ totalCount (tasks s') = totalCount (tasks milkState).
Proof.
  destruct relocation_counts as (_ & H & _).
  apply (H 2000 Personal 1000 milkState {[ "2024-03-05" := [milk] ]} [milk] milk).
  - vm_compute. reflexivity.
  - vm_compute. reflexivity.
Defined.

(** ** C6: the move to an adjacent date *)

(** C6, as stated, fails on the id: the copy gets whatever [Date.now()]
    returns, and that can be the id of the task being moved. *)
Lemma date_move_can_reuse_id :
  ∃ s',
    moveTaskToDate (JSDate.fixedOffset 0) 1000 Personal 1000 1 milkState = Returned s'
    ∧ bucketAt (tasks s') Personal "2024-03-05" = Some [markMoved milk]
    ∧ bucketAt (tasks s') Personal "2024-03-06" = Some [relocated 1000 milk]
    ∧ id (relocated 1000 milk) = id milk.
Proof. eexists. split; [vm_compute; reflexivity|]. by vm_compute. Qed.

(** C6, amended.  When the viewed array holds the id, [t] being the first
    task with it, [moveTaskToDate] returns; the task is still at its index,
    now with [moved = true], and the rest of the viewed array is as it was;
    one task is appended to the array of the same category under the key the
    planner has after [changeDate(daysOffset)]: a copy of [t] whose id is the
    value of [Date.now()] (so a different id exactly when that value is not
    the id of [t]), with [moved = false] and the [originalDate] of [t]; no
    other array changes, and the collection has one task more.  The two
    keys can be equal (see [moveTaskToDate_same_bucket_at_dst]); the copy
    then follows the marked task in the viewed array. *)
Theorem moveTaskToDate_keeps_origin tz now category taskId daysOffset s m l i t :
  viewedBucket category s = Some (m, l) →
  findIndex taskId l = Some i → l !! i = Some t →
  let dateKey := getDateKey s in
  let targetDateKey := getDateKey (finalState (changeDate tz daysOffset s)) in
  let copy := relocated now t in
  let marked := alter markMoved i l in
  ∃ s',
    moveTaskToDate tz now category taskId daysOffset s = Returned s'
    ∧ currentDate s' = currentDate s
    ∧ (id copy = now ∧ (now ≠ id t → id copy ≠ id t)
       ∧ moved copy = false ∧ originalDate copy = originalDate t
       ∧ text copy = text t ∧ status copy = status t)
    ∧ (marked !! i = Some (markMoved t)
       ∧ ∀ j, j ≠ i → marked !! j = l !! j)
    ∧ (targetDateKey ≠ dateKey →
       bucketAt (tasks s') category dateKey = Some marked
       ∧ bucketAt (tasks s') category targetDateKey
         = Some (default [] (bucketAt (tasks s) category targetDateKey) ++ [copy]))
    ∧ (targetDateKey = dateKey →
       bucketAt (tasks s') category dateKey = Some (marked ++ [copy]))
    ∧ (∀ cat' k',
         (cat', k') ≠ (category, dateKey) →
         (cat', k') ≠ (category, targetDateKey) →
         bucketAt (tasks s') cat' k' = bucketAt (tasks s) cat' k')
    ∧ pool (tasks s') = pool (tasks s)
    ∧ totalCount (tasks s') = S (totalCount (tasks s)).
Proof.
  intros Hv Hi Ht dateKey targetDateKey copy marked.
  subst targetDateKey. rewrite getDateKey_changeDate.
  destruct (moveTaskToDate_found tz now category taskId daysOffset s m l t Hv)
    as (s0 & Hs0 & Hcount%changes_count).
  { apply findTask_Some. eauto. }
  unfold moveTaskToDate in *. rewrite Hv, Hi, Ht in *.
  apply viewedBucket_Some in Hv as [Hm Hl].
  apply (f_equal finalState) in Hs0. cbn [finalState] in Hs0. subst s0.
  eexists. split; [reflexivity|]. split; [done|].
  split; [by repeat split|].
  split.
  { split; [unfold marked; by rewrite list_lookup_alter_eq, Ht|].
    intros j Hj. by apply list_lookup_alter_ne. }
  cbn [tasks withTasks] in *.
  set (targetDateKey := formatDateKey (JSDate.setDate _ _ _)) in *.
  fold dateKey copy marked in Hcount |- *.
  assert (∀ cat' k',
    bucketAt (setCategory category
      (<[targetDateKey := default [] (<[dateKey := marked]> m !! targetDateKey)
                          ++ [copy]]> (<[dateKey := marked]> m)) (tasks s))
      cat' k'
    = if decide (cat' = category ∧ k' = targetDateKey)
      then Some (default [] (<[dateKey := marked]> m !! targetDateKey) ++ [copy])
      else if decide (cat' = category ∧ k' = dateKey) then Some marked
      else bucketAt (tasks s) cat' k') as Hb.
  { intros cat' k'.
    rewrite <-(setCategory_twice category (<[dateKey := marked]> m)).
    rewrite bucketAt_insert by apply getCategory_setCategory.
    case_decide; [done|]. by rewrite bucketAt_insert. }
  repeat split.
  - rewrite Hb. rewrite decide_False by (intros [_ ?]; congruence).
    by rewrite decide_True.
  - rewrite Hb. rewrite decide_True by done.
    rewrite lookup_insert_ne by done. unfold bucketAt. by rewrite Hm.
  - intros Heq. rewrite Hb. rewrite decide_True by done.
    by rewrite Heq, lookup_insert_eq.
  - intros cat' k' H1 H2. rewrite Hb.
    rewrite decide_False by (intros [-> ->]; done).
    by rewrite decide_False by (intros [-> ->]; done).
  - apply pool_setCategory.
  - cbn [length] in Hcount. lia.
Qed.

Lemma moveTaskToDate_keeps_origin_witness :
  ∃ s',
    moveTaskToDate (JSDate.fixedOffset 0) 2000 Personal 1000 1 milkState = Returned s'
    ∧ bucketAt (tasks s') Personal "2024-03-05" = Some [markMoved milk]
    ∧ bucketAt (tasks s') Personal "2024-03-06" = Some [relocated 2000 milk].
Proof.
  destruct (moveTaskToDate_keeps_origin (JSDate.fixedOffset 0) 2000 Personal 1000 1
              milkState {[ "2024-03-05" := [milk] ]} [milk] 0%nat milk)
    as (s' & Hs' & _ & _ & _ & Hne & _).
  - vm_compute. reflexivity.
  - vm_compute. reflexivity.
  - reflexivity.
  - exists s'. split; [exact Hs'|]. apply Hne. vm_compute. discriminate.
Defined.

(** Where the offset of the zone is fixed, the target key is the key of the
    day [daysOffset] days after the viewed one. *)
Lemma targetDateKey_fixedOffset offset date daysOffset :
  let tz := JSDate.fixedOffset offset in
  formatDateKey (JSDate.setDate tz date (JSDate.getDate tz date + daysOffset))
  = JSDate.isoDateOfDay (JSDate.Day date + daysOffset).
Proof.
  intros tz. unfold formatDateKey, JSDate.toISODate. f_equal.
  unfold JSDate.setDate, JSDate.getDate, JSDate.UTC, JSDate.LocalTime,
    JSDate.MakeDate, JSDate.TimeWithinDay, JSDate.Day, JSDate.msPerDay. simpl.
  set (lt := date + offset).
  replace (lt `div` 86400000 - (JSDate.DateFromTime lt - 1)
           + (JSDate.DateFromTime lt + daysOffset - 1))
    with (lt `div` 86400000 + daysOffset) by lia.
  replace ((lt `div` 86400000 + daysOffset) * 86400000 + lt `mod` 86400000 - offset)
    with (date + daysOffset * 86400000).
  - rewrite Z.div_add by lia. done.
  - pose proof (Z.div_mod lt 86400000). unfold lt in *. lia.
Qed.

(** Where the offset changes the two keys can be equal.  In London, with
    31 March 2024 viewed (summer time starts that night), the next local day
    is 1 April but has the key of 31 March, as [changeDate(1)] would give
    it, and the copy follows the marked task in the one array. *)
Remark moveTaskToDate_same_bucket_at_dst :
  getDateKey londonState = "2024-03-31"
  ∧ JSDate.localCalendarDate JSDate.londonSpring2024
      (JSDate.setDate JSDate.londonSpring2024 (currentDate londonState)
         (JSDate.getDate JSDate.londonSpring2024 (currentDate londonState) + 1))
    = "2024-04-01"
  ∧ ∃ s',
      moveTaskToDate JSDate.londonSpring2024 2000 Personal 1000 1 londonState
      = Returned s'
      ∧ bucketAt (tasks s') Personal "2024-03-31"
        = Some [markMoved (sampleTask 1000 "Buy milk" Pending "2024-03-31");
                sampleTask 2000 "Buy milk" Pending "2024-03-31"]
      ∧ bucketAt (tasks s') Personal "2024-04-01" = None.
Proof.
  split; [vm_compute; reflexivity|]. split; [vm_compute; reflexivity|].
  eexists. split; [vm_compute; reflexivity|]. by vm_compute.
Qed.

(** ** C7: the date key *)

(** C7. The key is the calendar date of the instant at Greenwich, whatever
    the zone of the user: two hours east, the [Date] of local midnight of
    6 March 2024 (what a click on that day in the calendar selects) has the
    key of 5 March, while the date shown to the user is 6 March. *)
Theorem formatDateKey_is_utc :
  (∀ date, formatDateKey date = JSDate.localCalendarDate (JSDate.fixedOffset 0) date)
  ∧ JSDate.localCalendarDate (JSDate.fixedOffset 7200000) localMidnight_2024_03_06_utc2
    = "2024-03-06"
  ∧ formatDateKey localMidnight_2024_03_06_utc2 = "2024-03-05".
Proof.
  split; [|split; vm_compute; reflexivity].
  intros date. unfold formatDateKey, JSDate.toISODate, JSDate.localCalendarDate,
    JSDate.LocalTime. simpl. by rewrite Z.add_0_r.
Qed.

(** ** C8: the tasks of the pool *)

(** C8, as stated, fails for the pull: the downloaded object replaces
    [this.tasks] as it is, and its pool can hold a completed task with an
    [originalDate]. *)
Lemma pull_breaks_pool_invariant :
  poolInvariant (tasks emptyState)
  ∧ ¬ poolInvariant (tasks (finalState (handleDownload (Some staleSnapshot) emptyState))).
Proof.
  split; [by constructor|].
  intros H. apply Forall_cons in H as [H _]. vm_compute in H. discriminate H.
Qed.

(** C8, amended.  Every call other than a pull that replaced the tasks keeps
    every pool task with [originalDate == null] and a status other than
    completed, whether it returns or throws; after a pull the pool is the
    downloaded one, so the property holds exactly when the download has it. *)
Theorem pool_invariant_preserved :
  (∀ tz now op s,
     (∀ cloudData, op ≠ OpHandleDownload (Some cloudData)) →
     poolInvariant (tasks s) →
     poolInvariant (tasks (finalState (run tz now op s))))
  ∧ (∀ tz now cloudData s,
       poolInvariant
         (tasks (finalState (run tz now (OpHandleDownload (Some cloudData)) s)))
       ↔ poolInvariant cloudData).
Proof. split; [apply run_poolInvariant | done]. Qed.

Lemma pool_invariant_preserved_witness :
  poolInvariant (tasks (finalState
    (run (JSDate.fixedOffset 0) 2000 (OpMoveTaskToPool Personal 1000) milkDoneState)))
  ∧ pool (tasks (finalState
      (run (JSDate.fixedOffset 0) 2000 (OpMoveTaskToPool Personal 1000) milkDoneState)))
    = Some [pooled 2000 milkDone].
Proof.
  split; [|vm_compute; reflexivity].
  apply (proj1 pool_invariant_preserved).
  - intros cloudData H. discriminate H.
  - vm_compute. constructor.
Defined.

(** ** C9: merging twice *)

(** C9. Merging the same downloaded store a second time changes nothing:
    category by category and date by date the second pass finds every cloud
    id in the local array, which is either the adopted cloud array or the
    local one with the missing cloud tasks pushed. *)
Theorem mergeTaskData_idempotent (cloud local : gmap string (gmap string (list Task))) :
  mergeTaskData cloud (mergeTaskData cloud local) = mergeTaskData cloud local.
Proof.
  apply map_eq. intros category.
  rewrite (mergeTaskData_lookup cloud (mergeTaskData cloud local)).
  rewrite (mergeTaskData_lookup cloud local).
  destruct (cloud !! category) as [cloudDates|]; [|done].
  simpl. f_equal. apply map_eq. intros date.
  rewrite !mergeDates_lookup. apply mergeBucket_idem.
Qed.

(** ** C10: delete *)

(** C10, as stated, fails: while 6 March is viewed, deleting the id of the
    task stored under 5 March returns without a change, the array of
    5 March still holding the task. *)
Lemma delete_ignores_other_dates :
  bucketAt (tasks nextDayState) Personal "2024-03-05" = Some [milk]
  ∧ getDateKey nextDayState = "2024-03-06"
  ∧ deleteTask (Dated Personal) 1000 nextDayState = Returned nextDayState.
Proof. repeat split; vm_compute; reflexivity. Qed.

(** C10, amended.  [deleteTask] looks only in the array it addresses, the
    one of the category at the viewed date or the pool.  When that array
    holds the id, the call returns with the first task of that id removed
    from it and every other array, and the viewed date, as before; when the
    array exists and lacks the id, the call returns without a change,
    whether or not another array holds the id. *)
Theorem deleteTask_addressed_bucket :
  (∀ cat taskId s m l,
     viewedBucket cat s = Some (m, l) →
     match findIndex taskId l with
     | Some i =>
         ∃ s', deleteTask (Dated cat) taskId s = Returned s'
               ∧ currentDate s' = currentDate s
               ∧ bucketAt (tasks s') cat (getDateKey s) = Some (delete i l)
               ∧ (∀ cat' k', (cat', k') ≠ (cat, getDateKey s) →
                    bucketAt (tasks s') cat' k' = bucketAt (tasks s) cat' k')
               ∧ pool (tasks s') = pool (tasks s)
     | None => deleteTask (Dated cat) taskId s = Returned s
     end)
  ∧ (∀ taskId s l,
       pool (tasks s) = Some l →
       match findIndex taskId l with
       | Some i =>
           ∃ s', deleteTask Pool taskId s = Returned s'
                 ∧ currentDate s' = currentDate s
                 ∧ pool (tasks s') = Some (delete i l)
                 ∧ personal (tasks s') = personal (tasks s)
                 ∧ work (tasks s') = work (tasks s)
       | None => deleteTask Pool taskId s = Returned s
       end).
Proof.
  split.
  - intros cat taskId s m l Hv. unfold deleteTask. rewrite Hv.
    destruct (findIndex taskId l) as [i|]; [|done].
    apply viewedBucket_Some in Hv as [Hm Hl].
    eexists. split; [done|]. split; [done|]. cbn [tasks withTasks].
    split; [|split].
    + rewrite bucketAt_insert by done. by rewrite decide_True.
    + intros cat' k' Hne. rewrite bucketAt_insert by done.
      rewrite decide_False; [done|]. intros [-> ->]. by apply Hne.
    + apply pool_setCategory.
  - intros taskId s l Hp. unfold deleteTask. rewrite Hp.
    destruct (findIndex taskId l) as [i|]; [|done].
    eexists. by repeat split.
Qed.

Lemma deleteTask_addressed_bucket_witness :
  ∃ s', deleteTask (Dated Personal) 1000 milkState = Returned s'
        ∧ bucketAt (tasks s') Personal "2024-03-05" = Some [].
Proof.
  pose proof (proj1 deleteTask_addressed_bucket Personal 1000 milkState
                {[ "2024-03-05" := [milk] ]} [milk]) as H.
  assert (viewedBucket Personal milkState
          = Some ({[ "2024-03-05" := [milk] ]}, [milk])) as Hv
    by (vm_compute; reflexivity).
  specialize (H Hv).
  change (findIndex 1000 [milk]) with (Some 0%nat) in H.
  destruct H as (s' & Hs' & _ & Hb & _).
  exists s'. split; [exact Hs'|]. exact Hb.
Defined.

(** * Reordering by drag and drop *)

Section Reorder.
Implicit Types (l : list Task) (t : Task) (s : State).

Lemma findIndex_findTask taskId l t :
  findTask taskId l = Some t →
  ∃ i, findIndex taskId l = Some i ∧ l !! i = Some t ∧ id t = taskId.
Proof.
  intros H. pose proof (findTask_id _ _ _ H) as Hid.
  apply findTask_Some in H as (i & Hi & Ht). by exists i.
Qed.

(** After the dragged task is spliced out, the target sits at
    [newTargetIndex]. *)
Lemma target_after_spliceOut l i j tg :
  i ≠ j → l !! j = Some tg →
  spliceOut i l !! (if (i <? j)%nat then pred j else j) = Some tg.
Proof.
  intros Hne Hj. unfold spliceOut.
  destruct (Nat.ltb_spec i j) as [Hlt|Hge].
  - rewrite list_lookup_delete_ge by lia.
    by replace (S (pred j)) with j by lia.
  - rewrite list_lookup_delete_lt by lia. done.
Qed.

Lemma spliceIn_before l1 l2 d tg :
  spliceIn (length l1) d (l1 ++ tg :: l2) = l1 ++ d :: tg :: l2.
Proof.
  unfold spliceIn. by rewrite take_app_length, drop_app_length.
Qed.

Lemma spliceIn_after l1 l2 d tg :
  spliceIn (S (length l1)) d (l1 ++ tg :: l2) = l1 ++ tg :: d :: l2.
Proof.
  unfold spliceIn.
  rewrite (cons_middle tg l1 l2), (assoc_L (++)).
  replace (S (length l1)) with (length (l1 ++ [tg]))
    by (rewrite length_app; simpl; lia).
  rewrite take_app_length, drop_app_length.
  by rewrite <-(assoc_L (++)).
Qed.

Lemma reorderList_adjacent a b before l d tg :
  findTask a l = Some d → findTask b l = Some tg → a ≠ b →
  ∃ i l1 l2,
    findIndex a l = Some i
    ∧ spliceOut i l = l1 ++ tg :: l2
    ∧ reorderList a b before l
      = Some (if before then l1 ++ d :: tg :: l2 else l1 ++ tg :: d :: l2).
Proof.
  intros (i & Hi & Hd & Hida)%findIndex_findTask
         (j & Hj & Htg & Hidb)%findIndex_findTask Hab.
  assert (i ≠ j) as Hij by (intros ->; congruence).
  pose proof (target_after_spliceOut l i j tg Hij Htg) as Hk.
  set (k := if (i <? j)%nat then pred j else j) in *.
  assert (length (take k (spliceOut i l)) = k) as Hlen.
  { apply length_take_le. apply lookup_lt_Some in Hk. lia. }
  pose proof (take_drop_middle _ _ _ Hk) as Hsplit.
  unfold reorderList. rewrite Hi, Hj, Hd.
  rewrite bool_decide_eq_false_2 by done. fold k.
  revert Hlen Hsplit.
  generalize (take k (spliceOut i l)) (drop (S k) (spliceOut i l)).
  intros l1 l2 Hlen Hsplit. exists i, l1, l2.
  split; [done|]. split; [done|]. f_equal.
  rewrite <-Hsplit, <-Hlen.
  destruct before; [apply spliceIn_before | apply spliceIn_after].
Qed.

(** [reorderList] leaves the array alone exactly when the two ids are the
    same or one of them is not in the array. *)
Lemma reorderList_None a b before l :
  reorderList a b before l = None ↔ a = b ∨ a ∉ id <$> l ∨ b ∉ id <$> l.
Proof.
  unfold reorderList.
  destruct (findIndex a l) as [i|] eqn:Hi.
  - destruct (findIndex b l) as [j|] eqn:Hj.
    + destruct (findIndex_Some _ _ _ Hi) as (d & Hd & Hida).
      destruct (findIndex_Some _ _ _ Hj) as (tg & Htg & Hidb).
      rewrite Hd. case_bool_decide as Hij.
      * split; [intros _; left; congruence | done].
      * split; [done|]. intros [Hab|[Ha|Hb]].
        -- subst b. congruence.
        -- apply findIndex_None in Ha. congruence.
        -- apply findIndex_None in Hb. congruence.
    + split; [|done]. intros _. right; right. by apply findIndex_None.
  - split; [|done]. intros _. right; left. by apply findIndex_None.
Qed.
End Reorder.

(** * The array a method is given *)

Section Addressed.
Implicit Types (m : gmap string (list Task)) (l : list Task) (t : Task).
Implicit Types (c : TaskCollection) (cat : DatedCategory) (s : State).

Lemma addressedArray_Dated cat s l :
  addressedArray (Dated cat) s = Some l ↔
  ∃ m, viewedBucket cat s = Some (m, l).
Proof.
  unfold addressedArray, bucketAt. split.
  - destruct (getCategory cat (tasks s)) as [m|] eqn:Hm; [|done]. simpl.
    intros Hl. exists m. by apply viewedBucket_Some.
  - intros [m [Hm Hl]%viewedBucket_Some]. by rewrite Hm.
Qed.

Lemma addressedArray_None_viewedBucket cat s :
  addressedArray (Dated cat) s = None ↔ viewedBucket cat s = None.
Proof.
  unfold addressedArray, bucketAt, viewedBucket.
  destruct (getCategory cat (tasks s)) as [m|]; simpl; [|done].
  by destruct (m !! getDateKey s).
Qed.

Lemma getDateKey_withTasks c s : getDateKey (withTasks c s) = getDateKey s.
Proof. unfold getDateKey. f_equal. Qed.

(** Writing the pool. *)
Lemma setPool_addressed l' s :
  addressedArray Pool (withTasks (setPool l' (tasks s)) s) = Some l'
  ∧ elsewhereSame Pool s (withTasks (setPool l' (tasks s)) s).
Proof.
  split; [done|]. split; [done|]. split; [done|].
  intros cat k _. by destruct cat.
Qed.

(** Writing the array of the viewed date. *)
Lemma setBucket_addressed cat m l' s :
  getCategory cat (tasks s) = Some m →
  let s' := withTasks (setCategory cat (<[getDateKey s := l']> m) (tasks s)) s in
  addressedArray (Dated cat) s' = Some l' ∧ elsewhereSame (Dated cat) s s'.
Proof.
  intros Hm s'. subst s'. split; [|split; [reflexivity|split]].
  - unfold addressedArray. rewrite getDateKey_withTasks. cbn [tasks withTasks].
    rewrite bucketAt_insert by exact Hm. rewrite decide_True; [reflexivity|].
    split; reflexivity.
  - intros _. cbn [tasks withTasks]. destruct cat; reflexivity.
  - intros cat' k Hk. cbn [tasks withTasks].
    rewrite bucketAt_insert by exact Hm. rewrite decide_False; [reflexivity|].
    intros [-> ->]. exact (Hk eq_refl eq_refl).
Qed.

Lemma elsewhereSame_refl category s : elsewhereSame category s s.
Proof. by repeat split. Qed.

(** What [mutateTask] does, read through [addressedArray]. *)
Lemma mutateTask_addressed category taskId (f : Task → Task) s l :
  addressedArray category s = Some l →
  ∃ s', mutateTask category taskId f s = Returned s'
        ∧ addressedArray category s'
          = Some (match findIndex taskId l with
                  | Some i => alter f i l
                  | None => l
                  end)
        ∧ elsewhereSame category s s'.
Proof.
  intros Hl. destruct category as [cat|]; unfold mutateTask.
  - pose proof Hl as [m Hv]%addressedArray_Dated. rewrite Hv.
    apply viewedBucket_Some in Hv as [Hm Hk].
    destruct (findIndex taskId l) as [i|].
    + eexists. split; [done|]. by apply setBucket_addressed.
    + exists s. split; [done|]. split; [done|]. apply elsewhereSame_refl.
  - unfold addressedArray in Hl. rewrite Hl.
    destruct (findIndex taskId l) as [i|].
    + eexists. split; [done|]. apply setPool_addressed.
    + exists s. split; [done|]. split; [done|]. apply elsewhereSame_refl.
Qed.

(** A method that looks in an array throws when the array is missing, and
    has written nothing by then. *)
Lemma mutateTask_missing category taskId (f : Task → Task) s :
  addressedArray category s = None → mutateTask category taskId f s = Threw s.
Proof.
  destruct category as [cat|]; unfold mutateTask.
  - intros ->%addressedArray_None_viewedBucket. done.
  - unfold addressedArray. by intros ->.
Qed.

Lemma findIndex_alter (f : Task → Task) taskId i l :
  (∀ t, id (f t) = id t) → findIndex taskId (alter f i l) = findIndex taskId l.
Proof.
  intros Hf. revert i. induction l as [|a l IH]; intros [|i]; simpl; [done..| |].
  - by rewrite Hf.
  - destruct (id a =? taskId); [done|]. f_equal. apply IH.
Qed.

(** Two field assignments to the task of one id, one call after the
    other, are one assignment of both. *)
Lemma mutateTask_compose category taskId (f g : Task → Task) s :
  (∀ t, id (f t) = id t) →
  mutateTask category taskId g (finalState (mutateTask category taskId f s))
  = mutateTask category taskId (g ∘ f) s.
Proof.
  intros Hf.
  destruct (addressedArray category s) as [l|] eqn:Hl.
  - destruct (mutateTask_addressed category taskId f s l Hl) as (s1 & Hs1 & Hl1 & He1).
    rewrite Hs1. cbn [finalState].
    destruct category as [cat|]; unfold mutateTask in *.
    + pose proof Hl as [m Hv]%addressedArray_Dated. rewrite Hv in *.
      apply viewedBucket_Some in Hv as [Hm Hk].
      destruct (findIndex taskId l) as [i|] eqn:Hi.
      * apply (f_equal finalState) in Hs1. cbn [finalState] in Hs1. subst s1.
        unfold viewedBucket. cbn [tasks withTasks].
        rewrite getCategory_setCategory. cbn [mbind option_bind].
        rewrite getDateKey_withTasks.
        rewrite lookup_insert_eq. cbn [mbind option_bind].
        rewrite findIndex_alter, Hi by done.
        rewrite setCategory_twice, insert_insert_eq.
        by rewrite list_alter_alter_eq.
      * apply (f_equal finalState) in Hs1. cbn [finalState] in Hs1. subst s1.
        rewrite (proj2 (viewedBucket_Some _ _ _ _) (conj Hm Hk)). by rewrite Hi.
    + unfold addressedArray in Hl. rewrite Hl in *.
      destruct (findIndex taskId l) as [i|] eqn:Hi.
      * apply (f_equal finalState) in Hs1. cbn [finalState] in Hs1. subst s1.
        cbn [tasks withTasks setPool pool].
        rewrite findIndex_alter, Hi by done.
        by rewrite list_alter_alter_eq.
      * apply (f_equal finalState) in Hs1. cbn [finalState] in Hs1. subst s1.
        by rewrite Hl, Hi.
  - rewrite (mutateTask_missing _ _ f) by done. cbn [finalState].
    by rewrite !mutateTask_missing.
Qed.
End Addressed.

(** * Further properties of the lifecycle methods *)

(** ** Reordering *)

(** X1.  [reorderTasks] with two different ids that the addressed array holds:
    the dragged task is taken out and put back right before the target, or
    right after it, the other tasks keeping their order; nothing else
    changes. *)
Theorem reorderTasks_next_to_target category a b before s l d tg :
  addressedArray category s = Some l →
  findTask a l = Some d → findTask b l = Some tg → a ≠ b →
  ∃ i l1 l2 s',
    findIndex a l = Some i
    ∧ spliceOut i l = l1 ++ tg :: l2
    ∧ reorderTasks category a b before s = Returned s'
    ∧ addressedArray category s'
      = Some (if before then l1 ++ d :: tg :: l2 else l1 ++ tg :: d :: l2)
    ∧ elsewhereSame category s s'.
Proof.
  intros Hl Hd Htg Hab.
  destruct (reorderList_adjacent a b before l d tg Hd Htg Hab)
    as (i & l1 & l2 & Hi & Hsplit & Hr).
  exists i, l1, l2. unfold reorderTasks. destruct category as [cat|].
  - pose proof Hl as [m Hv]%addressedArray_Dated. rewrite Hv, Hr.
    apply viewedBucket_Some in Hv as [Hm Hk].
    eexists. split; [done|]. split; [done|]. split; [done|].
    by apply setBucket_addressed.
  - unfold addressedArray in Hl. rewrite Hl, Hr.
    eexists. split; [done|]. split; [done|]. split; [done|].
    apply setPool_addressed.
Qed.

Lemma reorderTasks_next_to_target_witness :
  ∃ i l1 l2 s',
    findIndex 3000 [milk; callBob; report] = Some i
    ∧ spliceOut i [milk; callBob; report] = l1 ++ milk :: l2
    ∧ reorderTasks (Dated Personal) 3000 1000 true busyState = Returned s'
    ∧ addressedArray (Dated Personal) s' = Some (l1 ++ report :: milk :: l2)
    ∧ elsewhereSame (Dated Personal) busyState s'.
Proof.
  apply (reorderTasks_next_to_target (Dated Personal) 3000 1000 true busyState
           [milk; callBob; report] report milk).
  - vm_compute; reflexivity.
  - vm_compute; reflexivity.
  - vm_compute; reflexivity.
  - lia.
Defined.

(** X2.  Dropping a task on itself, or with an id the addressed array does not
    hold, changes nothing. *)
Theorem reorderTasks_noop category a b before s l :
  addressedArray category s = Some l →
  a = b ∨ a ∉ id <$> l ∨ b ∉ id <$> l →
  reorderTasks category a b before s = Returned s.
Proof.
  intros Hl Hcase. apply (reorderList_None a b before l) in Hcase.
  unfold reorderTasks. destruct category as [cat|].
  - pose proof Hl as [m Hv]%addressedArray_Dated. by rewrite Hv, Hcase.
  - unfold addressedArray in Hl. by rewrite Hl, Hcase.
Qed.

Lemma reorderTasks_noop_witness :
  reorderTasks (Dated Personal) 1000 1000 true busyState = Returned busyState.
Proof.
  apply (reorderTasks_noop (Dated Personal) 1000 1000 true busyState
           [milk; callBob; report]).
  - vm_compute; reflexivity.
  - left. reflexivity.
Defined.

(** ** Completing, un-completing and the in-progress toggle *)

Lemma mutateTask_ext category taskId (f g : Task → Task) s :
  (∀ t, f t = g t) →
  mutateTask category taskId f s = mutateTask category taskId g s.
Proof.
  intros Hfg. unfold mutateTask. destruct category as [cat|].
  - destruct (viewedBucket cat s) as [[m l]|]; [|done].
    destruct (findIndex taskId l) as [i|]; [|done].
    by rewrite (list_alter_ext f g l l i) by done.
  - destruct (pool (tasks s)) as [l|]; [|done].
    destruct (findIndex taskId l) as [i|]; [|done].
    by rewrite (list_alter_ext f g l l i) by done.
Qed.

(** An assignment that leaves the task it finds as it is leaves the state
    as it is. *)
Lemma mutateTask_fixed category taskId (f : Task → Task) s l :
  addressedArray category s = Some l →
  (∀ t, findTask taskId l = Some t → f t = t) →
  mutateTask category taskId f s = Returned s.
Proof.
  intros Hl Hf. unfold mutateTask. destruct category as [cat|].
  - pose proof Hl as [m Hv]%addressedArray_Dated. rewrite Hv.
    apply viewedBucket_Some in Hv as [Hm Hk].
    destruct (findIndex taskId l) as [i|] eqn:Hi; [|done].
    rewrite (list_alter_ext f (λ t, t) l l i), list_alter_id; [|done| |done].
    + rewrite insert_id by done. rewrite setCategory_same by done. by destruct s.
    + intros t Ht. apply Hf. apply findTask_Some. eauto.
  - unfold addressedArray in Hl. rewrite Hl.
    destruct (findIndex taskId l) as [i|] eqn:Hi; [|done].
    rewrite (list_alter_ext f (λ t, t) l l i), list_alter_id; [|done| |done].
    + destruct s as [d [p w q]]. simpl in *. by subst q.
    + intros t Ht. apply Hf. apply findTask_Some. eauto.
Qed.

(** X3.  On a date-keyed tab, completing a task and then un-completing it is
    un-completing it: whatever the task was, it ends pending, with no
    completion date; a task that was in progress does not get that status
    back.  This holds for every state and id, also when the first call
    throws or finds nothing. *)
Theorem complete_then_uncomplete cat taskId s :
  uncompleteTask (Dated cat) taskId
    (finalState (completeTask (Dated cat) taskId s))
  = uncompleteTask (Dated cat) taskId s.
Proof.
  unfold uncompleteTask, completeTask.
  rewrite mutateTask_compose by done.
  by apply mutateTask_ext.
Qed.

(** X4.  Completing a pending task of a date-keyed tab and un-completing it
    gives back the state there was. *)
Theorem uncomplete_undoes_complete cat taskId s l t :
  addressedArray (Dated cat) s = Some l → findTask taskId l = Some t →
  status t = Pending → completed t = false → completedDate t = None →
  uncompleteTask (Dated cat) taskId
    (finalState (completeTask (Dated cat) taskId s))
  = Returned s.
Proof.
  intros Hl Ht Hst Hc Hcd. unfold uncompleteTask, completeTask.
  rewrite mutateTask_compose by done.
  apply (mutateTask_fixed _ _ _ _ l Hl).
  intros t' Ht'. assert (t' = t) as -> by congruence.
  destruct t; simpl in *. by subst.
Qed.

Lemma uncomplete_undoes_complete_witness :
  uncompleteTask (Dated Personal) 1000
    (finalState (completeTask (Dated Personal) 1000 milkState))
  = Returned milkState.
Proof.
  apply (uncomplete_undoes_complete Personal 1000 milkState [milk] milk);
    vm_compute; reflexivity.
Defined.

(** X5.  The in-progress toggle, called twice on a task whose [completed] is
    false, gives back the state there was. *)
Theorem toggle_twice category taskId s l :
  addressedArray category s = Some l →
  (∀ t, findTask taskId l = Some t → completed t = false) →
  toggleTaskInProgress category taskId
    (finalState (toggleTaskInProgress category taskId s))
  = Returned s.
Proof.
  intros Hl Hc. unfold toggleTaskInProgress.
  rewrite mutateTask_compose by done.
  apply (mutateTask_fixed _ _ _ _ l Hl).
  intros t Ht. specialize (Hc t Ht).
  destruct t as [? ? [] ? ? ? ?]; simpl in *; by subst.
Qed.

Lemma toggle_twice_witness :
  toggleTaskInProgress (Dated Personal) 2000
    (finalState (toggleTaskInProgress (Dated Personal) 2000 busyState))
  = Returned busyState.
Proof.
  apply (toggle_twice (Dated Personal) 2000 busyState [milk; callBob; report]).
  - vm_compute; reflexivity.
  - intros t Ht. vm_compute in Ht.
    apply (f_equal (λ o, match o with Some x => completed x | None => false end)) in Ht.
    symmetry. exact Ht.
Defined.

(** ** Adding and deleting *)

Section AddDelete.
Implicit Types (m : gmap string (list Task)) (l : list Task) (t : Task).
Implicit Types (c : TaskCollection) (cat : DatedCategory) (s : State).

Lemma bucketAt_pushCreating cat k t c cat' k' :
  bucketAt (pushCreating cat k t c) cat' k'
  = if decide (cat' = cat ∧ k' = k)
    then Some (default [] (bucketAt c cat k) ++ [t])
    else bucketAt c cat' k'.
Proof.
  unfold pushCreating, bucketAt.
  destruct (decide (cat' = cat)) as [->|Hne].
  - rewrite getCategory_setCategory. cbn [mbind option_bind].
    destruct (decide (k' = k)) as [->|Hk].
    + rewrite lookup_insert_eq, decide_True by done.
      by destruct (getCategory cat c).
    + rewrite lookup_insert_ne by done. rewrite decide_False by (by intros [_ ?]).
      by destruct (getCategory cat c).
  - rewrite getCategory_setCategory_ne by done.
    by rewrite decide_False by (by intros [? _]).
Qed.


Lemma deleteTask_addressed category taskId s l :
  addressedArray category s = Some l →
  ∃ s', deleteTask category taskId s = Returned s'
        ∧ addressedArray category s'
          = Some (match findIndex taskId l with
                  | Some i => spliceOut i l
                  | None => l
                  end)
        ∧ elsewhereSame category s s'.
Proof.
  intros Hl. destruct category as [cat|]; unfold deleteTask.
  - pose proof Hl as [m Hv]%addressedArray_Dated. rewrite Hv.
    apply viewedBucket_Some in Hv as [Hm Hk].
    destruct (findIndex taskId l) as [i|].
    + eexists. split; [done|]. by apply setBucket_addressed.
    + exists s. split; [done|]. split; [done|]. apply elsewhereSame_refl.
  - unfold addressedArray in Hl. rewrite Hl.
    destruct (findIndex taskId l) as [i|].
    + eexists. split; [done|]. apply setPool_addressed.
    + exists s. split; [done|]. split; [done|]. apply elsewhereSame_refl.
Qed.

Lemma findIndex_snoc_fresh taskId l t :
  taskId ∉ id <$> l → id t = taskId →
  findIndex taskId (l ++ [t]) = Some (length l).
Proof.
  intros Hfresh Hid. induction l as [|a l IH]; simpl.
  - by rewrite (proj2 (Z.eqb_eq _ _) Hid).
  - rewrite fmap_cons, not_elem_of_cons in Hfresh. destruct Hfresh as [Hne Hfresh].
    destruct (Z.eqb_spec (id a) taskId) as [Heq|_]; [congruence|].
    by rewrite IH.
Qed.

End AddDelete.





(** ** Moves, one after the other *)

(** X9.  After [moveTaskToDate(category, id, offset)] found its task, the
    navigation [changeDate(offset)] shows the copy as the last task of the
    category's list, in every time zone: the two compute the target date
    the same way. *)
Theorem moved_copy_is_last tz now cat taskId daysOffset s l t :
  addressedArray (Dated cat) s = Some l → findTask taskId l = Some t →
  ∃ s1 s2,
    moveTaskToDate tz now cat taskId daysOffset s = Returned s1
    ∧ changeDate tz daysOffset s1 = Returned s2
    ∧ last (renderedTasks (Dated cat) s2) = Some (relocated now t).
Proof.
  intros [m Hv]%addressedArray_Dated (i & Hi & Ht)%findTask_Some.
  unfold moveTaskToDate. rewrite Hv, Hi, Ht.
  apply viewedBucket_Some in Hv as [Hm Hk].
  set (targetDateKey := formatDateKey _).
  set (m1 := <[getDateKey s := alter markMoved i l]> m).
  set (s1 := withTasks _ s).
  exists s1, (finalState (changeDate tz daysOffset s1)).
  split; [reflexivity|]. split; [reflexivity|].
  unfold renderedTasks. rewrite getDateKey_changeDate.
  cbn [changeDate finalState tasks]. subst s1. cbn [withTasks tasks currentDate].
  fold targetDateKey.
  unfold bucketAt. rewrite getCategory_setCategory. cbn [mbind option_bind].
  rewrite lookup_insert_eq. cbn [default]. apply last_snoc.
Qed.

Lemma moved_copy_is_last_witness :
  ∃ s1 s2,
    moveTaskToDate (JSDate.fixedOffset 0) 9000 Personal 1000 1 busyState
    = Returned s1
    ∧ changeDate (JSDate.fixedOffset 0) 1 s1 = Returned s2
    ∧ last (renderedTasks (Dated Personal) s2) = Some (relocated 9000 milk).
Proof.
  apply (moved_copy_is_last (JSDate.fixedOffset 0) 9000 Personal 1000 1
           busyState [milk; callBob; report] milk);
    vm_compute; reflexivity.
Defined.

Lemma bucketAt_setPool l c cat k : bucketAt (setPool l c) cat k = bucketAt c cat k.
Proof. by destruct cat. Qed.

(** X10.  A task moved to the pool and dragged back onto its tab, with the same
    date viewed, comes back as the last task of its list: pending if it was
    completed, not marked as moved, with no completion date and with the
    viewed date as its original date.  The pool holds what it held.  The
    first move gives the task the id [now1], which must not be the id of a
    pool task for the second move to pick it. *)
Theorem pool_round_trip now1 now2 cat taskId s l t :
  addressedArray (Dated cat) s = Some l → findTask taskId l = Some t →
  now1 ∉ id <$> default [] (pool (tasks s)) →
  ∃ i s1 s2,
    findIndex taskId l = Some i
    ∧ moveTaskToPool now1 cat taskId s = Returned s1
    ∧ movePoolTaskToDate now2 cat now1 s1 = Returned s2
    ∧ addressedArray (Dated cat) s2
      = Some (spliceOut i l
              ++ [scheduled now2 (getDateKey s) (pooled now1 t)])
    ∧ pool (tasks s2) = Some (default [] (pool (tasks s)))
    ∧ currentDate s2 = currentDate s.
Proof.
  intros [m Hv]%addressedArray_Dated (i & Hi & Ht)%findTask_Some Hfresh.
  exists i. unfold moveTaskToPool. rewrite Hv, Hi, Ht.
  apply viewedBucket_Some in Hv as [Hm Hk].
  set (c1 := setCategory cat (<[getDateKey s := spliceOut i l]> m) (tasks s)).
  assert (pool c1 = pool (tasks s)) as Hp1 by (subst c1; by destruct cat).
  rewrite Hp1.
  set (p := default [] (pool (tasks s))) in *.
  set (copy := pooled now1 t).
  set (s1 := withTasks (setPool (p ++ [copy]) c1) s).
  exists s1. unfold movePoolTaskToDate.
  assert (pool (tasks s1) = Some (p ++ [copy])) as -> by reflexivity.
  rewrite (findIndex_snoc_fresh now1 p copy Hfresh eq_refl).
  rewrite list_lookup_middle by reflexivity.
  assert (spliceOut (length p) (p ++ [copy]) = p) as ->.
  { unfold spliceOut. by rewrite (delete_middle p [] copy), app_nil_r. }
  assert (getDateKey s1 = getDateKey s) as Hkey1 by apply getDateKey_withTasks.
  rewrite Hkey1.
  eexists. split; [reflexivity|]. split; [reflexivity|]. split; [reflexivity|].
  split; [|split; [|reflexivity]].
  - unfold addressedArray. rewrite getDateKey_withTasks, Hkey1.
    cbn [tasks withTasks].
    rewrite bucketAt_pushCreating.
    rewrite decide_True by (split; reflexivity).
    rewrite bucketAt_setPool. subst s1. cbn [tasks withTasks].
    rewrite bucketAt_setPool. subst c1.
    rewrite bucketAt_insert by exact Hm.
    rewrite decide_True by (split; reflexivity). reflexivity.
  - cbn [tasks withTasks]. rewrite pool_pushCreating. reflexivity.
Qed.

Lemma pool_round_trip_witness :
  ∃ i s1 s2,
    findIndex 1000 [milkDone] = Some i
    ∧ moveTaskToPool 7000 Personal 1000 milkDoneState = Returned s1
    ∧ movePoolTaskToDate 8000 Personal 7000 s1 = Returned s2
    ∧ addressedArray (Dated Personal) s2
      = Some (spliceOut i [milkDone]
              ++ [scheduled 8000 (getDateKey milkDoneState) (pooled 7000 milkDone)])
    ∧ pool (tasks s2) = Some (default [] (pool (tasks milkDoneState)))
    ∧ currentDate s2 = currentDate milkDoneState.
Proof.
  apply (pool_round_trip 7000 8000 Personal 1000 milkDoneState [milkDone] milkDone).
  - vm_compute; reflexivity.
  - vm_compute; reflexivity.
  - apply (bool_decide_unpack _). vm_compute. exact I.
Defined.

(** ** Completing a pool task *)

(** X11.  [completePoolTask] on a task the pool holds, when the collection has
    its [personal] map: the first pool task with the id leaves the pool and
    is appended, completed, to the Personal list of the viewed date, with
    that date as completion date and as original date; the Work lists and
    the other Personal lists stay as they were. *)
Theorem completePoolTask_lands_on_viewed_day taskId s p t :
  pool (tasks s) = Some p → findTask taskId p = Some t →
  is_Some (personal (tasks s)) →
  ∃ i s',
    findIndex taskId p = Some i
    ∧ completePoolTask taskId s = Returned s'
    ∧ pool (tasks s') = Some (spliceOut i p)
    ∧ renderedTasks (Dated Personal) s'
      = renderedTasks (Dated Personal) s
        ++ [completedFromPool (getDateKey s) t]
    ∧ currentDate s' = currentDate s
    ∧ ∀ cat k, (cat, k) ≠ (Personal, getDateKey s) →
        bucketAt (tasks s') cat k = bucketAt (tasks s) cat k.
Proof.
  intros Hp (i & Hi & Ht)%findTask_Some [m Hm].
  exists i. unfold completePoolTask. rewrite Hp, Hi, Ht.
  cbn [personal setPool]. rewrite Hm.
  eexists. split; [reflexivity|]. split; [reflexivity|].
  cbn [tasks withTasks currentDate].
  rewrite (pushCreating_existing Personal) by exact Hm.
  split; [reflexivity|]. split; [|split; [reflexivity|]].
  - unfold renderedTasks. rewrite getDateKey_withTasks. cbn [tasks withTasks].
    rewrite bucketAt_pushCreating.
    rewrite decide_True by (split; reflexivity).
    rewrite bucketAt_setPool. reflexivity.
  - intros cat k Hne. rewrite bucketAt_pushCreating.
    rewrite decide_False by (intros [-> ->]; by apply Hne).
    apply bucketAt_setPool.
Qed.

Lemma completePoolTask_lands_on_viewed_day_witness :
  ∃ i s',
    findIndex 4000 [idea] = Some i
    ∧ completePoolTask 4000 busyState = Returned s'
    ∧ pool (tasks s') = Some (spliceOut i [idea])
    ∧ renderedTasks (Dated Personal) s'
      = renderedTasks (Dated Personal) busyState
        ++ [completedFromPool (getDateKey busyState) idea]
    ∧ currentDate s' = currentDate busyState
    ∧ ∀ cat k, (cat, k) ≠ (Personal, getDateKey busyState) →
        bucketAt (tasks s') cat k = bucketAt (tasks busyState) cat k.
Proof.
  apply (completePoolTask_lands_on_viewed_day 4000 busyState [idea] idea).
  - vm_compute; reflexivity.
  - vm_compute; reflexivity.
  - vm_compute. eexists. reflexivity.
Defined.

(** X12.  When the collection has no [personal] map (a downloaded or stored
    object of another shape), [completePoolTask] throws after it has taken
    the task out of the pool: the planner is left without the task. *)
Theorem completePoolTask_loses_the_task taskId s p t :
  pool (tasks s) = Some p → findTask taskId p = Some t →
  personal (tasks s) = None →
  ∃ i s',
    findIndex taskId p = Some i
    ∧ completePoolTask taskId s = Threw s'
    ∧ pool (tasks s') = Some (spliceOut i p)
    ∧ personal (tasks s') = None
    ∧ work (tasks s') = work (tasks s)
    ∧ (totalCount (tasks s) = S (totalCount (tasks s')))%nat.
Proof.
  intros Hp (i & Hi & Ht)%findTask_Some Hm.
  exists i. unfold completePoolTask. rewrite Hp, Hi, Ht.
  cbn [personal setPool]. rewrite Hm.
  eexists. split; [reflexivity|]. split; [reflexivity|].
  split; [reflexivity|]. split; [exact Hm|]. split; [reflexivity|].
  pose proof (changes_pool_delete (tasks s) p i t Hp Ht) as Hch.
  apply changes_count in Hch. cbn [length] in Hch.
  cbn [tasks withTasks]. lia.
Qed.

Lemma completePoolTask_loses_the_task_witness :
  ∃ i s',
    findIndex 4000 [idea] = Some i
    ∧ completePoolTask 4000 poolOnlyState = Threw s'
    ∧ pool (tasks s') = Some (spliceOut i [idea])
    ∧ personal (tasks s') = None
    ∧ work (tasks s') = work (tasks poolOnlyState)
    ∧ (totalCount (tasks poolOnlyState) = S (totalCount (tasks s')))%nat.
Proof.
  apply (completePoolTask_loses_the_task 4000 poolOnlyState [idea] idea);
    vm_compute; reflexivity.
Defined.

(** ** Navigation *)

Lemma setDate_fixedOffset offset t d :
  let tz := JSDate.fixedOffset offset in
  JSDate.setDate tz t (JSDate.getDate tz t + d) = t + d * JSDate.msPerDay.
Proof.
  intros tz.
  unfold JSDate.setDate, JSDate.getDate, JSDate.UTC, JSDate.LocalTime,
    JSDate.MakeDate, JSDate.TimeWithinDay, JSDate.Day, JSDate.msPerDay.
  cbn [JSDate.LocalTZA tz JSDate.fixedOffset].
  set (lt := t + offset).
  generalize (JSDate.DateFromTime lt). intros dom.
  pose proof (Z.div_mod lt 86400000). lia.
Qed.

(** X13.  In a time zone of fixed offset [changeDate(days)] moves the viewed
    instant by that many days exactly, so that the viewed key becomes the
    key of the day [days] later and [changeDate(-days)] leads back. *)
Theorem changeDate_fixedOffset offset days s :
  let tz := JSDate.fixedOffset offset in
  changeDate tz days s
  = Returned {| currentDate := currentDate s + days * JSDate.msPerDay;
                tasks := tasks s |}
  ∧ getDateKey (finalState (changeDate tz days s))
    = JSDate.isoDateOfDay (JSDate.Day (currentDate s) + days)
  ∧ changeDate tz (- days) (finalState (changeDate tz days s)) = Returned s.
Proof.
  intros tz.
  assert (∀ d s0, changeDate tz d s0
          = Returned {| currentDate := currentDate s0 + d * JSDate.msPerDay;
                        tasks := tasks s0 |}) as Hstep.
  { intros d s0. unfold changeDate. f_equal. f_equal. apply setDate_fixedOffset. }
  split; [apply Hstep|]. rewrite Hstep. cbn [finalState]. split.
  - unfold getDateKey, formatDateKey, JSDate.toISODate. cbn [currentDate].
    f_equal. unfold JSDate.Day, JSDate.msPerDay. by rewrite Z.div_add by lia.
  - rewrite Hstep. cbn [currentDate tasks]. destruct s as [d c].
    cbn [currentDate tasks]. f_equal. f_equal. lia.
Qed.

(** * What every call makes of the tasks *)

Section RunMade.
Implicit Types (s : State) (now : Z) (op : Op) (t : Task).

Lemma mutateTask_changes category taskId (f : Task → Task) s :
  tasks (finalState (mutateTask category taskId f s)) = tasks s
  ∨ ∃ t, changes [t] [f t] (tasks s)
           (tasks (finalState (mutateTask category taskId f s))).
Proof.
  unfold mutateTask. destruct category as [cat|].
  - destruct (viewedBucket cat s) as [[m l]|] eqn:Hv; [|by left].
    destruct (findIndex taskId l) as [i|] eqn:Hi; [|by left].
    apply viewedBucket_Some in Hv as [Hm Hl].
    destruct (findIndex_Some _ _ _ Hi) as (t & Ht & _).
    right. exists t. by apply changes_bucket_alter.
  - destruct (pool (tasks s)) as [l|] eqn:Hp; [|by left].
    destruct (findIndex taskId l) as [i|] eqn:Hi; [|by left].
    destruct (findIndex_Some _ _ _ Hi) as (t & Ht & _).
    right. exists t. by apply changes_pool_alter.
Qed.

Lemma made_unchanged now c c' :
  c' = c → ∃ removed added, Made now removed added ∧ changes removed added c c'.
Proof. intros ->. exists [], []. split; [constructor | apply changes_refl]. Qed.

Lemma made_mutateTask now category taskId (f : Task → Task) s :
  (∀ t, Made now [t] [f t]) →
  ∃ removed added,
    Made now removed added
    ∧ changes removed added (tasks s)
        (tasks (finalState (mutateTask category taskId f s))).
Proof.
  intros Hf. destruct (mutateTask_changes category taskId f s) as [Heq|[t Hch]].
  - by apply made_unchanged.
  - by exists [t], [f t].
Qed.

(** Every call but a pull that replaced the collection takes away at most
    one task and puts there what one object literal or one field
    assignment of the methods makes of it. *)
Lemma run_made tz now op s :
  (∀ cloudData, op ≠ OpHandleDownload (Some cloudData)) →
  ∃ removed added,
    Made now removed added
    ∧ changes removed added (tasks s) (tasks (finalState (run tz now op s))).
Proof.
  intros Hop. destruct op; cbn [run].
  - unfold addTask. destruct (truthy (trim inputValue)) eqn:Htext; cbn [negb].
    + eexists [], [newTask now _ _]. split; [by constructor|].
      apply changes_pushCreating.
    + by apply made_unchanged.
  - unfold addPoolTask. destruct (truthy (trim inputValue)) eqn:Htext; cbn [negb].
    + eexists [], [newTask now _ _]. split; [by constructor|].
      apply changes_pool_push.
    + by apply made_unchanged.
  - destruct category as [cat|]; cbn [completeTask].
    + apply made_mutateTask. intros t. constructor.
    + unfold completePoolTask.
      destruct (pool (tasks s)) as [l|] eqn:Hp; [|by apply made_unchanged].
      destruct (findIndex taskId l) as [i|] eqn:Hi; [|by apply made_unchanged].
      destruct (l !! i) as [t|] eqn:Ht; [|by apply made_unchanged].
      cbn [personal setPool].
      destruct (personal (tasks s)) as [m|] eqn:Hm.
      * exists [t], [completedFromPool (getDateKey s) t]. split; [constructor|].
        cbn [finalState tasks withTasks].
        rewrite (pushCreating_existing Personal); [|done].
        eapply changes_then_add; [|apply changes_pushCreating].
        by apply changes_pool_delete.
      * exists [t], []. split; [constructor|]. by apply changes_pool_delete.
  - apply made_mutateTask. intros t. constructor.
  - apply made_mutateTask. intros t. constructor.
  - unfold editTask. destruct (truthy (trim newText)) eqn:Htext.
    + apply (made_mutateTask now category taskId (setText (trim newText))).
      intros t. by constructor.
    + destruct (mutateTask_changes category taskId (λ t, t) s) as [Heq|[t Hch]].
      * by apply made_unchanged.
      * exists [], []. split; [constructor|].
        destruct Hch as (rest & H1 & H2). exists (t :: rest). by split.
  - destruct (found_or_not category taskId s)
      as [(m & l & t & Hv & Ht)|[Hv|(m & l & Hv & Hi)]].
    + destruct (moveTaskToDate_found tz now _ _ daysOffset _ _ _ _ Hv Ht)
        as (s' & -> & Hch).
      exists [t], [relocated now t; markMoved t]. split; [constructor | done].
    + unfold moveTaskToDate. rewrite Hv. by apply made_unchanged.
    + unfold moveTaskToDate. rewrite Hv, Hi. by apply made_unchanged.
  - destruct (found_or_not fromCategory taskId s)
      as [(m & l & t & Hv & Ht)|[Hv|(m & l & Hv & Hi)]].
    + destruct (moveTaskBetweenCategories_found now _ toCategory _ _ _ _ _ Hv Ht)
        as (s' & -> & Hch).
      exists [t], [relocated now t]. split; [constructor | done].
    + unfold moveTaskBetweenCategories. rewrite Hv. by apply made_unchanged.
    + unfold moveTaskBetweenCategories. rewrite Hv, Hi. by apply made_unchanged.
  - destruct (pool_found_or_not taskId s)
      as [(l & t & Hp & Ht)|[Hp|(l & Hp & Hi)]].
    + destruct (movePoolTaskToDate_found now targetCategory _ _ _ _ Hp Ht)
        as (s' & -> & Hch).
      exists [t], [scheduled now (getDateKey s) t]. split; [constructor | done].
    + unfold movePoolTaskToDate. rewrite Hp. by apply made_unchanged.
    + unfold movePoolTaskToDate. rewrite Hp, Hi. by apply made_unchanged.
  - destruct (pool_found_or_not taskId s)
      as [(l & t & Hp & Ht)|[Hp|(l & Hp & Hi)]].
    + destruct (personal (tasks s)) as [m|] eqn:Hm.
      * destruct (movePoolTaskToSpecificDate_found now _ targetDate _ _ _ Hp Ht)
          as (s' & -> & Hch); [by rewrite Hm|].
        exists [t], [scheduled now (formatDateKey targetDate) t].
        split; [constructor | done].
      * destruct (movePoolTaskToSpecificDate_threw now _ targetDate _ _ _ Hp Ht Hm)
          as (s' & -> & Hch).
        exists [t], []. split; [constructor | done].
    + unfold movePoolTaskToSpecificDate. rewrite Hp. by apply made_unchanged.
    + unfold movePoolTaskToSpecificDate. rewrite Hp, Hi. by apply made_unchanged.
  - destruct (found_or_not fromCategory taskId s)
      as [(m & l & t & Hv & Ht)|[Hv|(m & l & Hv & Hi)]].
    + destruct (moveTaskToPool_found now _ _ _ _ _ _ Hv Ht)
        as (s' & -> & Hch).
      exists [t], [pooled now t]. split; [constructor | done].
    + unfold moveTaskToPool. rewrite Hv. by apply made_unchanged.
    + unfold moveTaskToPool. rewrite Hv, Hi. by apply made_unchanged.
  - unfold deleteTask. destruct category as [cat|].
    + destruct (viewedBucket cat s) as [[m l]|] eqn:Hv; [|by apply made_unchanged].
      destruct (findIndex taskId l) as [i|] eqn:Hi; [|by apply made_unchanged].
      apply viewedBucket_Some in Hv as [Hm Hl].
      destruct (findIndex_Some _ _ _ Hi) as (t & Ht & _).
      exists [t], []. split; [constructor|]. by apply changes_bucket_delete.
    + destruct (pool (tasks s)) as [l|] eqn:Hp; [|by apply made_unchanged].
      destruct (findIndex taskId l) as [i|] eqn:Hi; [|by apply made_unchanged].
      destruct (findIndex_Some _ _ _ Hi) as (t & Ht & _).
      exists [t], []. split; [constructor|]. by apply changes_pool_delete.
  - exists [], []. split; [constructor|].
    unfold reorderTasks. destruct category as [cat|].
    + destruct (viewedBucket cat s) as [[m l]|] eqn:Hv; [|apply changes_refl].
      destruct (reorderList _ _ _ l) as [l'|] eqn:Hr; [|apply changes_refl].
      apply viewedBucket_Some in Hv as [Hm Hl].
      apply reorderList_Permutation in Hr.
      by apply (changes_setBucket _ _ _ _ l l' [] [] l).
    + destruct (pool (tasks s)) as [l|] eqn:Hp; [|apply changes_refl].
      destruct (reorderList _ _ _ l) as [l'|] eqn:Hr; [|apply changes_refl].
      apply reorderList_Permutation in Hr.
      apply changes_setPool. exists l. by rewrite Hp.
  - by apply made_unchanged.
  - by apply made_unchanged.
  - destruct download as [cloudData|]; [by destruct (Hop cloudData)|].
    by apply made_unchanged.
Qed.

Lemma Made_keeps (P : Task → Prop) now removed added :
  KeptByMethods P → Made now removed added →
  Forall P removed → Forall P added.
Proof.
  intros HP HM Hrem. destruct HP.
  destruct HM; try apply Forall_nil_2;
    try (apply Forall_cons in Hrem as [Ht _]);
    repeat (apply Forall_cons; split); try apply Forall_nil_2; eauto.
Qed.

Lemma run_keeps (P : Task → Prop) tz now op s :
  KeptByMethods P →
  (∀ cloudData, op ≠ OpHandleDownload (Some cloudData)) →
  Forall P (allTasks (tasks s)) →
  Forall P (allTasks (tasks (finalState (run tz now op s)))).
Proof.
  intros HP Hop Hall.
  destruct (run_made tz now op s Hop) as (removed & added & HM & rest & H1 & H2).
  rewrite H2. rewrite H1 in Hall. apply Forall_app in Hall as [Hrem Hrest].
  apply Forall_app. split; [|done]. by apply (Made_keeps P now removed added).
Qed.
End RunMade.

(** * Invariants of the stored tasks *)

Section Trim.
Implicit Types (s : string) (c : ascii).




End Trim.


Lemma completedDateOk_kept : KeptByMethods (λ t, completedDateOk t = true).
Proof.
  split; unfold completedDateOk;
    cbn [completedDate status newTask setText markCompleted markPending
      toggleProgress markMoved relocated scheduled pooled completedFromPool];
    intros; try done.
  - apply bool_decide_eq_true. apply bool_decide_eq_true in H.
    destruct (status t); [| |done]; split; try done;
      intros Hsome; by apply H in Hsome.
  - apply bool_decide_eq_true_2. split; [by intros [? ?]|].
    by destruct (status t).
Qed.



(** X15.  After every call but a pull that replaced the collection, the tasks
    with a completion date are the tasks of status completed, provided that
    held before. *)
Theorem run_keeps_completedDateOk tz now op s :
  (∀ cloudData, op ≠ OpHandleDownload (Some cloudData)) →
  Forall (λ t, completedDateOk t = true) (allTasks (tasks s)) →
  Forall (λ t, completedDateOk t = true)
    (allTasks (tasks (finalState (run tz now op s)))).
Proof. apply run_keeps, completedDateOk_kept. Qed.

Lemma run_keeps_completedDateOk_witness :
  Forall (λ t, completedDateOk t = true)
    (allTasks (tasks (finalState
       (run (JSDate.fixedOffset 0) 9000 (OpMoveTaskToPool Personal 1000)
          milkDoneState)))).
Proof.
  apply (run_keeps_completedDateOk (JSDate.fixedOffset 0) 9000
           (OpMoveTaskToPool Personal 1000) milkDoneState).
  - intros cloudData H. discriminate H.
  - apply (bool_decide_unpack _). vm_compute. exact I.
Defined.

(** * What the user interface can call *)

Section Gestures.
Implicit Types (s : State) (l : list Task) (t task : Task) (tab : Category).

Lemma rendered_addressed tab s task :
  task ∈ renderedTasks tab s →
  ∃ l, addressedArray tab s = Some l ∧ renderedTasks tab s = l.
Proof.
  unfold renderedTasks, addressedArray. destruct tab as [cat|].
  - destruct (bucketAt (tasks s) cat (getDateKey s)) as [l|]; [by eexists|].
    by intros ?%elem_of_nil.
  - destruct (pool (tasks s)) as [l|]; [by eexists|].
    by intros ?%elem_of_nil.
Qed.

Lemma findTask_NoDup l t :
  NoDup (id <$> l) → t ∈ l → findTask (id t) l = Some t.
Proof.
  unfold findTask. induction l as [|a l IH]; [by intros _ ?%elem_of_nil|].
  rewrite fmap_cons, NoDup_cons. intros [Ha Hl] [->|Hin]%elem_of_cons.
  - cbn [findIndex]. by rewrite Z.eqb_refl.
  - cbn [findIndex]. destruct (Z.eqb_spec (id a) (id t)) as [Heq|Hne].
    + exfalso. apply Ha. rewrite Heq. by apply list_elem_of_fmap_2.
    + specialize (IH Hl Hin).
      destruct (findIndex (id t) l) as [i|]; [|done]. done.
Qed.

Lemma mutateTask_changes_found tab taskId (f : Task → Task) s l t :
  addressedArray tab s = Some l → findTask taskId l = Some t →
  changes [t] [f t] (tasks s) (tasks (finalState (mutateTask tab taskId f s))).
Proof.
  intros Hl (i & Hi & Ht)%findTask_Some. unfold mutateTask.
  destruct tab as [cat|].
  - pose proof Hl as [m Hv]%addressedArray_Dated. rewrite Hv, Hi.
    apply viewedBucket_Some in Hv as [Hm Hk].
    by apply changes_bucket_alter.
  - unfold addressedArray in Hl. rewrite Hl, Hi.
    by apply changes_pool_alter.
Qed.

Lemma mutateTask_returns tab taskId (f : Task → Task) s l :
  addressedArray tab s = Some l → returned (mutateTask tab taskId f s) = true.
Proof.
  intros Hl. by destruct (mutateTask_addressed tab taskId f s l Hl) as (s' & -> & _).
Qed.

Lemma deleteTask_returns tab taskId s l :
  addressedArray tab s = Some l → returned (deleteTask tab taskId s) = true.
Proof.
  intros Hl. by destruct (deleteTask_addressed tab taskId s l Hl) as (s' & -> & _).
Qed.

Lemma reorderTasks_returns tab a b before s l :
  addressedArray tab s = Some l → returned (reorderTasks tab a b before s) = true.
Proof.
  intros Hl. unfold reorderTasks. destruct tab as [cat|].
  - pose proof Hl as [m Hv]%addressedArray_Dated. rewrite Hv.
    by destruct (reorderList a b before l).
  - unfold addressedArray in Hl. rewrite Hl.
    by destruct (reorderList a b before l).
Qed.

Lemma completePoolTask_returns taskId s l :
  pool (tasks s) = Some l → is_Some (personal (tasks s)) →
  returned (completePoolTask taskId s) = true.
Proof.
  intros Hp [m Hm]. unfold completePoolTask. rewrite Hp.
  destruct (findIndex taskId l) as [i|]; [|done].
  destruct (l !! i); [|done]. cbn [personal setPool]. by rewrite Hm.
Qed.

Lemma movePoolTaskToSpecificDate_returns now taskId targetDate s l :
  pool (tasks s) = Some l → is_Some (personal (tasks s)) →
  returned (movePoolTaskToSpecificDate now taskId targetDate s) = true.
Proof.
  intros Hp [m Hm]. unfold movePoolTaskToSpecificDate. rewrite Hp.
  destruct (findIndex taskId l) as [i|]; [|done].
  destruct (l !! i); [|done]. cbn [personal setPool]. by rewrite Hm.
Qed.

Lemma movePoolTaskToDate_returns now target taskId s l :
  pool (tasks s) = Some l →
  returned (movePoolTaskToDate now target taskId s) = true.
Proof.
  intros Hp. unfold movePoolTaskToDate. rewrite Hp.
  destruct (findIndex taskId l) as [i|]; [|done]. by destruct (l !! i).
Qed.

Lemma moveTaskToDate_returns tz now cat taskId daysOffset s l :
  addressedArray (Dated cat) s = Some l →
  returned (moveTaskToDate tz now cat taskId daysOffset s) = true.
Proof.
  intros [m Hv]%addressedArray_Dated. unfold moveTaskToDate. rewrite Hv.
  destruct (findIndex taskId l) as [i|]; [|done]. by destruct (l !! i).
Qed.

Lemma moveTaskToPool_returns now cat taskId s l :
  addressedArray (Dated cat) s = Some l →
  returned (moveTaskToPool now cat taskId s) = true.
Proof.
  intros [m Hv]%addressedArray_Dated. unfold moveTaskToPool. rewrite Hv.
  destruct (findIndex taskId l) as [i|]; [|done]. by destruct (l !! i).
Qed.

Lemma moveTaskBetweenCategories_returns now cat target taskId s l :
  addressedArray (Dated cat) s = Some l →
  returned (moveTaskBetweenCategories now cat target taskId s) = true.
Proof.
  intros [m Hv]%addressedArray_Dated. unfold moveTaskBetweenCategories.
  rewrite Hv.
  destruct (findIndex taskId l) as [i|]; [|done]. by destruct (l !! i).
Qed.

Lemma click_toggle_only_unfinished tab task b typed taskId :
  b ∈ buttons task →
  click tab task b typed = Some (OpToggleTaskInProgress tab taskId) →
  taskId = id task ∧ status task ≠ Completed.
Proof.
  intros Hb. unfold click.
  destruct b; try done.
  - by destruct (_ && _).
  - intros [= <-]. split; [done|]. intros Hst.
    unfold buttons in Hb. rewrite Hst in Hb.
    apply elem_of_cons in Hb as [?|Hb]; [done|].
    apply elem_of_cons in Hb as [?|Hb]; [done|].
    apply elem_of_cons in Hb as [?|Hb]; [done|].
    by apply elem_of_nil in Hb.
Qed.
End Gestures.

(** X16.  No click on a button of a listed task and no drop of a listed task
    makes a method throw, as long as the collection has its [personal] map
    when the Pool tab is shown: the list is drawn from the array the
    methods then look in. *)
Theorem gesture_returns tz now tab task g s op :
  task ∈ renderedTasks tab s →
  (tab = Pool → is_Some (personal (tasks s))) →
  gesture tz tab task g s = Some op →
  returned (run tz now op s) = true.
Proof.
  intros [l [Hl _]]%rendered_addressed Hpersonal.
  destruct g as [b typed|targetTaskId insertBefore|prevDay|targetCategory];
    cbn [gesture].
  - case_bool_decide as Hb; [|done]. unfold click.
    destruct b.
    + destruct (_ && _); [|done]. intros [= <-]. cbn [run].
      by apply (mutateTask_returns _ _ _ _ l).
    + intros [= <-]. cbn [run]. by apply (mutateTask_returns _ _ _ _ l).
    + intros [= <-]. cbn [run]. by apply (mutateTask_returns _ _ _ _ l).
    + intros [= <-]. cbn [run]. destruct tab as [cat|]; cbn [completeTask].
      * by apply (mutateTask_returns _ _ _ _ l).
      * apply (completePoolTask_returns _ _ l); [done | by apply Hpersonal].
    + intros [= <-]. cbn [run]. by apply (deleteTask_returns _ _ _ l).
  - destruct (_ || _); [done|]. intros [= <-]. cbn [run].
    by apply (reorderTasks_returns _ _ _ _ _ l).
  - destruct (id task =? 0); [done|]. destruct tab as [cat|].
    + intros [= <-]. cbn [run]. by apply (moveTaskToDate_returns _ _ _ _ _ _ l).
    + intros [= <-]. cbn [run].
      apply (movePoolTaskToSpecificDate_returns _ _ _ _ l); [done|].
      by apply Hpersonal.
  - destruct (id task =? 0); [done|]. case_bool_decide; [done|].
    destruct tab as [cat|], targetCategory as [target|]; try done.
    + intros [= <-]. cbn [run].
      by apply (moveTaskBetweenCategories_returns _ _ _ _ _ l).
    + intros [= <-]. cbn [run]. by apply (moveTaskToPool_returns _ _ _ _ l).
    + intros [= <-]. cbn [run]. by apply (movePoolTaskToDate_returns _ _ _ _ l).
Qed.

Lemma gesture_returns_witness :
  returned (run (JSDate.fixedOffset 0) 9000 (OpCompleteTask Pool 4000) busyState)
  = true.
Proof.
  apply (gesture_returns (JSDate.fixedOffset 0) 9000 Pool idea
           (Click CompleteBtn "") busyState (OpCompleteTask Pool 4000)).
  - apply (bool_decide_unpack _). vm_compute. exact I.
  - intros _. vm_compute. eexists. reflexivity.
  - vm_compute. reflexivity.
Defined.

(** X17.  Through the buttons and the drops of the list, [completed] stays in
    step with [status] on every task, provided the ids of the listed tasks
    are distinct: the toggle button is on pending and in-progress tasks
    only, and the method it calls then finds the task of the button. *)
Theorem gesture_keeps_inSync tz now tab task g s op :
  task ∈ renderedTasks tab s →
  NoDup (id <$> renderedTasks tab s) →
  gesture tz tab task g s = Some op →
  Forall (λ t, inSync t = true) (allTasks (tasks s)) →
  Forall (λ t, inSync t = true) (allTasks (tasks (finalState (run tz now op s)))).
Proof.
  intros Hin Hnodup Hg Hall.
  destruct (decide (toggles op = true)) as [Htog|Hnot].
  - destruct op; try done.
    destruct g as [b typed| | |]; cbn [gesture] in Hg.
    + case_bool_decide as Hb; [|done].
      assert (category = tab) as ->.
      { unfold click in Hg. destruct b; try done; [|congruence].
        by destruct (_ && _). }
      destruct (click_toggle_only_unfinished _ _ _ _ _ Hb Hg) as [-> Hst].
      cbn [run]. unfold toggleTaskInProgress.
      destruct (rendered_addressed _ _ _ Hin) as (l & Hl & Hr).
      rewrite Hr in *.
      pose proof (findTask_NoDup l task Hnodup Hin) as Hfind.
      destruct (mutateTask_changes_found tab (id task) toggleProgress s l task
                  Hl Hfind) as (rest & H1 & H2).
      rewrite H2. rewrite H1 in Hall.
      apply Forall_app in Hall as [Hrem Hrest].
      apply Forall_app. split; [|done].
      apply Forall_cons. split; [|apply Forall_nil_2].
      by apply toggleProgress_not_completed.
    + by destruct (_ || _).
    + destruct (id task =? 0); [done|]. by destruct tab.
    + destruct (id task =? 0); [done|]. case_bool_decide; [done|].
      by destruct tab, targetCategory.
  - apply run_inSync; [|done|done].
    intros cloudData ->.
    destruct g as [b typed| | |]; cbn [gesture] in Hg.
    + case_bool_decide; [|done]. unfold click in Hg.
      destruct b; try done. by destruct (_ && _).
    + by destruct (_ || _).
    + destruct (id task =? 0); [done|]. by destruct tab.
    + destruct (id task =? 0); [done|]. case_bool_decide; [done|].
      by destruct tab, targetCategory.
Qed.

Lemma gesture_keeps_inSync_witness :
  Forall (λ t, inSync t = true)
    (allTasks (tasks (finalState
       (run (JSDate.fixedOffset 0) 9000
          (OpToggleTaskInProgress (Dated Personal) 2000) busyState)))).
Proof.
  apply (gesture_keeps_inSync (JSDate.fixedOffset 0) 9000 (Dated Personal)
           callBob (Click ProgressBtn "") busyState
           (OpToggleTaskInProgress (Dated Personal) 2000)).
  - apply (bool_decide_unpack _). vm_compute. exact I.
  - apply (bool_decide_unpack _). vm_compute. exact I.
  - vm_compute. reflexivity.
  - apply (bool_decide_unpack _). vm_compute. exact I.
Defined.

(** * Date keys as strings *)

Section KeyOrder.

Lemma string_compare_refl (x : string) : String.compare x x = Eq.
Proof.
  induction x as [|c x IH]; [done|]. cbn [String.compare].
  unfold Ascii.compare. by rewrite N.compare_refl.
Qed.

Lemma string_compare_Lt_trans (x y z : string) :
  String.compare x y = Lt → String.compare y z = Lt → String.compare x z = Lt.
Proof.
  revert y z. induction x as [|a x IH]; intros [|b y] [|c z]; cbn [String.compare];
    try done.
  unfold Ascii.compare.
  destruct (N.compare_spec (N_of_ascii a) (N_of_ascii b)) as [Hab|Hab|Hab];
    destruct (N.compare_spec (N_of_ascii b) (N_of_ascii c)) as [Hbc|Hbc|Hbc];
    try done; intros H1 H2.
  - rewrite Hab, Hbc, N.compare_refl. by apply (IH y z).
  - rewrite Hab. by apply N.compare_lt_iff in Hbc as ->.
  - rewrite <-Hbc. by apply N.compare_lt_iff in Hab as ->.
  - assert (N_of_ascii a < N_of_ascii c)%N as Hac by lia.
    by apply N.compare_lt_iff in Hac as ->.
Qed.

Lemma keysGoUpOn_spec k a :
  keysGoUpOn k a = true →
  ∀ n, a ≤ n < a + 2 ^ Z.of_nat k →
    String.compare (JSDate.isoDateOfDay n) (JSDate.isoDateOfDay (n + 1)) = Lt.
Proof.
  revert a. induction k as [|k IH]; intros a; cbn [keysGoUpOn].
  - intros H n Hn. apply bool_decide_eq_true in H.
    replace n with a by (change (2 ^ Z.of_nat 0) with 1 in Hn; lia). done.
  - intros [H1 H2]%andb_true_iff n Hn.
    rewrite Nat2Z.inj_succ, Z.pow_succ_r in Hn by lia.
    destruct (decide (n < a + 2 ^ Z.of_nat k)).
    + apply (IH a H1). lia.
    + apply (IH _ H2). lia.
Qed.

Lemma isoDateOfDay_step n :
  0 ≤ n < 65536 →
  String.compare (JSDate.isoDateOfDay n) (JSDate.isoDateOfDay (n + 1)) = Lt.
Proof.
  intros Hn. apply (keysGoUpOn_spec 16 0); [vm_compute; reflexivity|].
  change (2 ^ Z.of_nat 16) with 65536. lia.
Qed.

Lemma isoDateOfDay_mono a b :
  0 ≤ a → a < b → b ≤ 65536 →
  String.compare (JSDate.isoDateOfDay a) (JSDate.isoDateOfDay b) = Lt.
Proof.
  intros Ha Hab Hb.
  replace b with (a + 1 + Z.of_nat (Z.to_nat (b - a - 1))) by lia.
  assert (a + 1 + Z.of_nat (Z.to_nat (b - a - 1)) ≤ 65536) as Hle by lia.
  revert Hle. generalize (Z.to_nat (b - a - 1)). intros d.
  induction d as [|d IH]; intros Hle.
  - rewrite Z.add_0_r. apply isoDateOfDay_step. lia.
  - apply (string_compare_Lt_trans _ (JSDate.isoDateOfDay (a + 1 + Z.of_nat d))).
    + apply IH. lia.
    + replace (a + 1 + Z.of_nat (S d)) with (a + 1 + Z.of_nat d + 1) by lia.
      apply isoDateOfDay_step. lia.
Qed.

Lemma isoDateOfDay_compare a b :
  0 ≤ a ≤ 65536 → 0 ≤ b ≤ 65536 →
  String.compare (JSDate.isoDateOfDay a) (JSDate.isoDateOfDay b) = (a ?= b).
Proof.
  intros Ha Hb. destruct (Z.compare_spec a b) as [->|Hlt|Hgt].
  - apply string_compare_refl.
  - apply isoDateOfDay_mono; lia.
  - rewrite String.compare_antisym.
    rewrite isoDateOfDay_mono by lia. done.
Qed.
Lemma formatDateKey_compare date1 date2 :
  0 ≤ date1 < 65536 * JSDate.msPerDay →
  0 ≤ date2 < 65536 * JSDate.msPerDay →
  String.compare (formatDateKey date1) (formatDateKey date2)
  = (JSDate.Day date1 ?= JSDate.Day date2).
Proof.
  intros H1 H2. unfold formatDateKey, JSDate.toISODate.
  assert (∀ t, 0 ≤ t < 65536 * JSDate.msPerDay → 0 ≤ JSDate.Day t ≤ 65536) as Hday.
  { intros t Ht. unfold JSDate.Day, JSDate.msPerDay in *. split.
    - apply Z.div_pos; lia.
    - apply Z.lt_le_incl, Z.div_lt_upper_bound; lia. }
  apply isoDateOfDay_compare; by apply Hday.
Qed.
End KeyOrder.

(** X18.  From 1970-01-01 to 2149-06-06 the keys of two dates compare as
    strings the way their (UTC) days compare: the order [renderTasks] reads
    off two keys is the order of the days, and two dates have the same key
    exactly when they fall on the same day. *)
Theorem formatDateKey_order date1 date2 :
  0 ≤ date1 < 65536 * JSDate.msPerDay →
  0 ≤ date2 < 65536 * JSDate.msPerDay →
  String.compare (formatDateKey date1) (formatDateKey date2)
  = (JSDate.Day date1 ?= JSDate.Day date2)
  ∧ (formatDateKey date1 = formatDateKey date2
     ↔ JSDate.Day date1 = JSDate.Day date2).
Proof.
  intros H1 H2. pose proof (formatDateKey_compare date1 date2 H1 H2) as Hcmp.
  split; [done|]. split.
  - intros Heq. rewrite Heq, string_compare_refl in Hcmp.
    symmetry in Hcmp. by apply Z.compare_eq in Hcmp.
  - intros Heq. unfold formatDateKey, JSDate.toISODate. rewrite Heq. reflexivity.
Qed.

Lemma formatDateKey_order_witness :
  String.compare (formatDateKey noon_2024_03_05)
    (formatDateKey localMidnight_2024_03_06_utc2)
  = (JSDate.Day noon_2024_03_05 ?= JSDate.Day localMidnight_2024_03_06_utc2)
  ∧ (formatDateKey noon_2024_03_05 = formatDateKey localMidnight_2024_03_06_utc2
     ↔ JSDate.Day noon_2024_03_05 = JSDate.Day localMidnight_2024_03_06_utc2).
Proof.
  apply (formatDateKey_order noon_2024_03_05 localMidnight_2024_03_06_utc2);
    vm_compute; split; congruence.
Defined.

(** X19.  The class of a task that counts as completed and is not in progress,
    when its two dates are keys of dates between 1970 and 2149: completed
    on its day, later or earlier, by the days of the two dates. *)
Theorem textClass_by_days compareZeroWith task cDate oDate :
  status task ≠ InProgress →
  completed task = true ∨ status task = Completed →
  completedDate task = Some (formatDateKey cDate) →
  originalDate task = Some (formatDateKey oDate) →
  0 ≤ cDate < 65536 * JSDate.msPerDay →
  0 ≤ oDate < 65536 * JSDate.msPerDay →
  textClass compareZeroWith task
  = Some match JSDate.Day cDate ?= JSDate.Day oDate with
         | Eq => ClsCompletedToday
         | Gt => ClsCompletedFuture
         | Lt => ClsCompletedEarly
         end.
Proof.
  intros Hst Hdone Hc Ho Hcr Hor. unfold textClass.
  rewrite bool_decide_eq_false_2 by done.
  assert (completed task || bool_decide (status task = Completed) = true) as ->.
  { destruct Hdone as [-> | ->]; [done|]. by rewrite orb_true_r. }
  rewrite Hc, Ho. unfold jsGreater, jsLess.
  pose proof (formatDateKey_compare cDate oDate Hcr Hor) as Hcmp.
  pose proof (formatDateKey_compare oDate cDate Hor Hcr) as Hcmp'.
  rewrite Hcmp, Hcmp'. rewrite (Z.compare_antisym (JSDate.Day cDate)).
  destruct (Z.compare_spec (JSDate.Day cDate) (JSDate.Day oDate)) as [Heq|Hlt|Hgt].
  - rewrite bool_decide_eq_true_2; [reflexivity|].
    unfold formatDateKey, JSDate.toISODate. rewrite Heq. reflexivity.
  - rewrite bool_decide_eq_false_2; [reflexivity|].
    intros [= Hk]. rewrite Hk, string_compare_refl in Hcmp. discriminate Hcmp.
  - rewrite bool_decide_eq_false_2; [reflexivity|].
    intros [= Hk]. rewrite Hk, string_compare_refl in Hcmp. discriminate Hcmp.
Qed.

(** [milk], completed a day late. *)
Lemma textClass_by_days_witness :
  textClass (λ _, None) (markCompleted "2024-03-06" milk)
  = Some match JSDate.Day (noon_2024_03_05 + JSDate.msPerDay)
               ?= JSDate.Day noon_2024_03_05 with
         | Eq => ClsCompletedToday
         | Gt => ClsCompletedFuture
         | Lt => ClsCompletedEarly
         end.
Proof.
  apply (textClass_by_days (λ _, None) (markCompleted "2024-03-06" milk)
           (noon_2024_03_05 + JSDate.msPerDay) noon_2024_03_05).
  - vm_compute. congruence.
  - left. vm_compute. reflexivity.
  - vm_compute. reflexivity.
  - vm_compute. reflexivity.
  - vm_compute. split; congruence.
  - vm_compute. split; congruence.
Defined.

(** * The calendar and the date key *)

Lemma Day_local_midnight n offset :
  JSDate.Day (n * JSDate.msPerDay - offset)
  = n + (- offset) `div` JSDate.msPerDay.
Proof.
  unfold JSDate.Day, JSDate.msPerDay.
  replace (n * 86400000 - offset) with (- offset + n * 86400000) by lia.
  rewrite Z.div_add by lia. lia.
Qed.

Lemma newDate_fixed offset year month day :
  ∃ n, newDate (JSDate.fixedOffset offset) year month day
       = n * JSDate.msPerDay - offset.
Proof.
  unfold newDate, JSDate.UTC, JSDate.MakeDate.
  cbn [JSDate.LocalTZA JSDate.fixedOffset]. eexists. by rewrite Z.add_0_r.
Qed.

(** In a zone of fixed offset a cell of the calendar is local midnight of
    a day. *)
Lemma calendarCellDate_fixed offset calendarDate day :
  calendarCellDate (JSDate.fixedOffset offset) calendarDate day
  = calendarCellDay (JSDate.fixedOffset offset) calendarDate day * JSDate.msPerDay
    - offset.
Proof.
  unfold calendarCellDay, calendarCellDate.
  destruct (newDate_fixed offset
              (getFullYear (JSDate.fixedOffset offset) calendarDate)
              (getMonth (JSDate.fixedOffset offset) calendarDate) day) as [n ->].
  unfold JSDate.LocalTime. cbn [JSDate.LocalTZA JSDate.fixedOffset].
  replace (n * JSDate.msPerDay - offset + offset)
    with (n * JSDate.msPerDay - 0) by lia.
  rewrite Day_local_midnight. rewrite Z.opp_0, Z.div_0_l by done. lia.
Qed.

Lemma calendarCell_fixed offset calendarDate day :
  (- JSDate.msPerDay) < offset ≤ JSDate.msPerDay →
  JSDate.localCalendarDate (JSDate.fixedOffset offset)
    (calendarCellDate (JSDate.fixedOffset offset) calendarDate day)
  = JSDate.isoDateOfDay (calendarCellDay (JSDate.fixedOffset offset) calendarDate day)
  ∧ formatDateKey (calendarCellDate (JSDate.fixedOffset offset) calendarDate day)
    = JSDate.isoDateOfDay
        (if 0 <? offset
         then calendarCellDay (JSDate.fixedOffset offset) calendarDate day - 1
         else calendarCellDay (JSDate.fixedOffset offset) calendarDate day).
Proof.
  intros Hoff. split.
  { unfold JSDate.localCalendarDate, calendarCellDay. reflexivity. }
  rewrite calendarCellDate_fixed.
  generalize (calendarCellDay (JSDate.fixedOffset offset) calendarDate day).
  intros cell.
  unfold formatDateKey, JSDate.toISODate. f_equal.
  rewrite Day_local_midnight. unfold JSDate.msPerDay in *.
  destruct (Z.ltb_spec 0 offset).
  - rewrite <-(Z.div_unique (- offset) 86400000 (-1) (86400000 - offset)); lia.
  - rewrite <-(Z.div_unique (- offset) 86400000 0 (- offset)); lia.
Qed.

Lemma monthStartsOn_spec k a :
  monthStartsOn k a = true →
  ∀ n, a ≤ n < a + 2 ^ Z.of_nat k →
    let '(y, m, d) := JSDate.civilFromDays n in
    daysFromCivil y m 1 + (d - 1) = n ∧ 100 ≤ y.
Proof.
  revert a. induction k as [|k IH]; intros a; cbn [monthStartsOn].
  - intros H n Hn.
    replace n with a by (change (2 ^ Z.of_nat 0) with 1 in Hn; lia).
    destruct (JSDate.civilFromDays a) as [[y m] d].
    apply andb_true_iff in H as [H1 H2]. apply bool_decide_eq_true in H1.
    split; [done | lia].
  - intros [H1 H2]%andb_true_iff n Hn.
    rewrite Nat2Z.inj_succ, Z.pow_succ_r in Hn by lia.
    destruct (decide (n < a + 2 ^ Z.of_nat k)).
    + apply (IH a H1). lia.
    + apply (IH _ H2). lia.
Qed.

(** The cell of day [d] of the month the calendar shows is the [d]-th day
    of that month: for the day of the month of [calendarDate] itself it is
    the local day of [calendarDate]. *)
Lemma calendarCellDay_of_shown_day offset calendarDate :
  let tz := JSDate.fixedOffset offset in
  0 ≤ JSDate.Day (JSDate.LocalTime tz calendarDate) < 65536 →
  calendarCellDay tz calendarDate (JSDate.getDate tz calendarDate)
  = JSDate.Day (JSDate.LocalTime tz calendarDate).
Proof.
  intros tz Hrange.
  pose proof (monthStartsOn_spec 16 0) as Hcheck.
  assert (monthStartsOn 16 0 = true) as Hrun by (vm_compute; reflexivity).
  specialize (Hcheck Hrun (JSDate.Day (JSDate.LocalTime tz calendarDate))).
  change (2 ^ Z.of_nat 16) with 65536 in Hcheck.
  assert (0 ≤ JSDate.Day (JSDate.LocalTime tz calendarDate) < 0 + 65536) as Hr by lia.
  specialize (Hcheck Hr).
  subst tz. rewrite <-(Z.mul_cancel_r _ _ JSDate.msPerDay) by done.
  apply (Z.sub_cancel_r _ _ offset). rewrite <-calendarCellDate_fixed.
  unfold calendarCellDate, newDate, getFullYear, getMonth, JSDate.getDate,
    JSDate.DateFromTime.
  destruct (JSDate.civilFromDays
              (JSDate.Day (JSDate.LocalTime (JSDate.fixedOffset offset) calendarDate)))
    as [[y m] d].
  destruct Hcheck as [Hday Hy]. cbn [fst snd].
  replace ((0 <=? y) && (y <=? 99)) with false
    by (symmetry; apply andb_false_iff; right; apply Z.leb_gt; lia).
  replace (m - 1 + 1) with m by lia. rewrite Hday.
  unfold JSDate.UTC, JSDate.MakeDate. cbn [JSDate.LocalTZA JSDate.fixedOffset].
  lia.
Qed.

(** X20.  In a time zone of fixed offset the cell of a day in the calendar
    stands for local midnight of a day, and that day is what the user then
    sees; its key is the key of that day at or west of Greenwich, and the
    key of the day before east of Greenwich. *)
Theorem calendar_cell_key offset calendarDate day :
  let tz := JSDate.fixedOffset offset in
  let cell := calendarCellDay tz calendarDate day in
  let date := calendarCellDate tz calendarDate day in
  (- JSDate.msPerDay) < offset ≤ JSDate.msPerDay →
  date = cell * JSDate.msPerDay - offset
  ∧ JSDate.localCalendarDate tz date = JSDate.isoDateOfDay cell
  ∧ formatDateKey date
    = JSDate.isoDateOfDay (if 0 <? offset then cell - 1 else cell).
Proof.
  intros tz cell date Hoff. split; [apply calendarCellDate_fixed|].
  by apply calendarCell_fixed.
Qed.

Lemma calendar_cell_key_witness :
  JSDate.localCalendarDate (JSDate.fixedOffset 7200000)
    (calendarCellDate (JSDate.fixedOffset 7200000) noon_2024_03_05 6)
  = "2024-03-06"
  ∧ formatDateKey (calendarCellDate (JSDate.fixedOffset 7200000) noon_2024_03_05 6)
    = "2024-03-05".
Proof.
  pose proof (calendar_cell_key 7200000 noon_2024_03_05 6) as H.
  cbv zeta in H.
  assert ((- JSDate.msPerDay) < 7200000 ≤ JSDate.msPerDay) as Hoff
    by (vm_compute; split; congruence).
  destruct (H Hoff) as (_ & H1 & H2). split.
  - rewrite H1. vm_compute. reflexivity.
  - rewrite H2. vm_compute. reflexivity.
Defined.

(** X21.  East of Greenwich, at a time of day later than the offset of the zone
    (after 02:00 two hours east), the planner views the key of the local
    day.  A click on the calendar cell of that very day leaves the date
    shown as it is and makes the planner view the key of the day before:
    the tasks listed for the day are then those of another array. *)
Theorem calendar_click_on_shown_day offset s :
  let tz := JSDate.fixedOffset offset in
  let localDay := JSDate.Day (JSDate.LocalTime tz (currentDate s)) in
  0 < offset ≤ JSDate.TimeWithinDay (JSDate.LocalTime tz (currentDate s)) →
  0 < localDay < 65536 →
  ∃ s',
    clickCalendarDay tz (JSDate.getDate tz (currentDate s)) s = Returned s'
    ∧ tasks s' = tasks s
    ∧ JSDate.localCalendarDate tz (currentDate s')
      = JSDate.localCalendarDate tz (currentDate s)
    ∧ getDateKey s = JSDate.isoDateOfDay localDay
    ∧ getDateKey s' = JSDate.isoDateOfDay (localDay - 1)
    ∧ getDateKey s' ≠ getDateKey s.
Proof.
  intros tz localDay Hoff Hday.
  assert (JSDate.TimeWithinDay (JSDate.LocalTime tz (currentDate s))
          < JSDate.msPerDay) as Hmod.
  { unfold JSDate.TimeWithinDay, JSDate.msPerDay. apply Z.mod_pos_bound. lia. }
  assert (calendarCellDay tz (currentDate s) (JSDate.getDate tz (currentDate s))
          = localDay) as Hcell.
  { apply calendarCellDay_of_shown_day. fold tz localDay. lia. }
  destruct (calendarCell_fixed offset (currentDate s)
              (JSDate.getDate tz (currentDate s))) as [Hshow Hkey]; [lia|].
  fold tz in Hshow, Hkey. rewrite Hcell in Hshow, Hkey.
  assert ((0 <? offset) = true) as Hpos by (apply Z.ltb_lt; lia).
  rewrite Hpos in Hkey.
  assert (getDateKey s = JSDate.isoDateOfDay localDay) as Hnow.
  { unfold getDateKey, formatDateKey, JSDate.toISODate. f_equal.
    subst localDay. unfold JSDate.LocalTime, JSDate.TimeWithinDay, JSDate.Day,
      JSDate.msPerDay in *.
    cbn [JSDate.LocalTZA tz JSDate.fixedOffset] in *.
    pose proof (Z.div_mod (currentDate s + offset) 86400000).
    symmetry.
    apply (Z.div_unique _ _ _ ((currentDate s + offset) `mod` 86400000 - offset));
      lia. }
  unfold clickCalendarDay, selectDate.
  eexists. split; [reflexivity|]. cbn [tasks currentDate].
  split; [reflexivity|]. split.
  - rewrite Hshow. unfold JSDate.localCalendarDate. reflexivity.
  - split; [exact Hnow|].
    assert (getDateKey
              {| currentDate :=
                   calendarCellDate tz (currentDate s)
                     (JSDate.getDate tz (currentDate s));
                 tasks := tasks s |}
            = JSDate.isoDateOfDay (localDay - 1)) as Hthen by exact Hkey.
    split; [exact Hthen|].
    rewrite Hthen, Hnow. intros Heq.
    pose proof (isoDateOfDay_compare (localDay - 1) localDay) as Hcmp.
    rewrite Heq, string_compare_refl in Hcmp.
    assert ((localDay - 1 ?= localDay) = Lt) as Hlt by (apply Z.compare_lt_iff; lia).
    rewrite Hlt in Hcmp. assert (Eq = Lt) as Habs by (apply Hcmp; lia).
    discriminate Habs.
Qed.

(** Ten in the morning of 5 March 2024, two hours east of Greenwich. *)
Lemma calendar_click_on_shown_day_witness :
  ∃ s',
    clickCalendarDay (JSDate.fixedOffset 7200000)
      (JSDate.getDate (JSDate.fixedOffset 7200000) (noon_2024_03_05 - 14400000))
      {| currentDate := noon_2024_03_05 - 14400000; tasks := tasks busyState |}
    = Returned s'
    ∧ getDateKey s' = "2024-03-04".
Proof.
  destruct (calendar_click_on_shown_day 7200000
              {| currentDate := noon_2024_03_05 - 14400000;
                 tasks := tasks busyState |})
    as (s' & Hs' & _ & _ & _ & Hkey & _).
  - vm_compute. split; congruence.
  - vm_compute. split; congruence.
  - exists s'. split; [exact Hs'|]. rewrite Hkey. vm_compute. reflexivity.
Defined.

(** * Further properties of the sync merge *)

Section MergeMore.
Implicit Types (l r : list Task) (t : Task).
Implicit Types (cloud local : gmap string (gmap string (list Task))).


Lemma mergeDates_self (dates : gmap string (list Task)) :
  map_fold mergeDate dates dates = dates.
Proof.
  apply map_eq. intros date. rewrite mergeDates_lookup.
  unfold mergeBucket. destruct (dates !! date); [|done].
  by rewrite pushMissing_self.
Qed.
End MergeMore.




(** X24.  With nothing downloaded the merge leaves the local store as it is, and
    merging a store into itself changes nothing: a second sync, when nobody
    else has written to the gist, leaves the tasks alone. *)
Theorem merge_trivial_cases (x : gmap string (gmap string (list Task))) :
  mergeTaskData ∅ x = x ∧ mergeTaskData x x = x.
Proof.
  split; [done|].
  apply map_eq. intros category. rewrite mergeTaskData_lookup.
  destruct (x !! category) as [dates|]; [|done].
  cbn [default]. by rewrite mergeDates_self.
Qed.

(** * The gist *)

Section GitHubFacts.
Context {Server Data : Type}.
Variable api : GitHub.Api Server.
Variable stringify : Data → string.
Variable parse : string → GitHub.Result Data.
Implicit Types (w : GitHub.World Server).

Lemma ranWith_refl w : GitHub.ranWith w w [].
Proof. split; [done|]. split; [done|]. by rewrite app_nil_r. Qed.

Lemma ranWith_trans w1 w2 w3 new1 new2 :
  GitHub.ranWith w1 w2 new1 → GitHub.ranWith w2 w3 new2 →
  GitHub.ranWith w1 w3 (new1 ++ new2).
Proof.
  intros (Ht1 & Hm1 & Hs1) (Ht2 & Hm2 & Hs2). split; [congruence|].
  split; [auto|]. by rewrite Hs2, Hs1, (assoc_L (++)).
Qed.

Lemma ranWith_fetch {A} request (endpoint : Server → GitHub.Reply A * Server)
    w r w' :
  GitHub.fetch request endpoint w = (r, w') →
  GitHub.ranWith w w' [request] ∧ GitHub.sync w' = GitHub.sync w
  ∧ ∃ reply, r = GitHub.Ok reply.
Proof.
  unfold GitHub.fetch. destruct (endpoint (GitHub.server w)) as [reply server'].
  intros [= <- <-]. split; [|split; [done | by eexists]].
  split; [done|]. split; [|done].
  unfold GitHub.mirrored. by cbn.
Qed.

Lemma ranWith_storeGistId gistId0 w :
  GitHub.ranWith w (GitHub.storeGistId gistId0 w).2 [].
Proof.
  split; [done|]. split; [|by rewrite app_nil_r].
  unfold GitHub.mirrored, GitHub.constructor. cbn. intros ->. cbn.
  rewrite lookup_insert_eq. by rewrite lookup_insert_ne.
Qed.

Lemma hasToken_Some w :
  GitHub.hasToken w = true →
  ∃ token0, GitHub.token (GitHub.sync w) = Some token0 ∧ truthy token0 = true.
Proof.
  unfold GitHub.hasToken, GitHub.truthyOpt.
  destruct (GitHub.token (GitHub.sync w)) as [token0|]; [|done]. by exists token0.
Qed.

Lemma requireToken_Some w token0 :
  GitHub.token (GitHub.sync w) = Some token0 → truthy token0 = true →
  GitHub.requireToken w = (GitHub.Ok token0, w).
Proof. unfold GitHub.requireToken. by intros -> ->. Qed.

Lemma requireToken_None {A} (f : string → GitHub.M Server A) w :
  GitHub.hasToken w = false →
  GitHub.bind GitHub.requireToken f w = (GitHub.Err "GitHub token not set", w).
Proof.
  unfold GitHub.hasToken, GitHub.truthyOpt, GitHub.bind, GitHub.requireToken.
  destruct (GitHub.token (GitHub.sync w)) as [token0|]; [|done]. by intros ->.
Qed.

Lemma findExistingGist_spec w token0 :
  GitHub.token (GitHub.sync w) = Some token0 → truthy token0 = true →
  ∃ found w',
    GitHub.findExistingGist api w = (GitHub.Ok found, w')
    ∧ GitHub.ranWith w w' [GitHub.ListGists token0].
Proof.
  intros Htok Htruthy.
  unfold GitHub.findExistingGist, GitHub.bind at 1.
  rewrite (requireToken_Some w token0 Htok Htruthy).
  unfold GitHub.tryCatch, GitHub.bind.
  destruct (GitHub.fetch (GitHub.ListGists token0) (GitHub.listGists api token0) w)
    as [r1 w1] eqn:Hfetch.
  apply ranWith_fetch in Hfetch as (Hran & _ & reply & ->).
  destruct reply as [message|status errorData|[gists|message]];
    unfold GitHub.throw, GitHub.ret; try (by eexists _, _).
  destruct (find GitHub.isTodoGist gists) as [todoGist|]; try (by eexists _, _).
  eexists _, _. split; [reflexivity|].
  rewrite <-(app_nil_r [GitHub.ListGists token0]).
  eapply ranWith_trans; [exact Hran|]. apply ranWith_storeGistId.
Qed.

Lemma findUnlessKnown_spec w token0 :
  GitHub.token (GitHub.sync w) = Some token0 → truthy token0 = true →
  ∃ w' lookup,
    GitHub.findUnlessKnown api w = (GitHub.Ok tt, w')
    ∧ GitHub.ranWith w w' lookup
    ∧ (lookup = [] ∧ w' = w
       ∨ lookup = [GitHub.ListGists token0]
         ∧ GitHub.truthyOpt (GitHub.gistId (GitHub.sync w)) = false).
Proof.
  intros Htok Htruthy. unfold GitHub.findUnlessKnown, GitHub.bind, GitHub.readSync.
  destruct (GitHub.truthyOpt (GitHub.gistId (GitHub.sync w))) eqn:Hknown.
  - exists w, []. split; [done|]. split; [apply ranWith_refl | by left].
  - destruct (findExistingGist_spec w token0 Htok Htruthy) as (found & w' & -> & Hran).
    exists w', [GitHub.ListGists token0]. split; [done|]. split; [done | by right].
Qed.

(** An upload, when there is a token: at most one listing, then one
    request that carries the data. *)
Lemma createOrUpdateGist_spec data w token0 :
  GitHub.token (GitHub.sync w) = Some token0 → truthy token0 = true →
  ∃ r w' lookup upload,
    GitHub.createOrUpdateGist api stringify data w = (r, w')
    ∧ GitHub.ranWith w w' (lookup ++ [upload])
    ∧ (lookup = [] ∨ lookup = [GitHub.ListGists token0])
    ∧ GitHub.requestToken upload = token0
    ∧ GitHub.uploadedContent upload = Some (stringify data).
Proof.
  intros Htok Htruthy. unfold GitHub.createOrUpdateGist, GitHub.bind at 1.
  rewrite (requireToken_Some w token0 Htok Htruthy).
  unfold GitHub.bind at 1.
  destruct (findUnlessKnown_spec w token0 Htok Htruthy)
    as (w1 & lookup & -> & Hran1 & Hlookup).
  unfold GitHub.bind at 1. unfold GitHub.readSync at 1.
  assert (∃ upload,
    GitHub.requestToken upload = token0
    ∧ GitHub.uploadedContent upload = Some (stringify data)
    ∧ ∃ reply w2,
        match GitHub.gistId (GitHub.sync w1) with
        | Some gistId0 =>
            if truthy gistId0
            then GitHub.fetch (GitHub.PatchGist gistId0 token0 (stringify data))
                   (GitHub.patchGist api gistId0 token0 (stringify data))
            else GitHub.fetch (GitHub.PostGist token0 (stringify data))
                   (GitHub.postGist api token0 (stringify data))
        | None => GitHub.fetch (GitHub.PostGist token0 (stringify data))
                    (GitHub.postGist api token0 (stringify data))
        end w1 = (GitHub.Ok reply, w2)
        ∧ GitHub.ranWith w1 w2 [upload]) as (upload & Hut & Huc & reply & w2 & Hup & Hran2).
  { destruct (GitHub.gistId (GitHub.sync w1)) as [gistId0|];
      [destruct (truthy gistId0)|].
    - destruct (GitHub.fetch (GitHub.PatchGist gistId0 token0 (stringify data))
                  (GitHub.patchGist api gistId0 token0 (stringify data)) w1)
        as [r2 w2] eqn:Hf.
      apply ranWith_fetch in Hf as (Hran & _ & reply & ->).
      by exists (GitHub.PatchGist gistId0 token0 (stringify data)); eauto 10.
    - destruct (GitHub.fetch (GitHub.PostGist token0 (stringify data))
                  (GitHub.postGist api token0 (stringify data)) w1)
        as [r2 w2] eqn:Hf.
      apply ranWith_fetch in Hf as (Hran & _ & reply & ->).
      by exists (GitHub.PostGist token0 (stringify data)); eauto 10.
    - destruct (GitHub.fetch (GitHub.PostGist token0 (stringify data))
                  (GitHub.postGist api token0 (stringify data)) w1)
        as [r2 w2] eqn:Hf.
      apply ranWith_fetch in Hf as (Hran & _ & reply & ->).
      by exists (GitHub.PostGist token0 (stringify data)); eauto 10. }
  unfold GitHub.bind at 1. rewrite Hup.
  pose proof (ranWith_trans _ _ _ _ _ Hran1 Hran2) as Hran.
  assert (lookup = [] ∨ lookup = [GitHub.ListGists token0]) as Hl
    by (destruct Hlookup as [[-> _]|[-> _]]; eauto).
  destruct reply as [message|status errorData|[result|message]];
    unfold GitHub.throw; try (by eexists _, w2, lookup, upload).
  unfold GitHub.bind, GitHub.readSync, GitHub.ret.
  destruct (GitHub.truthyOpt (GitHub.gistId (GitHub.sync w2)));
    [by eexists _, w2, lookup, upload|].
  eexists _, _, lookup, upload. split; [reflexivity|]. split; [|done].
  rewrite <-(app_nil_r (lookup ++ [upload])).
  eapply ranWith_trans; [exact Hran|]. apply ranWith_storeGistId.
Qed.

(** A download, when there is a token: at most one listing and at most one
    request for the gist; nothing is uploaded. *)
Lemma downloadFromGist_spec w token0 :
  GitHub.token (GitHub.sync w) = Some token0 → truthy token0 = true →
  ∃ r w' new,
    GitHub.downloadFromGist api parse w = (r, w')
    ∧ GitHub.ranWith w w' new
    ∧ (length new ≤ 2)%nat
    ∧ Forall (λ request, GitHub.requestToken request = token0
                         ∧ GitHub.uploadedContent request = None) new.
Proof.
  intros Htok Htruthy. unfold GitHub.downloadFromGist, GitHub.bind at 1.
  rewrite (requireToken_Some w token0 Htok Htruthy).
  unfold GitHub.bind at 1.
  destruct (findUnlessKnown_spec w token0 Htok Htruthy)
    as (w1 & lookup & -> & Hran1 & Hlookup).
  unfold GitHub.bind at 1. unfold GitHub.readSync at 1.
  assert ((length lookup ≤ 1)%nat
          ∧ Forall (λ request, GitHub.requestToken request = token0
                               ∧ GitHub.uploadedContent request = None) lookup)
    as [Hlen Hall].
  { destruct Hlookup as [[-> _]|[-> _]]; cbn; split; try lia; by repeat constructor. }
  assert (∀ message,
    ∃ r w' new,
      @GitHub.throw Server Data message w1 = (r, w')
      ∧ GitHub.ranWith w w' new ∧ (length new ≤ 2)%nat
      ∧ Forall (λ request, GitHub.requestToken request = token0
                           ∧ GitHub.uploadedContent request = None) new) as Hthrow.
  { intros message. exists (GitHub.Err message), w1, lookup.
    split; [done|]. split; [done|]. split; [lia | done]. }
  destruct (GitHub.gistId (GitHub.sync w1)) as [gistId0|]; [|apply Hthrow].
  destruct (truthy gistId0); [|apply Hthrow].
  unfold GitHub.bind.
  destruct (GitHub.fetch (GitHub.GetGist gistId0 token0)
              (GitHub.getGist api gistId0 token0) w1) as [r2 w2] eqn:Hf.
  apply ranWith_fetch in Hf as (Hran2 & _ & reply & ->).
  pose proof (ranWith_trans _ _ _ _ _ Hran1 Hran2) as Hran.
  assert (∀ r : GitHub.Result Data,
    ∃ r0 w' new,
      (r, w2) = (r0, w')
      ∧ GitHub.ranWith w w' new ∧ (length new ≤ 2)%nat
      ∧ Forall (λ request, GitHub.requestToken request = token0
                           ∧ GitHub.uploadedContent request = None) new) as Hend.
  { intros r. exists r, w2, (lookup ++ [GitHub.GetGist gistId0 token0]).
    split; [done|]. split; [done|]. split.
    - rewrite length_app. cbn. lia.
    - apply Forall_app. split; [done|]. by repeat constructor. }
  destruct reply as [message|status errorData|[gist|message]];
    unfold GitHub.throw, GitHub.ret; try apply Hend.
  destruct (GitHub.files gist !! "todo-data.json") as [[fileContent|]|];
    try apply Hend.
  destruct (truthy fileContent); [|apply Hend].
  destruct (parse fileContent); apply Hend.
Qed.
End GitHubFacts.

(** ** The object and [localStorage] *)

(** X25.  The [GitHubSync] object agrees with [localStorage] after every method
    and handler if it did before: what [new GitHubSync()] reads on the next
    page load is the token and the gist id the object had. *)
Theorem sync_stays_mirrored {Server Data : Type} (api : GitHub.Api Server)
    (stringify : Data → string) (parse : string → GitHub.Result Data)
    (data : Data) (inputValue : string) (w : GitHub.World Server) :
  GitHub.mirrored w →
  GitHub.mirrored (GitHub.createOrUpdateGist api stringify data w).2
  ∧ GitHub.mirrored (GitHub.downloadFromGist api parse w).2
  ∧ GitHub.mirrored (GitHub.handleUpload api stringify data w).2
  ∧ GitHub.mirrored (GitHub.handleDownloadFetch api parse w).2
  ∧ GitHub.mirrored (GitHub.saveGitHubToken inputValue w).2
  ∧ GitHub.mirrored (GitHub.clearGitHubToken w).2.
Proof.
  intros Hm.
  assert (GitHub.mirrored (GitHub.createOrUpdateGist api stringify data w).2) as Hup.
  { destruct (GitHub.hasToken w) eqn:Htok.
    - destruct (hasToken_Some w Htok) as (token0 & Ht & Htr).
      destruct (createOrUpdateGist_spec api stringify data w token0 Ht Htr)
        as (r & w' & lookup & upload & -> & (_ & Hm' & _) & _). by apply Hm'.
    - unfold GitHub.createOrUpdateGist. by rewrite requireToken_None. }
  assert (GitHub.mirrored (GitHub.downloadFromGist api parse w).2) as Hdown.
  { destruct (GitHub.hasToken w) eqn:Htok.
    - destruct (hasToken_Some w Htok) as (token0 & Ht & Htr).
      destruct (downloadFromGist_spec api parse w token0 Ht Htr)
        as (r & w' & new & -> & (_ & Hm' & _) & _). by apply Hm'.
    - unfold GitHub.downloadFromGist. by rewrite requireToken_None. }
  split; [done|]. split; [done|]. split; [|split; [|split]].
  - unfold GitHub.handleUpload. destruct (GitHub.hasToken w); [|done]. cbn [negb].
    by destruct (GitHub.createOrUpdateGist api stringify data w) as [[?|?] ?].
  - unfold GitHub.handleDownloadFetch. destruct (GitHub.hasToken w); [|done].
    cbn [negb].
    by destruct (GitHub.downloadFromGist api parse w) as [[?|?] ?].
  - unfold GitHub.saveGitHubToken. destruct (negb (truthy _)); [done|].
    destruct (_ && _); [done|]. cbn [snd].
    unfold GitHub.mirrored, GitHub.constructor, GitHub.setToken in *. cbn.
    rewrite Hm. cbn. rewrite lookup_insert_eq. by rewrite lookup_insert_ne.
  - unfold GitHub.clearGitHubToken, GitHub.clearToken, GitHub.mirrored,
      GitHub.constructor. cbn.
    rewrite lookup_delete_eq. rewrite lookup_delete_ne by done.
    by rewrite lookup_delete_eq.
Qed.

Lemma sync_stays_mirrored_witness :
  GitHub.mirrored
    (GitHub.createOrUpdateGist GitHub.sampleApi (λ data : string, data)
       "{}" GitHub.sampleWorld).2
  ∧ GitHub.mirrored
      (GitHub.downloadFromGist GitHub.sampleApi (λ content, GitHub.Ok content)
         GitHub.sampleWorld).2
  ∧ GitHub.mirrored
      (GitHub.handleUpload GitHub.sampleApi (λ data : string, data)
         "{}" GitHub.sampleWorld).2
  ∧ GitHub.mirrored
      (GitHub.handleDownloadFetch GitHub.sampleApi (λ content, GitHub.Ok content)
         GitHub.sampleWorld).2
  ∧ GitHub.mirrored (GitHub.saveGitHubToken " ghp_other " GitHub.sampleWorld).2
  ∧ GitHub.mirrored (GitHub.clearGitHubToken GitHub.sampleWorld).2.
Proof.
  apply (sync_stays_mirrored GitHub.sampleApi (λ data : string, data)
           (λ content, GitHub.Ok content) "{}" " ghp_other " GitHub.sampleWorld).
  vm_compute. reflexivity.
Defined.

(** X26.  Every request of an upload or a download carries the token of the
    object, there are at most two of them, and none is sent when the object
    has no token. *)
Theorem requests_carry_the_token {Server Data : Type} (api : GitHub.Api Server)
    (stringify : Data → string) (parse : string → GitHub.Result Data)
    (data : Data) (w : GitHub.World Server) :
  (∃ new,
     GitHub.sent (GitHub.createOrUpdateGist api stringify data w).2
     = GitHub.sent w ++ new
     ∧ (length new ≤ 2)%nat
     ∧ Forall (λ request,
                 GitHub.hasToken w = true
                 ∧ GitHub.token (GitHub.sync w)
                   = Some (GitHub.requestToken request)) new)
  ∧ (∃ new,
       GitHub.sent (GitHub.downloadFromGist api parse w).2 = GitHub.sent w ++ new
       ∧ (length new ≤ 2)%nat
       ∧ Forall (λ request,
                   GitHub.hasToken w = true
                   ∧ GitHub.token (GitHub.sync w)
                     = Some (GitHub.requestToken request)) new).
Proof.
  destruct (GitHub.hasToken w) eqn:Htok.
  - destruct (hasToken_Some w Htok) as (token0 & Ht & Htr). split.
    + destruct (createOrUpdateGist_spec api stringify data w token0 Ht Htr)
        as (r & w' & lookup & upload & -> & (_ & _ & Hsent) & Hl & Hut & _).
      exists (lookup ++ [upload]). split; [done|]. split.
      * rewrite length_app. destruct Hl as [-> | ->]; cbn; lia.
      * apply Forall_app. split.
        -- destruct Hl as [-> | ->]; by repeat constructor.
        -- repeat constructor. by rewrite Hut.
    + destruct (downloadFromGist_spec api parse w token0 Ht Htr)
        as (r & w' & new & -> & (_ & _ & Hsent) & Hlen & Hall).
      exists new. split; [done|]. split; [done|].
      eapply Forall_impl; [exact Hall|]. intros request [<- _]. by split.
  - split; exists []; (split; [|split; [cbn; lia | constructor]]);
      rewrite app_nil_r.
    + unfold GitHub.createOrUpdateGist. by rewrite requireToken_None.
    + unfold GitHub.downloadFromGist. by rewrite requireToken_None.
Qed.

(** ** Downloads and uploads *)

Lemma findExistingGist_nothing_found {Server : Type} (api : GitHub.Api Server)
    (w : GitHub.World Server) token0 reply server' :
  GitHub.token (GitHub.sync w) = Some token0 → truthy token0 = true →
  GitHub.listGists api token0 (GitHub.server w) = (reply, server') →
  (∀ gists, reply = GitHub.HttpSuccess (GitHub.Ok gists) →
            List.find GitHub.isTodoGist gists = None) →
  GitHub.findExistingGist api w
  = (GitHub.Ok None,
     {| GitHub.sync := GitHub.sync w;
        GitHub.localStorage := GitHub.localStorage w;
        GitHub.server := server';
        GitHub.sent := GitHub.sent w ++ [GitHub.ListGists token0] |}).
Proof.
  intros Htok Htruthy Hreply Hnone.
  unfold GitHub.findExistingGist, GitHub.bind at 1.
  rewrite (requireToken_Some w token0 Htok Htruthy).
  unfold GitHub.tryCatch, GitHub.bind, GitHub.fetch. rewrite Hreply.
  destruct reply as [message|status errorData|[gists|message]]; try done.
  by rewrite (Hnone gists eq_refl).
Qed.

Lemma findUnlessKnown_unknown {Server : Type} (api : GitHub.Api Server)
    (w w' : GitHub.World Server) found :
  GitHub.truthyOpt (GitHub.gistId (GitHub.sync w)) = false →
  GitHub.findExistingGist api w = (GitHub.Ok found, w') →
  GitHub.findUnlessKnown api w = (GitHub.Ok tt, w').
Proof.
  intros Hgist Hfind. unfold GitHub.findUnlessKnown, GitHub.bind, GitHub.readSync.
  by rewrite Hgist, Hfind.
Qed.

Lemma findUnlessKnown_known {Server : Type} (api : GitHub.Api Server)
    (w : GitHub.World Server) :
  GitHub.truthyOpt (GitHub.gistId (GitHub.sync w)) = true →
  GitHub.findUnlessKnown api w = (GitHub.Ok tt, w).
Proof.
  intros Hgist. unfold GitHub.findUnlessKnown, GitHub.bind, GitHub.readSync.
  by rewrite Hgist.
Qed.

(** X27.  When the object knows no gist and the listing of the gists fails, for
    whatever reason (no connection, a token GitHub rejects), or lists no
    backup gist, a download is reported as "No backup found in cloud":
    [findExistingGist] swallows the error of the listing.  [this.tasks] is
    not assigned, and the listing is the only request sent. *)
Theorem failed_listing_reads_as_no_backup {Server Data : Type}
    (api : GitHub.Api Server) (parse : string → GitHub.Result Data)
    (w : GitHub.World Server) token0 reply server' :
  GitHub.token (GitHub.sync w) = Some token0 → truthy token0 = true →
  GitHub.truthyOpt (GitHub.gistId (GitHub.sync w)) = false →
  GitHub.listGists api token0 (GitHub.server w) = (reply, server') →
  (∀ gists, reply = GitHub.HttpSuccess (GitHub.Ok gists) →
            List.find GitHub.isTodoGist gists = None) →
  GitHub.handleDownloadFetch api parse w
  = ((None, ("No backup found in cloud", GitHub.Warning)),
     {| GitHub.sync := GitHub.sync w;
        GitHub.localStorage := GitHub.localStorage w;
        GitHub.server := server';
        GitHub.sent := GitHub.sent w ++ [GitHub.ListGists token0] |}).
Proof.
  intros Htok Htruthy Hgist Hreply Hnone.
  pose proof (findExistingGist_nothing_found api w token0 reply server'
                Htok Htruthy Hreply Hnone) as Hfind.
  pose proof (findUnlessKnown_unknown api w _ None Hgist Hfind) as Hlookup.
  unfold GitHub.handleDownloadFetch, GitHub.hasToken.
  rewrite Htok. cbn [GitHub.truthyOpt]. rewrite Htruthy. cbn [negb].
  unfold GitHub.downloadFromGist, GitHub.bind.
  rewrite (requireToken_Some w token0 Htok Htruthy), Hlookup.
  unfold GitHub.readSync. cbn [GitHub.sync].
  unfold GitHub.truthyOpt in Hgist.
  destruct (GitHub.gistId (GitHub.sync w)) as [gistId0|]; [rewrite Hgist|];
    unfold GitHub.throw; f_equal; f_equal; by vm_compute.
Qed.

Lemma failed_listing_reads_as_no_backup_witness :
  GitHub.handleDownloadFetch GitHub.sampleApi
    (λ content : string, GitHub.Ok content) GitHub.badTokenWorld
  = ((None, ("No backup found in cloud", GitHub.Warning)),
     {| GitHub.sync := GitHub.sync GitHub.badTokenWorld;
        GitHub.localStorage := GitHub.localStorage GitHub.badTokenWorld;
        GitHub.server := [];
        GitHub.sent := GitHub.sent GitHub.badTokenWorld
                       ++ [GitHub.ListGists "ghp_bad"] |}).
Proof.
  apply (failed_listing_reads_as_no_backup GitHub.sampleApi
           (λ content : string, GitHub.Ok content) GitHub.badTokenWorld
           "ghp_bad" (GitHub.HttpFailure 401 (GitHub.Ok (Some "Bad credentials"))) []).
  - vm_compute; reflexivity.
  - vm_compute; reflexivity.
  - vm_compute; reflexivity.
  - vm_compute; reflexivity.
  - intros gists H. discriminate H.
Defined.

(** X28.  The first upload of an account without a backup gist lists the gists,
    creates one and keeps its id, in the object and in [localStorage];
    every upload after that is a single [PATCH] of that gist. *)
Theorem first_upload_creates_then_patches {Server Data : Type}
    (api : GitHub.Api Server) (stringify : Data → string)
    (data data2 : Data) (w : GitHub.World Server)
    token0 reply server1 result server2 :
  GitHub.token (GitHub.sync w) = Some token0 → truthy token0 = true →
  GitHub.truthyOpt (GitHub.gistId (GitHub.sync w)) = false →
  GitHub.listGists api token0 (GitHub.server w) = (reply, server1) →
  (∀ gists, reply = GitHub.HttpSuccess (GitHub.Ok gists) →
            List.find GitHub.isTodoGist gists = None) →
  GitHub.postGist api token0 (stringify data) server1
  = (GitHub.HttpSuccess (GitHub.Ok result), server2) →
  truthy (GitHub.id result) = true →
  ∃ w1,
    GitHub.createOrUpdateGist api stringify data w = (GitHub.Ok result, w1)
    ∧ GitHub.sent w1
      = GitHub.sent w ++ [GitHub.ListGists token0;
                          GitHub.PostGist token0 (stringify data)]
    ∧ GitHub.gistId (GitHub.sync w1) = Some (GitHub.id result)
    ∧ GitHub.localStorage w1 !! "todoGistId" = Some (GitHub.id result)
    ∧ GitHub.sent (GitHub.createOrUpdateGist api stringify data2 w1).2
      = GitHub.sent w1
        ++ [GitHub.PatchGist (GitHub.id result) token0 (stringify data2)].
Proof.
  intros Htok Htruthy Hgist Hreply Hnone Hpost Hid.
  pose proof (findExistingGist_nothing_found api w token0 reply server1
                Htok Htruthy Hreply Hnone) as Hfind.
  pose proof (findUnlessKnown_unknown api w _ None Hgist Hfind) as Hlookup.
  set (w0 := {| GitHub.sync := GitHub.sync w;
                GitHub.localStorage := GitHub.localStorage w;
                GitHub.server := server1;
                GitHub.sent := GitHub.sent w ++ [GitHub.ListGists token0] |}) in *.
  set (w1 := {| GitHub.sync := {| GitHub.gistId := Some (GitHub.id result);
                                  GitHub.token := Some token0 |};
                GitHub.localStorage :=
                  <["todoGistId" := GitHub.id result]> (GitHub.localStorage w);
                GitHub.server := server2;
                GitHub.sent := GitHub.sent w0
                               ++ [GitHub.PostGist token0 (stringify data)] |}).
  exists w1.
  assert (GitHub.createOrUpdateGist api stringify data w = (GitHub.Ok result, w1))
    as Hfirst.
  { unfold GitHub.createOrUpdateGist, GitHub.bind.
    rewrite (requireToken_Some w token0 Htok Htruthy), Hlookup.
    unfold GitHub.readSync. cbn [GitHub.sync w0].
    assert (match GitHub.gistId (GitHub.sync w) with
            | Some gistId0 =>
                if truthy gistId0
                then GitHub.fetch (GitHub.PatchGist gistId0 token0 (stringify data))
                       (GitHub.patchGist api gistId0 token0 (stringify data))
                else GitHub.fetch (GitHub.PostGist token0 (stringify data))
                       (GitHub.postGist api token0 (stringify data))
            | None => GitHub.fetch (GitHub.PostGist token0 (stringify data))
                        (GitHub.postGist api token0 (stringify data))
            end
            = GitHub.fetch (GitHub.PostGist token0 (stringify data))
                (GitHub.postGist api token0 (stringify data))) as ->.
    { unfold GitHub.truthyOpt in Hgist.
      destruct (GitHub.gistId (GitHub.sync w)); [by rewrite Hgist | done]. }
    unfold GitHub.fetch. subst w1 w0. cbn [GitHub.server]. rewrite Hpost.
    cbn [GitHub.sync]. rewrite Hgist.
    unfold GitHub.storeGistId, GitHub.ret.
    cbn [GitHub.sync GitHub.token GitHub.localStorage GitHub.server GitHub.sent].
    by rewrite Htok. }
  split; [exact Hfirst|].
  split; [subst w1 w0; cbn [GitHub.sent]; by rewrite <-(assoc_L (++))|].
  split; [done|]. split; [subst w1; cbn; by rewrite lookup_insert_eq|].
  (* the second upload *)
  assert (GitHub.token (GitHub.sync w1) = Some token0) as Htok1 by done.
  assert (GitHub.truthyOpt (GitHub.gistId (GitHub.sync w1)) = true) as Hgist1
    by exact Hid.
  unfold GitHub.createOrUpdateGist, GitHub.bind.
  rewrite (requireToken_Some w1 token0 Htok1 Htruthy).
  rewrite (findUnlessKnown_known api w1 Hgist1).
  unfold GitHub.readSync. subst w1.
  cbn [GitHub.sync GitHub.gistId]. rewrite Hid.
  unfold GitHub.fetch. cbn [GitHub.server].
  destruct (GitHub.patchGist api (GitHub.id result) token0 (stringify data2) server2)
    as [reply2 server3].
  destruct reply2 as [message|status errorData|[result2|message]];
    unfold GitHub.throw; try done.
  cbn [GitHub.sync GitHub.gistId GitHub.truthyOpt]. by rewrite Hid.
Qed.

Lemma first_upload_creates_then_patches_witness :
  ∃ w1,
    GitHub.createOrUpdateGist GitHub.sampleApi (λ data : string, data) "{}"
      GitHub.sampleWorld
    = (GitHub.Ok {| GitHub.id := "g0";
                    GitHub.description := Some "Todo App Data Backup";
                    GitHub.files := {[ "todo-data.json" := Some "{}" ]} |}, w1)
    ∧ GitHub.sent w1
      = GitHub.sent GitHub.sampleWorld
        ++ [GitHub.ListGists GitHub.sampleToken;
            GitHub.PostGist GitHub.sampleToken "{}"]
    ∧ GitHub.gistId (GitHub.sync w1) = Some "g0"
    ∧ GitHub.localStorage w1 !! "todoGistId" = Some "g0"
    ∧ GitHub.sent
        (GitHub.createOrUpdateGist GitHub.sampleApi (λ data : string, data)
           "{...}" w1).2
      = GitHub.sent w1 ++ [GitHub.PatchGist "g0" GitHub.sampleToken "{...}"].
Proof.
  apply (first_upload_creates_then_patches GitHub.sampleApi
           (λ data : string, data) "{}" "{...}" GitHub.sampleWorld
           GitHub.sampleToken (GitHub.HttpSuccess (GitHub.Ok [])) []
           {| GitHub.id := "g0";
              GitHub.description := Some "Todo App Data Backup";
              GitHub.files := {[ "todo-data.json" := Some "{}" ]} |}
           [{| GitHub.id := "g0";
               GitHub.description := Some "Todo App Data Backup";
               GitHub.files := {[ "todo-data.json" := Some "{}" ]} |}]).
  - vm_compute; reflexivity.
  - vm_compute; reflexivity.
  - vm_compute; reflexivity.
  - vm_compute; reflexivity.
  - intros gists [= <-]. reflexivity.
  - vm_compute; reflexivity.
  - vm_compute; reflexivity.
Defined.

(** X29.  Once the object has a gist id, an upload is one [PATCH] of that gist
    and a download is one [GET] of it, and neither touches the object or
    [localStorage], whatever GitHub answers: the gists are not listed
    again and no gist is created.  So when that gist is gone (GitHub
    answers 404), every upload and every download fails, until
    [clearToken] forgets the id. *)
Theorem known_gist_is_never_looked_up {Server Data : Type}
    (api : GitHub.Api Server) (stringify : Data → string)
    (parse : string → GitHub.Result Data) (data : Data)
    (w : GitHub.World Server) token0 gistId0 :
  GitHub.token (GitHub.sync w) = Some token0 → truthy token0 = true →
  GitHub.gistId (GitHub.sync w) = Some gistId0 → truthy gistId0 = true →
  (∃ r w',
     GitHub.createOrUpdateGist api stringify data w = (r, w')
     ∧ GitHub.sent w'
       = GitHub.sent w ++ [GitHub.PatchGist gistId0 token0 (stringify data)]
     ∧ GitHub.sync w' = GitHub.sync w
     ∧ GitHub.localStorage w' = GitHub.localStorage w
     ∧ ∀ status errorData,
         (GitHub.patchGist api gistId0 token0 (stringify data) (GitHub.server w)).1
         = GitHub.HttpFailure status errorData →
         r = GitHub.Err (GitHub.failureMessage status errorData))
  ∧ (∃ r w',
       GitHub.downloadFromGist api parse w = (r, w')
       ∧ GitHub.sent w' = GitHub.sent w ++ [GitHub.GetGist gistId0 token0]
       ∧ GitHub.sync w' = GitHub.sync w
       ∧ GitHub.localStorage w' = GitHub.localStorage w
       ∧ ∀ status errorData,
           (GitHub.getGist api gistId0 token0 (GitHub.server w)).1
           = GitHub.HttpFailure status errorData →
           r = GitHub.Err (GitHub.failureMessage status errorData)).
Proof.
  intros Htok Htruthy Hgist Hid.
  assert (GitHub.truthyOpt (GitHub.gistId (GitHub.sync w)) = true) as Hknown
    by (by rewrite Hgist).
  split.
  - unfold GitHub.createOrUpdateGist, GitHub.bind.
    rewrite (requireToken_Some w token0 Htok Htruthy).
    rewrite (findUnlessKnown_known api w Hknown).
    unfold GitHub.readSync. rewrite Hgist, Hid. unfold GitHub.fetch.
    destruct (GitHub.patchGist api gistId0 token0 (stringify data) (GitHub.server w))
      as [reply server'].
    destruct reply as [message|status errorData|[result|message]];
      unfold GitHub.throw;
      try (eexists _, _; split; [reflexivity|]; cbn; repeat split; congruence).
    cbn [GitHub.sync]. rewrite Hknown. unfold GitHub.ret.
    eexists _, _; split; [reflexivity|]; cbn; repeat split; congruence.
  - unfold GitHub.downloadFromGist, GitHub.bind.
    rewrite (requireToken_Some w token0 Htok Htruthy).
    rewrite (findUnlessKnown_known api w Hknown).
    unfold GitHub.readSync. rewrite Hgist, Hid. unfold GitHub.fetch.
    destruct (GitHub.getGist api gistId0 token0 (GitHub.server w))
      as [reply server'].
    destruct reply as [message|status errorData|[gist|message]];
      unfold GitHub.throw;
      try (eexists _, _; split; [reflexivity|]; cbn; repeat split; congruence).
    destruct (GitHub.files gist !! "todo-data.json") as [[fileContent|]|];
      try (eexists _, _; split; [reflexivity|]; cbn; repeat split; congruence).
    destruct (truthy fileContent);
      try (eexists _, _; split; [reflexivity|]; cbn; repeat split; congruence).
    destruct (parse fileContent); unfold GitHub.ret;
      eexists _, _; split; try reflexivity; cbn; repeat split; congruence.
Qed.

Lemma known_gist_is_never_looked_up_witness :
  (∃ r w',
     GitHub.createOrUpdateGist GitHub.sampleApi (λ data : string, data) "{}"
       GitHub.staleWorld = (r, w')
     ∧ GitHub.sent w'
       = GitHub.sent GitHub.staleWorld
         ++ [GitHub.PatchGist "g0" GitHub.sampleToken "{}"]
     ∧ GitHub.sync w' = GitHub.sync GitHub.staleWorld
     ∧ GitHub.localStorage w' = GitHub.localStorage GitHub.staleWorld
     ∧ ∀ status errorData,
         (GitHub.patchGist GitHub.sampleApi "g0" GitHub.sampleToken "{}"
            (GitHub.server GitHub.staleWorld)).1
         = GitHub.HttpFailure status errorData →
         r = GitHub.Err (GitHub.failureMessage status errorData))
  ∧ (∃ r w',
       GitHub.downloadFromGist GitHub.sampleApi
         (λ content : string, GitHub.Ok content) GitHub.staleWorld = (r, w')
       ∧ GitHub.sent w'
         = GitHub.sent GitHub.staleWorld ++ [GitHub.GetGist "g0" GitHub.sampleToken]
       ∧ GitHub.sync w' = GitHub.sync GitHub.staleWorld
       ∧ GitHub.localStorage w' = GitHub.localStorage GitHub.staleWorld
       ∧ ∀ status errorData,
           (GitHub.getGist GitHub.sampleApi "g0" GitHub.sampleToken
              (GitHub.server GitHub.staleWorld)).1
           = GitHub.HttpFailure status errorData →
           r = GitHub.Err (GitHub.failureMessage status errorData)).
Proof.
  apply (known_gist_is_never_looked_up GitHub.sampleApi (λ data : string, data)
           (λ content : string, GitHub.Ok content) "{}" GitHub.staleWorld
           GitHub.sampleToken "g0");
    vm_compute; reflexivity.
Defined.

(** ** The sync of [script.js] *)

Lemma merge_prefix (cloud local : gmap string (gmap string (list Task)))
    category date l :
  bucketOf local category date = Some l →
  ∃ extra, bucketOf (mergeTaskData cloud local) category date = Some (l ++ extra).
Proof.
  intros Hl. rewrite mergeTaskData_bucket, Hl. unfold mergeBucket.
  destruct (bucketOf cloud category date) as [r|].
  - destruct (pushMissing_prefix l r) as (extra & -> & _). by exists extra.
  - exists []. by rewrite app_nil_r.
Qed.

Lemma handleSync_steps {Server : Type} (api : GitHub.Api Server)
    (stringify : gmap string (gmap string (list Task)) → string)
    (parse : string → GitHub.Result (gmap string (gmap string (list Task))))
    (local : gmap string (gmap string (list Task)))
    (w : GitHub.World Server) :
  GitHub.hasToken w = true →
  ∀ r1 w1, GitHub.downloadFromGist api parse w = (r1, w1) →
  ∀ merged,
    merged = match r1 with
             | GitHub.Ok cloudData => mergeTaskData cloudData local
             | GitHub.Err _ => local
             end →
  ∀ r2 w2, GitHub.createOrUpdateGist api stringify merged w1 = (r2, w2) →
  handleSync api stringify parse local w
  = ((merged,
      match r2 with
      | GitHub.Ok _ => ("Tasks synced successfully!", GitHub.Success)
      | GitHub.Err message => ("Sync failed: " +:+ message, GitHub.Error)
      end), w2).
Proof.
  intros Htok r1 w1 Hdown merged -> r2 w2 Hup. unfold handleSync.
  rewrite Htok, Hdown. cbn [negb].
  destruct r1 as [cloudData|message1]; rewrite Hup; by destruct r2.
Qed.

(** X30.  [handleSync] keeps every local array as the beginning of the array it
    has afterwards, whether the download worked or not; what it uploads is
    the store it then has, never the store as it was before the merge or
    the downloaded one; a success is notified only after such an upload;
    and the object stays in agreement with [localStorage]. *)
Theorem handleSync_uploads_what_it_keeps {Server : Type}
    (api : GitHub.Api Server)
    (stringify : gmap string (gmap string (list Task)) → string)
    (parse : string → GitHub.Result (gmap string (gmap string (list Task))))
    (local : gmap string (gmap string (list Task)))
    (w : GitHub.World Server) :
  let kept := (handleSync api stringify parse local w).1.1 in
  let notification := (handleSync api stringify parse local w).1.2 in
  let w' := (handleSync api stringify parse local w).2 in
  (∀ category date l,
     bucketOf local category date = Some l →
     ∃ extra, bucketOf kept category date = Some (l ++ extra))
  ∧ (∃ new,
       GitHub.sent w' = GitHub.sent w ++ new
       ∧ (∀ request content,
            request ∈ new → GitHub.uploadedContent request = Some content →
            content = stringify kept)
       ∧ (notification.2 = GitHub.Success →
          ∃ request, request ∈ new
                     ∧ GitHub.uploadedContent request = Some (stringify kept)))
  ∧ (GitHub.mirrored w → GitHub.mirrored w').
Proof.
  intros kept notification w'. subst kept notification w'.
  destruct (GitHub.hasToken w) eqn:Htok.
  - destruct (hasToken_Some w Htok) as (token0 & Ht & Htr).
    destruct (downloadFromGist_spec api parse w token0 Ht Htr)
      as (r1 & w1 & new1 & Hdown & (Ht1 & Hm1 & Hs1) & _ & Hall1).
    set (merged := match r1 with
                   | GitHub.Ok cloudData => mergeTaskData cloudData local
                   | GitHub.Err _ => local
                   end).
    assert (GitHub.token (GitHub.sync w1) = Some token0) as Ht1' by congruence.
    destruct (createOrUpdateGist_spec api stringify merged w1 token0 Ht1' Htr)
      as (r2 & w2 & lookup & upload & Hup & (Ht2 & Hm2 & Hs2) & Hl & Hut & Huc).
    rewrite (handleSync_steps api stringify parse local w Htok r1 w1 Hdown
               merged eq_refl r2 w2 Hup).
    cbn [fst snd]. split; [|split; [|tauto]].
    + intros category date l Hl'. subst merged. destruct r1 as [cloudData|message].
      * by apply merge_prefix.
      * exists []. by rewrite app_nil_r.
    + exists (new1 ++ lookup ++ [upload]).
      split; [by rewrite Hs2, Hs1, <-(assoc_L (++))|]. split.
      * intros request content Hin Hc.
        apply elem_of_app in Hin as [Hin|Hin].
        -- apply (proj1 (Forall_forall _ _) Hall1) in Hin as [_ Hnone]. congruence.
        -- apply elem_of_app in Hin as [Hin|Hin].
           ++ destruct Hl as [-> | ->]; [by apply elem_of_nil in Hin|].
              apply list_elem_of_singleton in Hin as ->. done.
           ++ apply list_elem_of_singleton in Hin as ->. congruence.
      * intros _. exists upload. split; [|done].
        apply elem_of_app. right. apply elem_of_app. right. by left.
  - unfold handleSync. rewrite Htok. cbn [negb fst snd].
    split; [|split; [|done]].
    + intros category date l Hl. exists []. by rewrite app_nil_r.
    + exists []. split; [by rewrite app_nil_r|]. split; [|done].
      by intros request content ?%elem_of_nil.
Qed.
